(** * mk2: Novation Launchpad MK2 USB driver -- framing codec and channel state machines

    Shallow embedding of [src/mk2.c].  Sizes and indices are C integers
    modelled as [Z] with their wrap-around written out ([size_t] is the
    64-bit [unsigned long] of the kernel targets the driver prints it
    with, [unsigned] and [int] are 32 bits wide).  Buffers are lists of
    bytes addressed by index; an access outside the object is undefined
    behaviour and is reported as [None]. *)

From Stdlib Require Import ZArith NArith List Lia Bool.
From Stdlib Require Strings.Byte.
From stdpp Require Import base option list.
Import ListNotations.

Local Open Scope Z_scope.

Abbreviation byte := Byte.byte.

(** ** C integer types *)

Definition size_t_modulus : Z := 2 ^ 64.
Definition uint_modulus : Z := 2 ^ 32.

(** Conversion to [size_t] (also the result of every [size_t] operation). *)
Definition to_size_t (x : Z) : Z := x mod size_t_modulus.
(** Conversion to [unsigned]. *)
Definition to_uint (x : Z) : Z := x mod uint_modulus.
(** Conversion to [int]; the kernel is built with wrapping signed arithmetic. *)
Definition to_int (x : Z) : Z := (x + 2 ^ 31) mod uint_modulus - 2 ^ 31.

(** ** Constants of the driver *)

Definition WRITES_IN_FLIGHT : Z := 8.
Definition USB_MK2_MAX_OUT_LEN : Z := 407.
Definition MK2_SYSEX_PACKET_SIZE : Z := 3.
Definition MK2_STUFFED_PACKET_SIZE : Z := 4.
Definition MK2_SYSEX_SIZE_ROUND_UP : Z := 2.

Definition MK2_SYSEX_MOREDATA : byte := Byte.x04.
Definition MK2_SYSEX_DATAEND1 : byte := Byte.x05.
Definition MK2_SYSEX_DATAEND2 : byte := Byte.x06.
Definition MK2_SYSEX_DATAEND3 : byte := Byte.x07.
Definition MK2_SYSEX_BUTTON : byte := Byte.x09.
Definition MK2_SYSEX_SBUTTON : byte := Byte.x0b.

(** errno values (include/uapi/asm-generic/errno-base.h and errno.h). *)
Definition ENOENT : Z := 2.
Definition EIO : Z := 5.
Definition EAGAIN : Z := 11.
Definition ENOMEM : Z := 12.
Definition EFAULT : Z := 14.
Definition ENODEV : Z := 19.
Definition EINVAL : Z := 22.
Definition EPIPE : Z := 32.
Definition ECONNRESET : Z := 104.
Definition ESHUTDOWN : Z := 108.
Definition ERESTARTSYS : Z := 512.

(** ** Memory objects *)

(** [m[i]] as an rvalue. *)
Definition load (m : list byte) (i : Z) : option byte :=
  if decide (0 <= i) then m !! Z.to_nat i else None.

(** [m[i] = v]. *)
Definition store (m : list byte) (i : Z) (v : byte) : option (list byte) :=
  if decide (0 <= i < Z.of_nat (length m)) then Some (<[Z.to_nat i := v]> m) else None.

(** [n] consecutive bytes starting at [m + off], as read by a copy routine;
    a copy of zero bytes touches nothing. *)
Fixpoint load_range (m : list byte) (off : Z) (n : nat) : option (list byte) :=
  match n with
  | O => Some []
  | S n' =>
      b ← load m off;
      bs ← load_range m (off + 1) n';
      Some (b :: bs)
  end.

(** ** Frame codec: size computation and stuffing *)

Definition compute_stuffed_size (payload_size : Z) : Z :=
  let stuffed_size := to_size_t (payload_size + MK2_SYSEX_SIZE_ROUND_UP) in
  let stuffed_size := stuffed_size / MK2_SYSEX_PACKET_SIZE in
  let stuffed_size := to_size_t (stuffed_size * MK2_STUFFED_PACKET_SIZE) in
  stuffed_size.

(** The [while (blk > 0)] loop of [stuff_buffer]; returns the buffer and
    the final [oi], [ii]. *)
Fixpoint stuff_loop (blk : nat) (user_buffer buf : list byte) (oi ii : Z)
  : option (list byte * Z * Z) :=
  match blk with
  | O => Some (buf, oi, ii)
  | S blk' =>
      buf ← store buf (to_size_t (oi + 0)) MK2_SYSEX_MOREDATA;
      b0 ← load user_buffer (to_size_t (ii + 0));
      buf ← store buf (to_size_t (oi + 1)) b0;
      b1 ← load user_buffer (to_size_t (ii + 1));
      buf ← store buf (to_size_t (oi + 2)) b1;
      b2 ← load user_buffer (to_size_t (ii + 2));
      buf ← store buf (to_size_t (oi + 3)) b2;
      stuff_loop blk' user_buffer buf (to_size_t (oi + 4)) (to_size_t (ii + 3))
  end.

(** [print_hex_dump] reads [stuffed_size] bytes of [buf]. *)
Definition hex_dump (buf : list byte) (len : Z) : option unit :=
  if decide (len <= Z.of_nat (length buf)) then Some tt else None.

Definition stuff_buffer (buf : list byte) (stuffed_size : Z)
    (user_buffer : list byte) (count : Z) : option (list byte) :=
  let blk := count / 3 in
  let rem := count mod 3 in
  '(buf, oi, ii) ← stuff_loop (Z.to_nat blk) user_buffer buf 0 0;
  buf ← match rem with
        | 0 => store buf (to_size_t (oi - 4)) MK2_SYSEX_DATAEND3
        | 1 =>
            buf ← store buf (to_size_t (oi + 0)) MK2_SYSEX_DATAEND1;
            b0 ← load user_buffer (to_size_t (ii + 0));
            buf ← store buf (to_size_t (oi + 1)) b0;
            buf ← store buf (to_size_t (oi + 2)) Byte.x00;
            store buf (to_size_t (oi + 3)) Byte.x00
        | 2 =>
            buf ← store buf (to_size_t (oi + 0)) MK2_SYSEX_DATAEND2;
            b0 ← load user_buffer (to_size_t (ii + 0));
            buf ← store buf (to_size_t (oi + 1)) b0;
            b1 ← load user_buffer (to_size_t (ii + 1));
            buf ← store buf (to_size_t (oi + 2)) b1;
            store buf (to_size_t (oi + 3)) Byte.x00
        | _ => Some buf
        end;
  _ ← hex_dump buf stuffed_size;
  Some buf.

(** The frame layout in the words of the specification: one
    [MOREDATA, b0, b1, b2] packet per full group of three bytes, the last
    full group re-labelled [DATAEND3] when nothing remains, otherwise a
    zero-padded [DATAEND1] / [DATAEND2] packet. *)
Fixpoint encode (payload : list byte) : list byte :=
  match payload with
  | [] => []
  | [b0] => [MK2_SYSEX_DATAEND1; b0; Byte.x00; Byte.x00]
  | [b0; b1] => [MK2_SYSEX_DATAEND2; b0; b1; Byte.x00]
  | [b0; b1; b2] => [MK2_SYSEX_DATAEND3; b0; b1; b2]
  | b0 :: b1 :: b2 :: rest => MK2_SYSEX_MOREDATA :: b0 :: b1 :: b2 :: encode rest
  end.

(** The [i]-th four-byte packet of a frame. *)
Definition packet (i : nat) (frame : list byte) : list byte :=
  take 4 (drop (4 * i) frame).

(** The largest size of a C object. *)
Definition PTRDIFF_MAX : Z := 2 ^ 63 - 1.

(** ** Read buffer and destuffing *)

Record mk2_read_buffer := {
  data : list byte;
  size : Z;
  filled : Z;
  copied : Z;
}.

Definition set_copied (rb : mk2_read_buffer) (c : Z) : mk2_read_buffer :=
  {| data := data rb; size := size rb; filled := filled rb; copied := c |}.

(** The [switch (... & 0x0f)] of [parse_buffered_data]: payload width of a
    packet, [None] for the [default:] label. *)
Definition batch_size_of (status : byte) : option Z :=
  match N.land (Byte.to_N status) 15 with
  | 4%N | 9%N | 11%N => Some 3
  | 5%N => Some 1
  | 6%N => Some 2
  | 7%N => Some 0
  | _ => None
  end.

(** Local variables of the decoding loop.  [user_out] is what
    [copy_to_user] has stored at the caller's pointer so far (the pointer
    only moves forward, so this is a list that grows at its end);
    [reads] is ghost state: the indices of [read_buffer->data] the
    function has read, in order. *)
Record parse_state := {
  retval : Z;
  rb_index : Z;
  rem_size : Z;
  user_out : list byte;
  reads : list Z;
}.

Inductive step_result :=
| Continue (st : parse_state)
| Break (st : parse_state)
| Fault (st : parse_state)
| Undefined.

(** [copy_to_user] fails when the destination is not writable;
    [user_writable] is the number of writable bytes at the caller's
    pointer. *)
Definition copy_to_user_ok (user_writable : Z) (st : parse_state) (n : Z) : bool :=
  (n =? 0) || (Z.of_nat (length (user_out st)) + n <=? user_writable).

(** One iteration of the [while] body, entered with [rb_index < leftover].
    As in the source, the status byte is [read_buffer->data[rb_index]] and
    the payload is copied from
    [read_buffer->data + read_buffer->copied + rb_index + 1]. *)
Definition parse_step (rb : mk2_read_buffer) (user_writable leftover : Z)
    (st : parse_state) : step_result :=
  match load (data rb) (rb_index st) with
  | None => Undefined
  | Some status =>
      let st := {| retval := retval st; rb_index := rb_index st;
                   rem_size := rem_size st; user_out := user_out st;
                   reads := reads st ++ [rb_index st] |} in
      match batch_size_of status with
      | None => Fault st
      | Some batch_size =>
          if rem_size st <? batch_size then Break st
          else if leftover <? to_uint (rb_index st + MK2_STUFFED_PACKET_SIZE)
          then Fault st
          else
            let src := copied rb + rb_index st + 1 in
            match load_range (data rb) src (Z.to_nat batch_size) with
            | None => Undefined
            | Some payload =>
                let touched := map (fun k => src + Z.of_nat k)
                                   (seq 0 (Z.to_nat batch_size)) in
                if copy_to_user_ok user_writable st batch_size then
                  Continue
                    {| retval := to_int (retval st + batch_size);
                       rb_index := to_uint (rb_index st + MK2_STUFFED_PACKET_SIZE);
                       rem_size := to_uint (rem_size st - batch_size);
                       user_out := user_out st ++ payload;
                       reads := reads st ++ touched |}
                else
                  Fault {| retval := retval st; rb_index := rb_index st;
                           rem_size := rem_size st; user_out := user_out st;
                           reads := reads st ++ touched |}
            end
      end
  end.

Inductive loop_result :=
| Loop_done (st : parse_state)
| Loop_fault (st : parse_state)
| Loop_undefined
| Loop_out_of_fuel.

(** [while (rb_index < leftover) { ... }] *)
Fixpoint parse_loop (fuel : nat) (rb : mk2_read_buffer) (user_writable leftover : Z)
    (st : parse_state) : loop_result :=
  match fuel with
  | O => Loop_out_of_fuel
  | S fuel' =>
      if rb_index st <? leftover then
        match parse_step rb user_writable leftover st with
        | Continue st' => parse_loop fuel' rb user_writable leftover st'
        | Break st' => Loop_done st'
        | Fault st' => Loop_fault st'
        | Undefined => Loop_undefined
        end
      else Loop_done st
  end.

Inductive parse_result :=
| Returned (ret : Z) (rb : mk2_read_buffer) (user : list byte) (touched : list Z)
| Bug_on
| Undefined_read
| Out_of_fuel.

Definition parse_init (user_size : Z) : parse_state :=
  {| retval := 0; rb_index := 0; rem_size := to_uint user_size;
     user_out := []; reads := [] |}.

(** Every iteration that continues moves [rb_index] four bytes towards
    [leftover], so [leftover] iterations suffice unless the 32-bit index
    wraps. *)
Definition parse_fuel (leftover : Z) : nat := Z.to_nat leftover.

Definition parse_buffered_data (read_buffer : mk2_read_buffer)
    (user_writable user_size : Z) : parse_result :=
  let leftover := to_size_t (filled read_buffer - copied read_buffer) in
  if user_size =? 0 then Bug_on
  else if leftover =? 0 then Bug_on
  else
    match parse_loop (parse_fuel leftover) read_buffer user_writable leftover
                     (parse_init user_size) with
    | Loop_done st =>
        Returned (retval st)
                 (set_copied read_buffer (to_size_t (copied read_buffer + rb_index st)))
                 (user_out st) (reads st)
    | Loop_fault st => Returned (- EFAULT) read_buffer (user_out st) (reads st)
    | Loop_undefined => Undefined_read
    | Loop_out_of_fuel => Out_of_fuel
    end.

(** ** Device state and the transport collaborator *)

(** The field [errors] of the two endpoint structures is [read_errors] and
    [write_errors] here; locks, wait queue, urb pointer and endpoint
    address carry no state of their own in a sequential model. *)

Record mk2_read_endp := {
  buffer : mk2_read_buffer;
  read_errors : Z;
  requested_read : bool;
}.

(** [submitted] is the anchor: the frames of the write urbs anchored to it;
    [limit_sem] is the count of the semaphore. *)
Record mk2_write_endp := {
  submitted : list (list byte);
  limit_sem : Z;
  write_errors : Z;
}.

Record mk2dev := {
  read_endp : mk2_read_endp;
  write_endp : mk2_write_endp;
  disconnected : bool;
}.

(** What the host controller reports about a finished transfer;
    [urb_in_data] is what an inbound transfer has stored at the start of
    its transfer buffer. *)
Record urb := {
  urb_status : Z;
  urb_actual_length : Z;
  urb_transfer_buffer_length : Z;
  urb_in_data : list byte;
}.

(** Calls into the kernel, in program order.  [Usb_submit_read_urb]
    carries the values of [requested_read], [buffer.filled] and
    [buffer.copied] at the moment of the call. *)
Inductive event :=
| Down
| Up
| Usb_alloc_urb
| Usb_alloc_coherent (n : Z)
| Usb_free_coherent (n : Z)
| Usb_free_urb
| Memdup_user (n : Z)
| Kfree
| Usb_anchor_urb
| Usb_unanchor_urb
| Usb_submit_write_urb (frame : list byte)
| Usb_submit_read_urb (requested : bool) (filled_now copied_now : Z)
| Usb_kill_urb
| Usb_kill_anchored_urbs
| Dev_err
| Wake_up.

(** How a system call ends: it returns a value, it has not returned within
    the modelled environment (the caller sleeps on the semaphore or on the
    wait queue), or it has left defined behaviour. *)
Inductive call_result :=
| Ret (v : Z)
| Pending
| Crash.

Definition set_write_endp (dev : mk2dev) (ep : mk2_write_endp) : mk2dev :=
  {| read_endp := read_endp dev; write_endp := ep; disconnected := disconnected dev |}.

Definition set_read_endp (dev : mk2dev) (ep : mk2_read_endp) : mk2dev :=
  {| read_endp := ep; write_endp := write_endp dev; disconnected := disconnected dev |}.

Definition set_limit_sem (ep : mk2_write_endp) (n : Z) : mk2_write_endp :=
  {| submitted := submitted ep; limit_sem := n; write_errors := write_errors ep |}.

Definition set_write_errors (ep : mk2_write_endp) (e : Z) : mk2_write_endp :=
  {| submitted := submitted ep; limit_sem := limit_sem ep; write_errors := e |}.

Definition set_submitted (ep : mk2_write_endp) (l : list (list byte)) : mk2_write_endp :=
  {| submitted := l; limit_sem := limit_sem ep; write_errors := write_errors ep |}.

Definition set_buffer (ep : mk2_read_endp) (rb : mk2_read_buffer) : mk2_read_endp :=
  {| buffer := rb; read_errors := read_errors ep; requested_read := requested_read ep |}.

Definition set_read_errors (ep : mk2_read_endp) (e : Z) : mk2_read_endp :=
  {| buffer := buffer ep; read_errors := e; requested_read := requested_read ep |}.

Definition set_requested_read (ep : mk2_read_endp) (r : bool) : mk2_read_endp :=
  {| buffer := buffer ep; read_errors := read_errors ep; requested_read := r |}.

Definition set_filled (rb : mk2_read_buffer) (f : Z) : mk2_read_buffer :=
  {| data := data rb; size := size rb; filled := f; copied := copied rb |}.

Definition set_data (rb : mk2_read_buffer) (d : list byte) : mk2_read_buffer :=
  {| data := d; size := size rb; filled := filled rb; copied := copied rb |}.

(** The statuses of an unlinked urb, which the callbacks do not log. *)
Definition unlink_status (status : Z) : bool :=
  (status =? - ENOENT) || (status =? - ECONNRESET) || (status =? - ESHUTDOWN).

(** ** Write channel *)

Definition mk2_write_bulk_callback (dev : mk2dev) (u : urb) : mk2dev * list event :=
  let endpoint := write_endp dev in
  let '(endpoint, logged) :=
    if urb_status u =? 0 then (endpoint, [])
    else (set_write_errors endpoint (urb_status u),
          if negb (unlink_status (urb_status u)) then [Dev_err] else []) in
  (set_write_endp dev (set_limit_sem endpoint (limit_sem endpoint + 1)),
   logged ++ [Usb_free_coherent (urb_transfer_buffer_length u); Up]).

(** The answers of the kernel that [mk2_write] depends on. *)
Record write_env := {
  signal_pending : bool;
  alloc_urb_ok : bool;
  alloc_coherent_ok : bool;
  access_ok : bool;
  memdup_alloc_ok : bool;
  submit_write_result : Z;
}.

(** [memdup_user(user_buffer_, count)]; [user] is the readable memory at
    the caller's pointer.  [inr err] stands for the error pointer
    [ERR_PTR(err)] the function returns when it fails. *)
Definition memdup_user (env : write_env) (user : list byte) (count : Z) : list byte + Z :=
  if negb (memdup_alloc_ok env) then inr (- ENOMEM)
  else if count <=? Z.of_nat (length user) then inl (take (Z.to_nat count) user)
  else inr (- EFAULT).

(** The labels [error:] and [exit:] of [mk2_write]: what is released
    before the value is returned.  [have_user_buffer] tells whether
    [user_buffer] points at the copy of the caller's data, [have_urb]
    whether [urb] is set. *)
Definition write_error (dev : mk2dev) (endpoint : mk2_write_endp)
    (have_user_buffer have_urb : bool) (stuffed_size retval : Z) (trace : list event)
  : call_result * mk2dev * list event :=
  (Ret retval,
   set_write_endp dev (set_limit_sem endpoint (limit_sem endpoint + 1)),
   trace
   ++ (if have_user_buffer then [Kfree] else [])
   ++ (if have_urb then [Usb_free_coherent stuffed_size; Usb_free_urb] else [])
   ++ [Up]).

(** [count] is the caller's [size_t] byte count, [nonblock] is
    [filp->f_flags & O_NONBLOCK].  [down_trylock] and [down_interruptible]
    take a slot at once when the count of the semaphore is positive;
    otherwise the first fails and the second sleeps, until a signal
    ([-ERESTARTSYS]) or for as long as the model looks ([Pending]: nothing
    has been changed before that point, so the call resumes as a fresh
    call once a completion has released a slot).  The coherent buffer
    comes zeroed and [stuff_buffer] overwrites all of it.  The mutex only
    orders the test of [disconnected] and the submission against
    [mk2_disconnect]; calls are atomic here.  When [memdup_user] fails,
    the jump to [error:] is made with [user_buffer] holding the error
    pointer: it is not null, so [kfree] is called on a value that is no
    pointer to allocated memory, and the call leaves defined behaviour
    there, holding its slot.  A refused submission is logged with
    [dev_err] before the urb is unanchored. *)
Definition mk2_write (dev : mk2dev) (nonblock : bool) (env : write_env)
    (user_buffer_ : list byte) (count : Z) : call_result * mk2dev * list event :=
  if count =? 0 then (Ret 0, dev, [])
  else
    let count := Z.min count USB_MK2_MAX_OUT_LEN in
    let stuffed_size := compute_stuffed_size count in
    let endpoint := write_endp dev in
    if limit_sem endpoint <=? 0 then
      if nonblock then (Ret (- EAGAIN), dev, [])
      else if signal_pending env then (Ret (- ERESTARTSYS), dev, [])
      else (Pending, dev, [])
    else
      let endpoint := set_limit_sem endpoint (limit_sem endpoint - 1) in
      let trace := [Down] in
      let retval := write_errors endpoint in
      if retval <? 0 then
        let endpoint := set_write_errors endpoint 0 in
        let retval := if retval =? - EPIPE then retval else - EIO in
        write_error dev endpoint false false stuffed_size retval trace
      else
        let trace := trace ++ [Usb_alloc_urb] in
        if negb (alloc_urb_ok env) then
          write_error dev endpoint false false stuffed_size (- ENOMEM) trace
        else
          let trace := trace ++ [Usb_alloc_coherent stuffed_size] in
          if negb (alloc_coherent_ok env) then
            write_error dev endpoint false true stuffed_size (- ENOMEM) trace
          else if negb (access_ok env) then
            write_error dev endpoint false true stuffed_size (- EINVAL) trace
          else
            let trace := trace ++ [Memdup_user count] in
            match memdup_user env user_buffer_ count with
            | inr _ => (Crash, set_write_endp dev endpoint, trace)
            | inl user_buffer =>
                let buf := repeat Byte.x00 (Z.to_nat stuffed_size) in
                match stuff_buffer buf stuffed_size user_buffer count with
                | None => (Crash, set_write_endp dev endpoint, trace)
                | Some buf =>
                    if disconnected dev then
                      write_error dev endpoint true true stuffed_size (- ENODEV) trace
                    else
                      let trace := trace ++ [Usb_anchor_urb; Usb_submit_write_urb buf] in
                      let retval := submit_write_result env in
                      if negb (retval =? 0) then
                        write_error dev endpoint true true stuffed_size retval
                                    (trace ++ [Dev_err; Usb_unanchor_urb])
                      else
                        (Ret count,
                         set_write_endp dev (set_submitted endpoint (buf :: submitted endpoint)),
                         trace ++ [Usb_free_urb])
                end
            end.

(** ** Read channel *)

(** The host controller stores the received bytes at the start of the
    transfer buffer ([endpoint->buffer.data]) before it completes the urb. *)
Definition dma_store (rb : mk2_read_buffer) (received : list byte) : mk2_read_buffer :=
  set_data rb (take (length (data rb)) (received ++ drop (length received) (data rb))).

Definition mk2_read_bulk_callback (dev : mk2dev) (u : urb) : mk2dev * list event :=
  let endpoint := read_endp dev in
  let '(endpoint, logged) :=
    if urb_status u =? 0 then
      (set_buffer endpoint (set_filled (buffer endpoint) (urb_actual_length u)), [])
    else
      (set_read_errors endpoint (urb_status u),
       if negb (unlink_status (urb_status u)) then [Dev_err] else []) in
  (set_read_endp dev (set_requested_read endpoint false), logged ++ [Wake_up]).

(** Completion of the read urb: the data is in the buffer, then the
    callback runs. *)
Definition complete_read (dev : mk2dev) (u : urb) : mk2dev * list event :=
  let endpoint := read_endp dev in
  mk2_read_bulk_callback
    (set_read_endp dev (set_buffer endpoint (dma_store (buffer endpoint) (urb_in_data u)))) u.

(** [submit_result] is the value of [usb_submit_urb]; [count] is only
    printed. *)
Definition mk2_request_read (dev : mk2dev) (submit_result : Z) (count : Z)
  : Z * mk2dev * list event :=
  let endpoint := read_endp dev in
  let endpoint := set_requested_read endpoint true in
  let endpoint := set_buffer endpoint (set_filled (buffer endpoint) 0) in
  let endpoint := set_buffer endpoint (set_copied (buffer endpoint) 0) in
  let trace := [Usb_submit_read_urb (requested_read endpoint)
                                    (filled (buffer endpoint))
                                    (copied (buffer endpoint))] in
  let retval := submit_result in
  if retval <? 0 then
    let retval := if retval =? - ENOMEM then retval else - EIO in
    let endpoint := set_requested_read endpoint false in
    (retval, set_read_endp dev endpoint, trace ++ [Dev_err])
  else (retval, set_read_endp dev endpoint, trace).

(** What happens while one pass of the [retry:] loop of [mk2_read] runs:
    the outstanding urb may complete before [requested_read] is sampled
    ([raced]); a sleeping caller is woken by a signal or by the completion;
    [submit_read_result] is the value of the [usb_submit_urb] of this
    pass. *)
Inductive wait_outcome :=
| Wait_signal
| Wait_completed (u : urb).

Record retry_env := {
  raced : option urb;
  wait_result : wait_outcome;
  submit_read_result : Z;
}.

Record read_env := {
  lock_result : Z;
  rounds : list retry_env;
}.

(** Result of a read call: how it ended, the device, the bytes stored at
    the caller's pointer, the kernel calls made. *)
Definition read_outcome : Type := call_result * mk2dev * list byte * list event.

(** One pass of the [retry:] loop either ends the call or goes back to
    the label. *)
Inductive pass_result :=
| Pass_done (outcome : read_outcome)
| Pass_retry (dev : mk2dev) (trace : list event).

(** The asynchronous completion that arrives before the flag is sampled. *)
Definition early_completion (r : retry_env) (dev : mk2dev) (trace : list event)
  : mk2dev * list event :=
  match raced r with
  | Some u =>
      if requested_read (read_endp dev) then
        let '(dev', evs) := complete_read dev u in (dev', trace ++ evs)
      else (dev, trace)
  | None => (dev, trace)
  end.

(** [if (requested_read) { ... }]: a non-blocking caller gets [-EAGAIN],
    a blocking one sleeps until the completion or a signal. *)
Definition wait_for_read (r : retry_env) (dev : mk2dev) (nonblock : bool)
    (trace : list event) : (mk2dev * list event) + Z :=
  if requested_read (read_endp dev) then
    if nonblock then inr (- EAGAIN)
    else
      match wait_result r with
      | Wait_signal => inr (- ERESTARTSYS)
      | Wait_completed u =>
          let '(dev', evs) := complete_read dev u in inl (dev', trace ++ evs)
      end
  else inl (dev, trace).

(** From the check of [endpoint->errors] to [exit:] or [goto retry]. *)
Definition serve_read (r : retry_env) (dev : mk2dev) (user_writable count : Z)
    (trace : list event) : pass_result :=
  let endpoint := read_endp dev in
  let retval := read_errors endpoint in
  if retval <? 0 then
    let endpoint := set_read_errors endpoint 0 in
    let retval := if retval =? - EPIPE then retval else - EIO in
    Pass_done (Ret retval, set_read_endp dev endpoint, [], trace)
  else
    let leftover := to_size_t (filled (buffer endpoint) - copied (buffer endpoint)) in
    if negb (leftover =? 0) then
      match parse_buffered_data (buffer endpoint) user_writable count with
      | Returned retval rb out _ =>
          let dev := set_read_endp dev (set_buffer endpoint rb) in
          if to_size_t retval <? count then
            let '(_, dev, evs) :=
              mk2_request_read dev (submit_read_result r)
                (compute_stuffed_size (to_size_t (count - retval))) in
            Pass_done (Ret retval, dev, out, trace ++ evs)
          else Pass_done (Ret retval, dev, out, trace)
      | _ => Pass_done (Crash, dev, [], trace)
      end
    else
      let '(retval, dev, evs) := mk2_request_read dev (submit_read_result r) count in
      if retval <? 0 then Pass_done (Ret retval, dev, [], trace ++ evs)
      else Pass_retry dev (trace ++ evs).

Definition mk2_read_pass (r : retry_env) (dev : mk2dev) (nonblock : bool)
    (user_writable count : Z) (trace : list event) : pass_result :=
  let '(dev, trace) := early_completion r dev trace in
  match wait_for_read r dev nonblock trace with
  | inr err => Pass_done (Ret err, dev, [], trace)
  | inl (dev, trace) => serve_read r dev user_writable count trace
  end.

(** The code from the label [retry:] to the end of [mk2_read]; one element
    of [rounds] per pass, [Pending] when the environment has no more to
    say while the call is still under way. *)
Fixpoint mk2_read_retry (rounds : list retry_env) (dev : mk2dev) (nonblock : bool)
    (user_writable count : Z) (trace : list event) : read_outcome :=
  match rounds with
  | [] => (Pending, dev, [], trace)
  | r :: rounds' =>
      match mk2_read_pass r dev nonblock user_writable count trace with
      | Pass_done outcome => outcome
      | Pass_retry dev' trace' =>
          mk2_read_retry rounds' dev' nonblock user_writable count trace'
      end
  end.

(** [count] is the caller's [size_t] capacity, [user_writable] the number
    of writable bytes at the caller's pointer. *)
Definition mk2_read (dev : mk2dev) (nonblock : bool) (env : read_env)
    (user_writable count : Z) : read_outcome :=
  if count <? MK2_SYSEX_PACKET_SIZE then (Ret (- EINVAL), dev, [], [])
  else
    let retval := lock_result env in
    if retval <? 0 then (Ret retval, dev, [], [])
    else if disconnected dev then (Ret (- ENODEV), dev, [], [])
    else mk2_read_retry (rounds env) dev nonblock user_writable count [].

(** ** Device lifecycle *)

(** [mk2_disconnect] sets the flag under both mutexes and then cancels the
    outstanding transfers; their completions arrive through the
    callbacks. *)
Definition mk2_disconnect (dev : mk2dev) : mk2dev * list event :=
  ({| read_endp := read_endp dev; write_endp := write_endp dev; disconnected := true |},
   [Usb_kill_urb; Usb_kill_anchored_urbs]).

(** The packets the loop writes for [blocks], a whole number of
    three-byte groups. *)
Fixpoint more_data (blocks : list byte) : list byte :=
  match blocks with
  | b0 :: b1 :: b2 :: rest => MK2_SYSEX_MOREDATA :: b0 :: b1 :: b2 :: more_data rest
  | _ => []
  end.

(** ** Invariants and auxiliary notions *)

Definition INT_MAX : Z := 2 ^ 31 - 1.

(** The invariant of the read buffer, [0 <= copied <= filled <= size],
    for a buffer whose [data] has [size] bytes; the size (the endpoint's
    maximum packet size, an [int]) fits the 32-bit index of the decoder. *)
Definition read_buffer_wf (rb : mk2_read_buffer) : Prop :=
  0 <= copied rb <= filled rb
  /\ filled rb <= size rb
  /\ size rb = Z.of_nat (length (data rb))
  /\ size rb <= INT_MAX.

(** [in_filled rb i]: index [i] lies in the filled part of the buffer. *)
Definition in_filled (rb : mk2_read_buffer) (i : Z) : Prop := 0 <= i < filled rb.

(** [reaches rb w l st st']: the decoding loop, entered in state [st],
    is at the top of an iteration in state [st'] after consuming some
    packets. *)
Inductive reaches (rb : mk2_read_buffer) (user_writable leftover : Z)
  : parse_state -> parse_state -> Prop :=
| reaches_here (st : parse_state) : reaches rb user_writable leftover st st
| reaches_next (st st' st'' : parse_state) :
    reaches rb user_writable leftover st st' ->
    rb_index st' < leftover ->
    parse_step rb user_writable leftover st' = Continue st'' ->
    reaches rb user_writable leftover st st''.

(** What the loop maintains: [k] packets consumed, [rb_index = 4 k] within
    [leftover], the capacity accounted for, and every read inside the
    filled part. *)
Definition parse_inv (rb : mk2_read_buffer) (leftover cap : Z) (st : parse_state) : Prop :=
  exists k : nat,
    rb_index st = 4 * Z.of_nat k
    /\ rb_index st <= leftover
    /\ 0 <= retval st <= 3 * Z.of_nat k
    /\ 0 <= rem_size st
    /\ retval st + rem_size st = cap
    /\ Z.of_nat (length (user_out st)) = retval st
    /\ Forall (in_filled rb) (reads st).

(** [same_filled rb1 rb2]: the two buffers agree on everything but the
    bytes of [data] outside the filled part. *)
Definition same_filled (rb1 rb2 : mk2_read_buffer) : Prop :=
  size rb1 = size rb2
  /\ filled rb1 = filled rb2
  /\ copied rb1 = copied rb2
  /\ length (data rb1) = length (data rb2)
  /\ forall i : Z, 0 <= i < filled rb1 -> load (data rb1) i = load (data rb2) i.

Definition same_visible (d1 d2 : mk2dev) : Prop :=
  write_endp d1 = write_endp d2
  /\ disconnected d1 = disconnected d2
  /\ read_errors (read_endp d1) = read_errors (read_endp d2)
  /\ requested_read (read_endp d1) = requested_read (read_endp d2)
  /\ same_filled (buffer (read_endp d1)) (buffer (read_endp d2)).

(** The read channel between calls: the buffer is well formed, and while a
    transfer is outstanding the buffer is empty. *)
Definition read_endp_ok (ep : mk2_read_endp) : Prop :=
  read_buffer_wf (buffer ep)
  /\ (requested_read ep = true -> filled (buffer ep) = 0 /\ copied (buffer ep) = 0).

(** A completed inbound transfer into a buffer of [sz] bytes:
    [actual_length] bytes have been stored. *)
Definition urb_ok (sz : Z) (u : urb) : Prop :=
  urb_actual_length u = Z.of_nat (length (urb_in_data u))
  /\ urb_actual_length u <= sz.

Definition round_ok (sz : Z) (r : retry_env) : Prop :=
  (forall u : urb, raced r = Some u -> urb_ok sz u)
  /\ (forall u : urb, wait_result r = Wait_completed u -> urb_ok sz u).

(** What can happen to a device: calls of its users, completions of its
    transfers, removal. *)
Inductive op :=
| Op_read (nonblock : bool) (env : read_env) (user_writable count : Z)
| Op_read_complete (u : urb)
| Op_write (nonblock : bool) (env : write_env) (user : list byte) (count : Z)
| Op_write_complete (u : urb)
| Op_disconnect.

Definition op_ok (sz : Z) (o : op) : Prop :=
  match o with
  | Op_read _ env _ _ => Forall (round_ok sz) (rounds env)
  | Op_read_complete u => urb_ok sz u
  | _ => True
  end.

(** What the outside sees of one [op]: the value a call returns, the bytes
    a read call stores for its caller, the kernel calls made. *)
Definition observation : Type := option call_result * list byte * list event.

Definition step (o : op) (dev : mk2dev) : mk2dev * observation :=
  match o with
  | Op_read nonblock env user_writable count =>
      let '(res, dev', out, trace) := mk2_read dev nonblock env user_writable count in
      (dev', (Some res, out, trace))
  | Op_read_complete u =>
      if requested_read (read_endp dev) then
        let '(dev', trace) := complete_read dev u in (dev', (None, [], trace))
      else (dev, (None, [], []))
  | Op_write nonblock env user count =>
      let '(res, dev', trace) := mk2_write dev nonblock env user count in
      (dev', (Some res, [], trace))
  | Op_write_complete u =>
      let '(dev', trace) := mk2_write_bulk_callback dev u in (dev', (None, [], trace))
  | Op_disconnect =>
      let '(dev', trace) := mk2_disconnect dev in (dev', (None, [], trace))
  end.

Fixpoint run (ops : list op) (dev : mk2dev) : list observation :=
  match ops with
  | [] => []
  | o :: ops' => let '(dev', obs) := step o dev in obs :: run ops' dev'
  end.

(** Two read calls ended alike: same value, same bytes for the caller, same
    kernel calls, and devices that again differ at most outside the
    filled part of a well-formed buffer of [sz] bytes. *)
Definition agree_outcome (sz : Z) (r1 r2 : read_outcome) : Prop :=
  fst (fst (fst r1)) = fst (fst (fst r2))
  /\ snd (fst r1) = snd (fst r2)
  /\ snd r1 = snd r2
  /\ same_visible (snd (fst (fst r1))) (snd (fst (fst r2)))
  /\ read_endp_ok (read_endp (snd (fst (fst r1))))
  /\ size (buffer (read_endp (snd (fst (fst r1))))) = sz.

Definition agree_pass (sz : Z) (p1 p2 : pass_result) : Prop :=
  match p1, p2 with
  | Pass_done o1, Pass_done o2 => agree_outcome sz o1 o2
  | Pass_retry d1 t1, Pass_retry d2 t2 =>
      t1 = t2 /\ same_visible d1 d2 /\ read_endp_ok (read_endp d1)
      /\ size (buffer (read_endp d1)) = sz
  | _, _ => False
  end.

(** ** Buffers of three-byte packets *)

(** The first [n] packets of [data] carry a status of width 3 ([MOREDATA],
    [BUTTON] or [SBUTTON]). *)
Definition width3_packets (data : list byte) (n : nat) : Prop :=
  forall i : nat, (i < n)%nat ->
    exists status : byte, data !! (4 * i)%nat = Some status
                          /\ batch_size_of status = Some 3.

(** The payload bytes of the packets [first], ..., [first + count - 1]. *)
Fixpoint payloads (data : list byte) (first count : nat) : list byte :=
  match count with
  | O => []
  | S count' => take 3 (drop (4 * first + 1) data) ++ payloads data (S first) count'
  end.

(** ** Sample devices and environments *)

(** A device that has received the frame of the payload [61 62 63 64],
    [04 61 62 63 | 05 64 00 00], and delivered nothing yet. *)
Definition frame4_dev : mk2dev :=
  {| read_endp :=
       {| buffer := {| data := [Byte.x04; Byte.x61; Byte.x62; Byte.x63;
                                Byte.x05; Byte.x64; Byte.x00; Byte.x00];
                       size := 8; filled := 8; copied := 0 |};
          read_errors := 0;
          requested_read := false |};
     write_endp := {| submitted := []; limit_sem := WRITES_IN_FLIGHT; write_errors := 0 |};
     disconnected := false |}.

Definition quiet_round : retry_env :=
  {| raced := None; wait_result := Wait_signal; submit_read_result := 0 |}.

Definition quiet_read_env : read_env := {| lock_result := 0; rounds := [quiet_round] |}.

Definition idle_dev : mk2dev :=
  {| read_endp :=
       {| buffer := {| data := repeat Byte.x00 64; size := 64; filled := 0; copied := 0 |};
          read_errors := 0;
          requested_read := false |};
     write_endp := {| submitted := []; limit_sem := WRITES_IN_FLIGHT; write_errors := 0 |};
     disconnected := false |}.

(** An environment in which nothing fails. *)
Definition willing_env : write_env :=
  {| signal_pending := false; alloc_urb_ok := true; alloc_coherent_ok := true;
     access_ok := true; memdup_alloc_ok := true; submit_write_result := 0 |}.

Definition gone_dev : mk2dev := fst (mk2_disconnect idle_dev).

Definition quiet_write_read_env : read_env := {| lock_result := 0; rounds := [] |}.

(** A device that has received the frame of the payload
    [61 62 63 64 65 66 67] and delivered nothing yet. *)
Definition frame7_dev : mk2dev :=
  {| read_endp :=
       {| buffer := {| data := [Byte.x04; Byte.x61; Byte.x62; Byte.x63;
                                Byte.x04; Byte.x64; Byte.x65; Byte.x66;
                                Byte.x05; Byte.x67; Byte.x00; Byte.x00];
                       size := 12; filled := 12; copied := 0 |};
          read_errors := 0;
          requested_read := false |};
     write_endp := {| submitted := []; limit_sem := WRITES_IN_FLIGHT; write_errors := 0 |};
     disconnected := false |}.

(** A device whose read buffer holds three button events,
    [09 10 7f 00 | 09 11 7f 00 | 09 12 00 00], none delivered yet. *)
Definition buttons_dev : mk2dev :=
  {| read_endp :=
       {| buffer := {| data := [Byte.x09; Byte.x10; Byte.x7f; Byte.x00;
                                Byte.x09; Byte.x11; Byte.x7f; Byte.x00;
                                Byte.x09; Byte.x12; Byte.x00; Byte.x00];
                       size := 12; filled := 4 * Z.of_nat 3; copied := 4 * Z.of_nat 0 |};
          read_errors := 0;
          requested_read := false |};
     write_endp := {| submitted := []; limit_sem := WRITES_IN_FLIGHT; write_errors := 0 |};
     disconnected := false |}.

(** ** Sequences of calls and completions on the write channel *)

(** Write calls one after the other with no completion in between, each
    passing the whole of its buffer: the values they return and the device
    they leave. *)
Fixpoint write_all (dev : mk2dev) (nonblock : bool) (env : write_env)
    (users : list (list byte)) : list call_result * mk2dev :=
  match users with
  | [] => ([], dev)
  | user :: rest =>
      let '(res, dev', _) := mk2_write dev nonblock env user (Z.of_nat (length user)) in
      let '(results, dev'') := write_all dev' nonblock env rest in
      (res :: results, dev'')
  end.

(** The completions of several write urbs, in the order of [us]. *)
Definition write_completions (dev : mk2dev) (us : list urb) : mk2dev :=
  fold_left (fun d u => fst (mk2_write_bulk_callback d u)) us dev.

(** The frame a write call makes of the caller's buffer. *)
Definition frame_of (user : list byte) : list byte :=
  encode (take (Z.to_nat USB_MK2_MAX_OUT_LEN) user).

(** ** The read urb in flight *)

(** Whether the read urb is in flight after the kernel calls [trace] of a
    read call, given whether it was before them; [None] when the urb is
    submitted while it is in flight.  A read call logs [Dev_err] for a
    refused submission and in the callback of a failed transfer, and
    [Wake_up] in the callback: after either of them nothing is in
    flight. *)
Fixpoint read_urb_in_flight (in_flight : bool) (trace : list event) : option bool :=
  match trace with
  | [] => Some in_flight
  | Usb_submit_read_urb _ _ _ :: rest =>
      if in_flight then None else read_urb_in_flight true rest
  | Dev_err :: rest => read_urb_in_flight false rest
  | Wake_up :: rest => read_urb_in_flight false rest
  | _ :: rest => read_urb_in_flight in_flight rest
  end.

(** The state in which a read urb is handed to the transport. *)
Definition submits_into_empty_buffer (e : event) : Prop :=
  match e with
  | Usb_submit_read_urb requested filled_now copied_now =>
      requested = true /\ filled_now = 0 /\ copied_now = 0
  | _ => True
  end.

(** The device after a sequence of operations. *)
Definition final (ops : list op) (dev : mk2dev) : mk2dev :=
  fold_left (fun d o => fst (step o d)) ops dev.

(** The completion of an inbound transfer that brought the frame of the
    payload [61 62 63 64], and a pass of the retry loop of [mk2_read]
    that sleeps until it arrives. *)
Definition frame4_urb : urb :=
  {| urb_status := 0; urb_actual_length := 8; urb_transfer_buffer_length := 64;
     urb_in_data := [Byte.x04; Byte.x61; Byte.x62; Byte.x63;
                     Byte.x05; Byte.x64; Byte.x00; Byte.x00] |}.

Definition frame4_round : retry_env :=
  {| raced := None; wait_result := Wait_completed frame4_urb; submit_read_result := 0 |}.

(** ** Binding to the interface, open files and the reference count *)

(** The device structure together with what the functions of the driver
    model keep about it outside [mk2dev]: [kref] is the count of
    [dev->kref]; [intfdata] tells whether the interface's driver data
    points at the structure; [registered] whether the minor is registered,
    so that [usb_find_interface] finds the interface; [pm_usage] counts the
    power-management references taken by [mk2_open]; [usb_refs] the
    references on the usb device and its interface taken by
    [usb_get_dev]/[usb_get_intf]; [freed] is set once [mk2_delete] has
    released the structure. *)
Record mk2_host := {
  host_dev : mk2dev;
  kref : Z;
  intfdata : bool;
  registered : bool;
  pm_usage : Z;
  usb_refs : Z;
  freed : bool;
}.

Definition set_host_dev (h : mk2_host) (dev : mk2dev) : mk2_host :=
  {| host_dev := dev; kref := kref h; intfdata := intfdata h; registered := registered h;
     pm_usage := pm_usage h; usb_refs := usb_refs h; freed := freed h |}.

Definition set_kref (h : mk2_host) (k : Z) : mk2_host :=
  {| host_dev := host_dev h; kref := k; intfdata := intfdata h; registered := registered h;
     pm_usage := pm_usage h; usb_refs := usb_refs h; freed := freed h |}.

Definition set_intfdata (h : mk2_host) (b : bool) : mk2_host :=
  {| host_dev := host_dev h; kref := kref h; intfdata := b; registered := registered h;
     pm_usage := pm_usage h; usb_refs := usb_refs h; freed := freed h |}.

Definition set_registered (h : mk2_host) (b : bool) : mk2_host :=
  {| host_dev := host_dev h; kref := kref h; intfdata := intfdata h; registered := b;
     pm_usage := pm_usage h; usb_refs := usb_refs h; freed := freed h |}.

Definition set_pm_usage (h : mk2_host) (n : Z) : mk2_host :=
  {| host_dev := host_dev h; kref := kref h; intfdata := intfdata h;
     registered := registered h; pm_usage := n; usb_refs := usb_refs h; freed := freed h |}.

(** [mk2_delete]: the read urb, the references on interface and device,
    the buffer and the structure are released. *)
Definition mk2_delete (h : mk2_host) : mk2_host :=
  {| host_dev := host_dev h; kref := kref h; intfdata := intfdata h;
     registered := registered h; pm_usage := pm_usage h;
     usb_refs := usb_refs h - 1; freed := true |}.

(** [kref_put(&dev->kref, mk2_delete)] *)
Definition kref_put (h : mk2_host) : mk2_host :=
  let k := kref h - 1 in
  if k =? 0 then mk2_delete (set_kref h k) else set_kref h k.

(** [mk2_read_buffer_alloc]: [mem] is what [kmalloc] returns, [None] for
    a null pointer; the second component is the value returned, as a
    truth value. *)
Definition mk2_read_buffer_alloc (size : Z) (mem : option (list byte))
  : mk2_read_buffer * bool :=
  match mem with
  | Some d => ({| data := d; size := size; filled := 0; copied := 0 |}, true)
  | None => ({| data := []; size := size; filled := 0; copied := 0 |}, false)
  end.

(** The functions below return [None] where the source would use the
    structure after [mk2_delete] has released it, or dereference a null
    pointer. *)

(** [mk2_open]; [autopm_result] is the value of
    [usb_autopm_get_interface]; the third component tells whether
    [file->private_data] has been set. *)
Definition mk2_open (h : mk2_host) (autopm_result : Z) : option (Z * mk2_host * bool) :=
  if negb (registered h) then Some (- ENODEV, h, false)
  else if negb (intfdata h) then Some (- ENODEV, h, false)
  else if negb (autopm_result =? 0) then Some (autopm_result, h, false)
  else if freed h then None
  else Some (0, set_kref (set_pm_usage h (pm_usage h + 1)) (kref h + 1), true).

(** [mk2_release]; [private_data] tells whether [file->private_data] is
    set. *)
Definition mk2_release (h : mk2_host) (private_data : bool) : option (Z * mk2_host) :=
  if negb private_data then Some (- ENODEV, h)
  else if freed h then None
  else Some (0, kref_put (set_pm_usage h (pm_usage h - 1))).

(** The whole of the source's [mk2_disconnect]: the interface is unbound
    and the minor deregistered, then the flag is set and the transfers are
    cancelled (the function [mk2_disconnect] above), then the reference of
    [mk2_probe] is dropped. *)
Definition mk2_disconnect_interface (h : mk2_host) : option mk2_host :=
  if negb (intfdata h) then None
  else if freed h then None
  else
    let h := set_registered (set_intfdata h false) false in
    let h := set_host_dev h (fst (mk2_disconnect (host_dev h))) in
    Some (kref_put h).

(** The answers of the kernel that [mk2_probe] depends on. *)
Record probe_env := {
  kzalloc_ok : bool;
  endpoints_result : Z;
  maxp : Z;
  kmalloc_data : option (list byte);
  read_urb_ok : bool;
  register_result : Z;
}.

(** The structure after [kzalloc], the initialisations and
    [usb_get_dev]/[usb_get_intf]. *)
Definition fresh_host : mk2_host :=
  {| host_dev :=
       {| read_endp := {| buffer := {| data := []; size := 0; filled := 0; copied := 0 |};
                          read_errors := 0;
                          requested_read := false |};
          write_endp := {| submitted := []; limit_sem := WRITES_IN_FLIGHT;
                           write_errors := 0 |};
          disconnected := false |};
     kref := 1; intfdata := false; registered := false; pm_usage := 0; usb_refs := 1;
     freed := false |}.

(** [mk2_probe]: the value returned, and the structure if one was
    allocated. *)
Definition mk2_probe (env : probe_env) : Z * option mk2_host :=
  if negb (kzalloc_ok env) then (- ENOMEM, None)
  else
    let h := fresh_host in
    let retval := endpoints_result env in
    if negb (retval =? 0) then (retval, Some (kref_put h))
    else
      let '(rb, allocated) :=
        mk2_read_buffer_alloc (to_size_t (maxp env)) (kmalloc_data env) in
      let h := set_host_dev h (set_read_endp (host_dev h)
                                 (set_buffer (read_endp (host_dev h)) rb)) in
      if negb allocated then (- ENOMEM, Some (kref_put h))
      else if negb (read_urb_ok env) then (- ENOMEM, Some (kref_put h))
      else
        let h := set_intfdata h true in
        let retval := register_result env in
        if negb (retval =? 0) then (retval, Some (kref_put (set_intfdata h false)))
        else (0, Some (set_registered h true)).

(** What can happen to a bound device: a file is opened or released, a
    call or a completion runs, the device is removed. *)
Inductive life_op :=
| L_open (autopm_result : Z)
| L_release
| L_call (o : op)
| L_disconnect.

(** The structure and the number of open files that point at it. *)
Definition life_state : Type := mk2_host * nat.

Definition life_step (o : life_op) (st : life_state) : option life_state :=
  let '(h, files) := st in
  match o with
  | L_open autopm_result =>
      match mk2_open h autopm_result with
      | Some (_, h', opened) => Some (h', if opened then S files else files)
      | None => None
      end
  | L_release =>
      match mk2_release h true with
      | Some (_, h') => Some (h', Nat.pred files)
      | None => None
      end
  | L_call o =>
      if freed h then None else Some (set_host_dev h (fst (step o (host_dev h))), files)
  | L_disconnect =>
      match mk2_disconnect_interface h with
      | Some h' => Some (h', files)
      | None => None
      end
  end.

Fixpoint life_run (ops : list life_op) (st : life_state) : option life_state :=
  match ops with
  | [] => Some st
  | o :: ops' =>
      match life_step o st with
      | Some st' => life_run ops' st'
      | None => None
      end
  end.

(** What the kernel guarantees about the order of these events: a file is
    released only if it is open; read and write calls come through an open
    file; a completion arrives only before the removal has cancelled the
    transfers; the removal is announced once, for a bound interface. *)
Definition life_ok (o : life_op) (st : life_state) : Prop :=
  let '(h, files) := st in
  match o with
  | L_open _ => True
  | L_release => (0 < files)%nat
  | L_call (Op_read _ _ _ _) | L_call (Op_write _ _ _ _) => (0 < files)%nat
  | L_call (Op_read_complete _) | L_call (Op_write_complete _) => intfdata h = true
  | L_call Op_disconnect => False
  | L_disconnect => intfdata h = true
  end.

Fixpoint life_valid (ops : list life_op) (st : life_state) : Prop :=
  match ops with
  | [] => True
  | o :: ops' =>
      life_ok o st
      /\ match life_step o st with
         | Some st' => life_valid ops' st'
         | None => True
         end
  end.

(** The reference count accounts for the open files and for the binding
    to the interface, and the structure is released exactly when the
    count is 0. *)
Definition host_inv (st : life_state) : Prop :=
  let '(h, files) := st in
  registered h = intfdata h
  /\ intfdata h = negb (disconnected (host_dev h))
  /\ pm_usage h = Z.of_nat files
  /\ kref h = Z.of_nat files + (if intfdata h then 1 else 0)
  /\ freed h = (kref h =? 0)
  /\ usb_refs h = (if freed h then 0 else 1).

(** An environment in which [mk2_probe] succeeds, with a bulk-in endpoint
    of 64 bytes. *)
Definition plugged_env : probe_env :=
  {| kzalloc_ok := true; endpoints_result := 0; maxp := 64;
     kmalloc_data := Some (repeat Byte.x00 64); read_urb_ok := true;
     register_result := 0 |}.

(** * Properties *)

(** ** Integer conversions *)

Lemma size_t_modulus_eq : size_t_modulus = 18446744073709551616.
Proof. reflexivity. Qed.

Lemma uint_modulus_eq : uint_modulus = 4294967296.
Proof. reflexivity. Qed.

(** Replace the moduli by their numerals, for [lia]. *)
Ltac moduli :=
  rewrite ?size_t_modulus_eq, ?uint_modulus_eq in *;
  change (2 ^ 31) with 2147483648 in *.

Lemma to_size_t_small (x : Z) : 0 <= x < size_t_modulus -> to_size_t x = x.
Proof. intros H. unfold to_size_t. now apply Z.mod_small. Qed.

Lemma to_uint_small (x : Z) : 0 <= x < uint_modulus -> to_uint x = x.
Proof. intros H. unfold to_uint. now apply Z.mod_small. Qed.

Lemma to_int_small (x : Z) : - 2 ^ 31 <= x < 2 ^ 31 -> to_int x = x.
Proof.
  intros H. unfold to_int. moduli.
  rewrite Z.mod_small; lia.
Qed.

(** ** Loads and stores *)

Lemma load_split (pre mid : list byte) (x : byte) (post : list byte) (i : Z) :
  i = Z.of_nat (length pre) + Z.of_nat (length mid) ->
  i < size_t_modulus ->
  load (pre ++ mid ++ x :: post) (to_size_t i) = Some x.
Proof.
  intros -> Hlt. rewrite to_size_t_small by lia.
  unfold load. rewrite decide_True by lia.
  rewrite app_assoc. apply list_lookup_middle.
  rewrite length_app. lia.
Qed.

Lemma store_split (pre mid : list byte) (x : byte) (post : list byte) (v : byte) (i : Z) :
  i = Z.of_nat (length pre) + Z.of_nat (length mid) ->
  i < size_t_modulus ->
  store (pre ++ mid ++ x :: post) (to_size_t i) v = Some (pre ++ mid ++ v :: post).
Proof.
  intros -> Hlt. rewrite to_size_t_small by lia.
  unfold store. rewrite decide_True.
  - f_equal. rewrite !app_assoc.
    replace (Z.to_nat (Z.of_nat (length pre) + Z.of_nat (length mid)))
      with (length (pre ++ mid) + 0)%nat by (rewrite length_app; lia).
    now rewrite insert_app_r.
  - rewrite !length_app. simpl. lia.
Qed.

(** Evaluate the next access of the goal, which hits the element after
    [pre ++ mid]. *)
Ltac store_step pre mid :=
  match goal with
  | |- context [store ?l (to_size_t ?i) ?v] =>
      let H := fresh "Hst" in
      eassert (H : store l (to_size_t i) v = _)
        by (apply (store_split pre mid); simpl; lia);
      rewrite H; clear H; cbn [mbind option_bind app]
  end.

Ltac load_step pre mid :=
  match goal with
  | |- context [load ?l (to_size_t ?i)] =>
      let H := fresh "Hld" in
      eassert (H : load l (to_size_t i) = _)
        by (apply (load_split pre mid); simpl; lia);
      rewrite H; clear H; cbn [mbind option_bind app]
  end.

(** ** The stuffing loop *)

Lemma length_more_data (n : nat) (blocks : list byte) :
  length blocks = (3 * n)%nat -> length (more_data blocks) = (4 * n)%nat.
Proof.
  revert blocks. induction n as [|n IH]; intros blocks Hlen.
  - destruct blocks; [reflexivity | discriminate].
  - destruct blocks as [|b0 [|b1 [|b2 rest]]]; simpl in Hlen; try lia.
    simpl. rewrite (IH rest) by lia. lia.
Qed.

Lemma stuff_loop_spec (n : nat) :
  forall (upre blocks utail done rest : list byte),
    length blocks = (3 * n)%nat ->
    (4 * n <= length rest)%nat ->
    Z.of_nat (length done) + 4 * Z.of_nat n < size_t_modulus ->
    Z.of_nat (length upre) + 3 * Z.of_nat n < size_t_modulus ->
    stuff_loop n (upre ++ blocks ++ utail) (done ++ rest)
               (Z.of_nat (length done)) (Z.of_nat (length upre))
    = Some (done ++ more_data blocks ++ drop (4 * n) rest,
            Z.of_nat (length done) + 4 * Z.of_nat n,
            Z.of_nat (length upre) + 3 * Z.of_nat n).
Proof.
  induction n as [|n IH]; intros upre blocks utail done rest Hb Hr Ho Hi.
  - destruct blocks; [|discriminate]. simpl.
    rewrite drop_0, !Z.add_0_r. reflexivity.
  - destruct blocks as [|b0 [|b1 [|b2 blocks]]]; simpl in Hb; try lia.
    destruct rest as [|r0 [|r1 [|r2 [|r3 rest]]]]; simpl in Hr; try lia.
    cbn [stuff_loop].
    store_step done (@nil byte). load_step upre (@nil byte).
    store_step done [MK2_SYSEX_MOREDATA]. load_step upre [b0].
    store_step done [MK2_SYSEX_MOREDATA; b0]. load_step upre [b0; b1].
    store_step done [MK2_SYSEX_MOREDATA; b0; b1].
    rewrite !to_size_t_small by lia.
    specialize (IH (upre ++ [b0; b1; b2]) blocks utail
                   (done ++ [MK2_SYSEX_MOREDATA; b0; b1; b2]) rest).
    rewrite !length_app in IH. simpl length in IH.
    rewrite <- !app_assoc in IH. simpl app in IH.
    replace (Z.of_nat (length done) + 4) with (Z.of_nat (length done + 4)) by lia.
    replace (Z.of_nat (length upre) + 3) with (Z.of_nat (length upre + 3)) by lia.
    rewrite IH by lia.
    replace (4 * S n)%nat with (S (S (S (S (4 * n))))) by lia.
    replace (Z.of_nat (length done + 4) + 4 * Z.of_nat n)
      with (Z.of_nat (length done) + 4 * Z.of_nat (S n)) by lia.
    replace (Z.of_nat (length upre + 3) + 3 * Z.of_nat n)
      with (Z.of_nat (length upre) + 3 * Z.of_nat (S n)) by lia.
    reflexivity.
Qed.

Lemma more_data_app (n : nat) :
  forall (blocks tail : list byte),
    length blocks = (3 * n)%nat ->
    more_data (blocks ++ tail) = more_data blocks ++ more_data tail.
Proof.
  induction n as [|n IH]; intros blocks tail Hb.
  - destruct blocks; [reflexivity | discriminate].
  - destruct blocks as [|b0 [|b1 [|b2 blocks]]]; simpl in Hb; try lia.
    simpl. rewrite (IH blocks tail) by lia. reflexivity.
Qed.

Lemma encode_more_data (n : nat) :
  forall (blocks tail : list byte),
    length blocks = (3 * n)%nat ->
    tail <> [] ->
    encode (blocks ++ tail) = more_data blocks ++ encode tail.
Proof.
  induction n as [|n IH]; intros blocks tail Hb Ht.
  - destruct blocks; [reflexivity | discriminate].
  - destruct blocks as [|b0 [|b1 [|b2 blocks]]]; simpl in Hb; try lia.
    assert (Hne : blocks ++ tail <> []).
    { intros E. apply app_eq_nil in E. tauto. }
    simpl app. simpl more_data.
    rewrite <- (IH blocks tail) by (assumption || lia).
    destruct (blocks ++ tail); [contradiction | reflexivity].
Qed.

(** Division by the packet sizes, on lengths split into whole groups and
    a remainder. *)
Lemma div3 (n r : Z) : 0 <= n -> 0 <= r < 3 -> (3 * n + r) / 3 = n /\ (3 * n + r) mod 3 = r.
Proof. intros Hn Hr. Z.div_mod_to_equations. lia. Qed.

Lemma compute_stuffed_size_exact (L : Z) :
  0 <= L ->
  4 * ((L + 2) / 3) < size_t_modulus ->
  compute_stuffed_size L = (L + 2) / 3 * 4.
Proof.
  intros HL Hfit. unfold compute_stuffed_size.
  unfold MK2_SYSEX_SIZE_ROUND_UP, MK2_SYSEX_PACKET_SIZE, MK2_STUFFED_PACKET_SIZE.
  assert (0 <= (L + 2) / 3 <= L + 2) by (Z.div_mod_to_equations; lia).
  assert (L + 2 < size_t_modulus).
  { moduli. Z.div_mod_to_equations. lia. }
  rewrite (to_size_t_small (L + 2)) by lia.
  rewrite to_size_t_small by lia. reflexivity.
Qed.

(** The buffer [stuff_buffer] leaves behind, for a payload made of [n]
    whole groups and a tail of at most two bytes.  The buffer has exactly
    the number of bytes [mk2_write] allocates and its initial contents
    are arbitrary. *)
Lemma stuff_buffer_groups (n : nat) (blocks tail buf : list byte) :
  length blocks = (3 * n)%nat ->
  (length tail < 3)%nat ->
  blocks ++ tail <> [] ->
  length buf = (4 * (n + (if decide (tail = []) then 0 else 1)))%nat ->
  Z.of_nat (length buf) < size_t_modulus ->
  stuff_buffer buf (Z.of_nat (length buf)) (blocks ++ tail)
               (Z.of_nat (length (blocks ++ tail)))
  = Some (encode (blocks ++ tail)).
Proof.
  intros Hb Ht Hne Hbuf Hfit.
  assert (Hlen : Z.of_nat (length (blocks ++ tail))
                 = 3 * Z.of_nat n + Z.of_nat (length tail)).
  { rewrite length_app. lia. }
  destruct (div3 (Z.of_nat n) (Z.of_nat (length tail))) as [Hdiv Hmod]; [lia | lia |].
  unfold stuff_buffer. rewrite Hlen, Hdiv, Hmod, Nat2Z.id.
  pose proof (stuff_loop_spec n [] blocks tail [] buf Hb) as Hloop.
  simpl app in Hloop. simpl length in Hloop. change (Z.of_nat 0) with 0 in Hloop.
  rewrite Hloop by lia. clear Hloop.
  cbn [mbind option_bind]. rewrite !Z.add_0_l.
  destruct tail as [|t0 [|t1 [|t2 tail]]]; simpl in Ht; try lia.
  - (* no remainder: the last packet is re-labelled *)
    rewrite decide_True in Hbuf by reflexivity.
    rewrite app_nil_r in *.
    destruct n as [|n]; [destruct blocks; [contradiction | discriminate]|].
    rewrite drop_ge by lia. rewrite app_nil_r.
    assert (Hsplit : exists pre b0 b1 b2,
               blocks = pre ++ [b0; b1; b2] /\ length pre = (3 * n)%nat).
    { exists (take (3 * n) blocks).
      assert (Hl3 : length (drop (3 * n) blocks) = 3%nat) by (rewrite length_drop; lia).
      pose proof (take_drop (3 * n) blocks) as Htd.
      destruct (drop (3 * n) blocks) as [|b0 [|b1 [|b2 [|]]]]; try discriminate.
      exists b0, b1, b2. split; [now symmetry|]. rewrite length_take. lia. }
    destruct Hsplit as (pre & b0 & b1 & b2 & -> & Hpre).
    change (Z.of_nat (length (@nil byte))) with 0. cbv iota.
    rewrite (more_data_app n) by assumption. simpl more_data.
    assert (Hm : Z.of_nat (length (more_data pre)) = 4 * Z.of_nat n)
      by (rewrite (length_more_data n) by assumption; lia).
    store_step (more_data pre) (@nil byte).
    assert (Hd : hex_dump (more_data pre ++ [MK2_SYSEX_DATAEND3; b0; b1; b2])
                          (Z.of_nat (length buf)) = Some tt).
    { unfold hex_dump. rewrite decide_True; [reflexivity|].
      rewrite length_app. simpl. lia. }
    rewrite Hd. cbn [mbind option_bind].
    rewrite (encode_more_data n) by (assumption || discriminate). reflexivity.
  - (* one byte remains *)
    rewrite decide_False in Hbuf by discriminate.
    lazymatch goal with
    | |- context [drop ?k buf] =>
        assert (Hl4 : length (drop k buf) = 4%nat) by (rewrite length_drop; lia);
        destruct (drop k buf) as [|r0 [|r1 [|r2 [|r3 [|]]]]]; try discriminate
    end.
    cbn [length]. change (Z.of_nat 1) with 1. change (Z.of_nat 2) with 2. cbv iota.
    assert (Hm : Z.of_nat (length (more_data blocks)) = 4 * Z.of_nat n)
      by (rewrite (length_more_data n) by assumption; lia).
    store_step (more_data blocks) (@nil byte).
    load_step blocks (@nil byte).
    store_step (more_data blocks) [MK2_SYSEX_DATAEND1].
    store_step (more_data blocks) [MK2_SYSEX_DATAEND1; t0].
    store_step (more_data blocks) [MK2_SYSEX_DATAEND1; t0; Byte.x00].
    assert (Hd : hex_dump (more_data blocks ++ [MK2_SYSEX_DATAEND1; t0; Byte.x00; Byte.x00])
                          (Z.of_nat (length buf)) = Some tt).
    { unfold hex_dump. rewrite decide_True; [reflexivity|].
      rewrite length_app. simpl. lia. }
    rewrite Hd. cbn [mbind option_bind].
    rewrite (encode_more_data n) by (assumption || discriminate). reflexivity.
  - (* two bytes remain *)
    rewrite decide_False in Hbuf by discriminate.
    lazymatch goal with
    | |- context [drop ?k buf] =>
        assert (Hl4 : length (drop k buf) = 4%nat) by (rewrite length_drop; lia);
        destruct (drop k buf) as [|r0 [|r1 [|r2 [|r3 [|]]]]]; try discriminate
    end.
    cbn [length]. change (Z.of_nat 1) with 1. change (Z.of_nat 2) with 2. cbv iota.
    assert (Hm : Z.of_nat (length (more_data blocks)) = 4 * Z.of_nat n)
      by (rewrite (length_more_data n) by assumption; lia).
    store_step (more_data blocks) (@nil byte).
    load_step blocks (@nil byte).
    store_step (more_data blocks) [MK2_SYSEX_DATAEND2].
    load_step blocks [t0].
    store_step (more_data blocks) [MK2_SYSEX_DATAEND2; t0].
    store_step (more_data blocks) [MK2_SYSEX_DATAEND2; t0; t1].
    assert (Hd : hex_dump (more_data blocks ++ [MK2_SYSEX_DATAEND2; t0; t1; Byte.x00])
                          (Z.of_nat (length buf)) = Some tt).
    { unfold hex_dump. rewrite decide_True; [reflexivity|].
      rewrite length_app. simpl. lia. }
    rewrite Hd. cbn [mbind option_bind].
    rewrite (encode_more_data n) by (assumption || discriminate). reflexivity.
Qed.

(** A payload splits into whole groups of three bytes and a tail of at
    most two bytes. *)
Lemma payload_groups (payload : list byte) :
  exists (n : nat) (blocks tail : list byte),
    payload = blocks ++ tail /\ length blocks = (3 * n)%nat /\ (length tail < 3)%nat.
Proof.
  exists (length payload / 3)%nat,
         (take (3 * (length payload / 3)) payload),
         (drop (3 * (length payload / 3)) payload).
  pose proof (Nat.div_mod_eq (length payload) 3) as Hdm.
  pose proof (Nat.mod_upper_bound (length payload) 3) as Hub.
  split; [now rewrite take_drop|].
  rewrite length_take, length_drop. lia.
Qed.

Lemma encode_cons3 (b0 b1 b2 : byte) (rest : list byte) :
  rest <> [] ->
  encode (b0 :: b1 :: b2 :: rest) = MK2_SYSEX_MOREDATA :: b0 :: b1 :: b2 :: encode rest.
Proof. destruct rest; [contradiction | reflexivity]. Qed.

Lemma length_encode_groups (n : nat) (blocks tail : list byte) :
  length blocks = (3 * n)%nat ->
  (length tail < 3)%nat ->
  length (encode (blocks ++ tail))
  = (4 * (n + (if decide (tail = []) then 0 else 1)))%nat.
Proof.
  revert blocks. induction n as [|n IH]; intros blocks Hb Ht.
  - destruct blocks; [|discriminate].
    destruct tail as [|t0 [|t1 [|t2 tail]]]; simpl in Ht; try lia; reflexivity.
  - destruct blocks as [|b0 [|b1 [|b2 blocks]]]; simpl in Hb; try lia.
    specialize (IH blocks ltac:(lia) Ht).
    simpl app. destruct (blocks ++ tail) as [|x rest] eqn:E.
    + apply app_eq_nil in E as [-> ->]. destruct n; [reflexivity | simpl in Hb; lia].
    + rewrite encode_cons3 by discriminate. cbn [length]. rewrite IH. lia.
Qed.

Lemma PTRDIFF_MAX_eq : PTRDIFF_MAX = 9223372036854775807.
Proof. reflexivity. Qed.

(** [stuff_buffer] fills the buffer [mk2_write] allocates for it with
    exactly the frame [encode] describes, whatever the buffer held
    before. *)
Lemma stuff_buffer_encode (payload buf : list byte) :
  payload <> [] ->
  Z.of_nat (length payload) <= PTRDIFF_MAX ->
  Z.of_nat (length buf) = compute_stuffed_size (Z.of_nat (length payload)) ->
  stuff_buffer buf (compute_stuffed_size (Z.of_nat (length payload))) payload
               (Z.of_nat (length payload))
  = Some (encode payload).
Proof.
  intros Hne Hmax Hbuf.
  assert (Hc : compute_stuffed_size (Z.of_nat (length payload))
               = (Z.of_nat (length payload) + 2) / 3 * 4).
  { apply compute_stuffed_size_exact; [lia|].
    rewrite PTRDIFF_MAX_eq in Hmax. moduli. Z.div_mod_to_equations. lia. }
  rewrite Hc in Hbuf |- *. clear Hc.
  destruct (payload_groups payload) as (n & blocks & tail & -> & Hb & Ht).
  rewrite <- Hbuf.
  apply (stuff_buffer_groups n); try assumption.
  - rewrite length_app in Hbuf.
    destruct tail as [|t0 [|t1 [|t2 tail]]]; simpl in Ht; try lia;
      [rewrite decide_True by reflexivity | rewrite decide_False by discriminate ..];
      simpl length in Hbuf; Z.div_mod_to_equations; lia.
  - rewrite Hbuf. rewrite PTRDIFF_MAX_eq in Hmax. moduli. Z.div_mod_to_equations. lia.
Qed.

Lemma length_encode (payload : list byte) :
  Z.of_nat (length (encode payload)) = (Z.of_nat (length payload) + 2) / 3 * 4.
Proof.
  destruct (payload_groups payload) as (n & blocks & tail & -> & Hb & Ht).
  rewrite (length_encode_groups n) by assumption.
  rewrite length_app.
  destruct tail as [|t0 [|t1 [|t2 tail]]]; simpl in Ht; try lia;
    [rewrite decide_True by reflexivity | rewrite decide_False by discriminate ..];
    simpl length; Z.div_mod_to_equations; lia.
Qed.

(** The packets of the frame of a payload of [S k] whole groups. *)
Lemma encode_packets (k : nat) :
  forall (payload : list byte) (i : nat),
    length payload = (3 * S k)%nat ->
    (i <= k)%nat ->
    take 4 (drop (4 * i) (encode payload))
    = (if decide (i = k) then MK2_SYSEX_DATAEND3 else MK2_SYSEX_MOREDATA)
        :: take 3 (drop (3 * i) payload).
Proof.
  induction k as [|k IH]; intros payload i Hlen Hi.
  - destruct payload as [|b0 [|b1 [|b2 [|]]]]; try discriminate.
    assert (i = 0%nat) as -> by lia. reflexivity.
  - destruct payload as [|b0 [|b1 [|b2 [|b3 rest]]]]; simpl in Hlen; try lia.
    rewrite encode_cons3 by discriminate.
    destruct i as [|i].
    + rewrite decide_False by lia. reflexivity.
    + replace (4 * S i)%nat with (S (S (S (S (4 * i))))) by lia.
      replace (3 * S i)%nat with (S (S (S (3 * i)))) by lia.
      cbn [drop]. rewrite (IH (b3 :: rest) i) by (simpl; lia).
      destruct (decide (i = k)) as [->|Hn].
      * now rewrite decide_True by reflexivity.
      * now rewrite decide_False by lia.
Qed.

(** ** Size function *)

(** C2: for every payload length [L >= 1], [compute_stuffed_size L] is
    [((L + 2) / 3) * 4], with integer division; for [L] from 1 to 9 it
    yields 4, 4, 4, 8, 8, 8, 12, 12, 12.  A payload length is a [size_t]
    value whose stuffed size is one too; that is every length up to 407,
    the longest payload [mk2_write] passes, and far beyond. *)
Theorem compute_stuffed_size_correct (L : Z) :
  1 <= L ->
  (L + 2) / 3 * 4 < size_t_modulus ->
  compute_stuffed_size L = (L + 2) / 3 * 4
  /\ map compute_stuffed_size [1; 2; 3; 4; 5; 6; 7; 8; 9]
     = [4; 4; 4; 8; 8; 8; 12; 12; 12].
Proof.
  intros HL Hfit. split; [|reflexivity].
  apply compute_stuffed_size_exact; lia.
Qed.

Lemma compute_stuffed_size_correct_witness :
  compute_stuffed_size 407 = (407 + 2) / 3 * 4
  /\ map compute_stuffed_size [1; 2; 3; 4; 5; 6; 7; 8; 9]
     = [4; 4; 4; 8; 8; 8; 12; 12; 12].
Proof. apply (compute_stuffed_size_correct 407); [lia | reflexivity]. Defined.

(** Outside that range the function wraps, being arithmetic on
    [size_t]: at the largest [size_t], which is no payload length, the
    addition of the rounding constant gives 1 and the result is 0. *)
Lemma compute_stuffed_size_wraps :
  1 <= 18446744073709551615 < size_t_modulus
  /\ compute_stuffed_size 18446744073709551615 = 0
  /\ compute_stuffed_size 18446744073709551615
     <> (18446744073709551615 + 2) / 3 * 4.
Proof. repeat split; discriminate. Qed.

(** ** Stuffing *)

(** C3: for a payload of [3 * (k + 1)] bytes, [stuff_buffer] leaves in the
    buffer of [compute_stuffed_size] bytes a frame of exactly [k + 1]
    packets of four bytes; the first [k] packets carry [MOREDATA], the last
    one carries [DATAEND3] with the last three payload bytes, and nothing
    is stored past the buffer. *)
Theorem stuff_buffer_terminal_packet_reuse (payload buf : list byte) (k : nat) :
  length payload = (3 * S k)%nat ->
  Z.of_nat (length payload) <= PTRDIFF_MAX ->
  Z.of_nat (length buf) = compute_stuffed_size (Z.of_nat (length payload)) ->
  exists frame : list byte,
    stuff_buffer buf (compute_stuffed_size (Z.of_nat (length payload))) payload
                 (Z.of_nat (length payload)) = Some frame
    /\ length frame = (4 * (length payload / 3))%nat
    /\ Z.of_nat (length frame) = compute_stuffed_size (Z.of_nat (length payload))
    /\ (forall i : nat, (i < k)%nat ->
          packet i frame = MK2_SYSEX_MOREDATA :: take 3 (drop (3 * i) payload))
    /\ packet k frame = MK2_SYSEX_DATAEND3 :: drop (3 * k) payload.
Proof.
  intros Hlen Hmax Hbuf.
  exists (encode payload).
  assert (Hne : payload <> []) by (destruct payload; [discriminate | discriminate]).
  assert (HL : Z.of_nat (length (encode payload)) = 4 * Z.of_nat (S k)).
  { rewrite length_encode, Hlen. Z.div_mod_to_equations. lia. }
  split; [now apply stuff_buffer_encode|].
  split.
  { rewrite Hlen. replace (3 * S k)%nat with (S k * 3)%nat by lia.
    rewrite Nat.div_mul by lia. lia. }
  split.
  { rewrite compute_stuffed_size_exact.
    - apply length_encode.
    - lia.
    - rewrite PTRDIFF_MAX_eq in Hmax. moduli. Z.div_mod_to_equations. lia. }
  split.
  - intros i Hi. unfold packet.
    rewrite (encode_packets k) by (assumption || lia).
    now rewrite decide_False by lia.
  - unfold packet. rewrite (encode_packets k) by (assumption || lia).
    rewrite decide_True by reflexivity. f_equal.
    apply take_ge. rewrite length_drop. lia.
Qed.

Lemma stuff_buffer_terminal_packet_reuse_witness :
  let payload := [Byte.x01; Byte.x02; Byte.x03; Byte.x04; Byte.x05; Byte.x06] in
  exists frame : list byte,
    stuff_buffer (repeat Byte.xff 8) (compute_stuffed_size 6) payload 6 = Some frame
    /\ length frame = (4 * (6 / 3))%nat
    /\ Z.of_nat (length frame) = compute_stuffed_size 6
    /\ (forall i : nat, (i < 1)%nat ->
          packet i frame = MK2_SYSEX_MOREDATA :: take 3 (drop (3 * i) payload))
    /\ packet 1 frame = MK2_SYSEX_DATAEND3 :: drop (3 * 1) payload.
Proof.
  apply (stuff_buffer_terminal_packet_reuse
           [Byte.x01; Byte.x02; Byte.x03; Byte.x04; Byte.x05; Byte.x06]
           (repeat Byte.xff 8) 1).
  - reflexivity.
  - vm_compute. discriminate.
  - reflexivity.
Defined.

(** ** Destuffing: the loop invariant *)

Lemma INT_MAX_eq : INT_MAX = 2147483647.
Proof. reflexivity. Qed.

Lemma load_in_range (m : list byte) (i : Z) :
  0 <= i < Z.of_nat (length m) -> exists b, load m i = Some b.
Proof.
  intros Hi. unfold load. rewrite decide_True by lia.
  apply lookup_lt_is_Some. lia.
Qed.

Lemma load_range_in_range (n : nat) :
  forall (m : list byte) (off : Z),
    0 <= off -> off + Z.of_nat n <= Z.of_nat (length m) ->
    exists bs, load_range m off n = Some bs /\ length bs = n.
Proof.
  induction n as [|n IH]; intros m off Hoff Hlen.
  - exists []. split; reflexivity.
  - destruct (load_in_range m off) as [b Hb]; [lia|].
    destruct (IH m (off + 1)) as (bs & Hbs & Hl); [lia | lia |].
    exists (b :: bs). cbn [load_range]. rewrite Hb. cbn [mbind option_bind].
    rewrite Hbs. cbn [mbind option_bind]. split; [reflexivity | simpl; lia].
Qed.

Lemma batch_size_of_range (status : byte) (b : Z) :
  batch_size_of status = Some b -> 0 <= b <= 3.
Proof. destruct status; cbv; intros [= <-]; split; discriminate. Qed.

Lemma touched_in_filled (rb : mk2_read_buffer) (src : Z) (n : nat) :
  0 <= src -> src + Z.of_nat n <= filled rb ->
  Forall (in_filled rb) (map (fun k => src + Z.of_nat k) (seq 0 n)).
Proof.
  intros Hsrc Hn. apply Forall_forall. intros x Hx.
  apply list_elem_of_In, in_map_iff in Hx. destruct Hx as (k & <- & Hk).
  apply in_seq in Hk. unfold in_filled. lia.
Qed.

Section Decoding.

Variable rb : mk2_read_buffer.
Variables user_writable leftover cap : Z.
Hypothesis Hwf : read_buffer_wf rb.
Hypothesis Hleft : leftover = filled rb - copied rb.
Hypothesis Hcap : 0 <= cap < uint_modulus.

(** One iteration never reads outside the filled part and keeps the
    invariant, however it ends. *)
Lemma parse_step_inv (st : parse_state) :
  parse_inv rb leftover cap st ->
  rb_index st < leftover ->
  match parse_step rb user_writable leftover st with
  | Continue st' =>
      parse_inv rb leftover cap st' /\ rb_index st' = rb_index st + 4
  | Break st' | Fault st' =>
      parse_inv rb leftover cap st' /\ rb_index st' = rb_index st
  | Undefined => False
  end.
Proof.
  intros (k & Hidx & Hle & Hret & Hrem & Hsum & Hout & Hreads) Hlt.
  destruct Hwf as (Hcf & Hfs & Hsz & Hmax).
  rewrite INT_MAX_eq in Hmax. moduli.
  unfold parse_step.
  destruct (load_in_range (data rb) (rb_index st)) as [status Hst]; [lia|].
  rewrite Hst.
  assert (Hreads1 : Forall (in_filled rb) (reads st ++ [rb_index st])).
  { apply Forall_app. split; [assumption|].
    apply Forall_cons. split; [unfold in_filled; lia | apply Forall_nil_2]. }
  destruct (batch_size_of status) as [b|] eqn:Hb; cbn [retval rb_index rem_size user_out reads].
  2:{ split; [|reflexivity]. exists k. cbn. repeat split; try assumption; lia. }
  apply batch_size_of_range in Hb.
  destruct (rem_size st <? b) eqn:Hrb.
  { split; [|reflexivity]. exists k. cbn. repeat split; try assumption; lia. }
  apply Z.ltb_ge in Hrb.
  unfold MK2_STUFFED_PACKET_SIZE.
  rewrite (to_uint_small (rb_index st + 4)) by (moduli; lia).
  destruct (leftover <? rb_index st + 4) eqn:Hbound.
  { split; [|reflexivity]. exists k. cbn. repeat split; try assumption; lia. }
  apply Z.ltb_ge in Hbound.
  destruct (load_range_in_range (Z.to_nat b) (data rb) (copied rb + rb_index st + 1))
    as (payload & Hpl & Hlen); [lia | lia |].
  rewrite Hpl.
  assert (Hreads2 : Forall (in_filled rb)
            ((reads st ++ [rb_index st])
             ++ map (fun k0 => copied rb + rb_index st + 1 + Z.of_nat k0)
                    (seq 0 (Z.to_nat b)))).
  { apply Forall_app. split; [assumption|]. apply touched_in_filled; lia. }
  destruct (copy_to_user_ok user_writable _ b).
  - split; [|cbn; reflexivity].
    exists (S k). cbn.
    rewrite to_int_small by (change (2 ^ 31) with 2147483648; lia).
    rewrite to_uint_small by (moduli; lia).
    rewrite length_app.
    repeat split; try assumption; lia.
  - split; [|reflexivity]. exists k. cbn. repeat split; try assumption; lia.
Qed.

(** With enough fuel the loop ends, defined, in a state that satisfies
    the invariant. *)
Lemma parse_loop_inv (fuel : nat) :
  forall st : parse_state,
    parse_inv rb leftover cap st ->
    leftover - rb_index st < 4 * Z.of_nat fuel ->
    match parse_loop fuel rb user_writable leftover st with
    | Loop_done st' | Loop_fault st' => parse_inv rb leftover cap st'
    | Loop_undefined | Loop_out_of_fuel => False
    end.
Proof.
  induction fuel as [|fuel IH]; intros st Hinv Hfuel.
  - destruct Hinv as (k & _ & Hle & _). lia.
  - cbn [parse_loop]. destruct (rb_index st <? leftover) eqn:Hlt; [|assumption].
    apply Z.ltb_lt in Hlt.
    pose proof (parse_step_inv st Hinv Hlt) as Hstep.
    destruct (parse_step rb user_writable leftover st) as [st'|st'|st'|];
      try tauto.
    destruct Hstep as [Hinv' Hidx]. apply IH; [assumption | lia].
Qed.

(** A state the loop reaches is the state some later iteration starts
    from. *)
Lemma parse_loop_reaches (st0 st : parse_state) :
  reaches rb user_writable leftover st0 st ->
  parse_inv rb leftover cap st0 ->
  parse_inv rb leftover cap st
  /\ forall fuel : nat,
       leftover - rb_index st0 < 4 * Z.of_nat fuel ->
       exists fuel' : nat,
         leftover - rb_index st < 4 * Z.of_nat fuel'
         /\ parse_loop fuel rb user_writable leftover st0
            = parse_loop fuel' rb user_writable leftover st.
Proof.
  intros Hreach Hinv0. induction Hreach as [st|st st' st'' Hreach IH Hlt Hstep].
  - split; [assumption|]. intros fuel Hfuel. exists fuel. split; [assumption | reflexivity].
  - destruct (IH Hinv0) as [Hinv' Hrun].
    pose proof (parse_step_inv st' Hinv' Hlt) as Hs. rewrite Hstep in Hs.
    destruct Hs as [Hinv'' Hidx]. split; [assumption|].
    intros fuel Hfuel. destruct (Hrun fuel Hfuel) as (fuel' & Hf' & Heq).
    destruct fuel' as [|fuel']; [lia|].
    exists fuel'. split; [lia|].
    rewrite Heq. cbn [parse_loop].
    apply Z.ltb_lt in Hlt. rewrite Hlt, Hstep. reflexivity.
Qed.

End Decoding.

Lemma parse_init_inv (rb : mk2_read_buffer) (leftover user_size : Z) :
  0 <= leftover ->
  parse_inv rb leftover (to_uint user_size) (parse_init user_size).
Proof.
  intros Hl. exists 0%nat. cbn.
  assert (0 <= to_uint user_size < uint_modulus)
    by (apply Z.mod_pos_bound; reflexivity).
  repeat split; try lia. apply Forall_nil_2.
Qed.

Lemma leftover_wf (rb : mk2_read_buffer) :
  read_buffer_wf rb ->
  to_size_t (filled rb - copied rb) = filled rb - copied rb.
Proof.
  intros (Hcf & Hfs & Hsz & Hmax). rewrite INT_MAX_eq in Hmax.
  apply to_size_t_small. moduli. lia.
Qed.

(** What a decode step does to a well-formed buffer with leftover data:
    it returns, it has read only filled bytes, and either it reports a
    fault and leaves the buffer alone, or it has consumed [k] whole packets
    and advanced [copied] by [4 k], within [filled]. *)
Lemma parse_buffered_data_inv (rb : mk2_read_buffer) (user_writable user_size : Z) :
  read_buffer_wf rb ->
  copied rb < filled rb ->
  user_size <> 0 ->
  exists (ret : Z) (rb' : mk2_read_buffer) (out : list byte) (touched : list Z),
    parse_buffered_data rb user_writable user_size = Returned ret rb' out touched
    /\ Forall (in_filled rb) touched
    /\ ((ret = - EFAULT /\ rb' = rb)
        \/ (exists k : nat,
              0 <= ret <= 3 * Z.of_nat k
              /\ ret <= to_uint user_size
              /\ Z.of_nat (length out) = ret
              /\ rb' = set_copied rb (copied rb + 4 * Z.of_nat k)
              /\ copied rb + 4 * Z.of_nat k <= filled rb)).
Proof.
  intros Hwf Hlt Hus.
  unfold parse_buffered_data.
  rewrite (leftover_wf rb Hwf).
  destruct (user_size =? 0) eqn:E0; [apply Z.eqb_eq in E0; contradiction|].
  destruct (filled rb - copied rb =? 0) eqn:E1; [apply Z.eqb_eq in E1; lia|].
  assert (Hcap : 0 <= to_uint user_size < uint_modulus)
    by (apply Z.mod_pos_bound; reflexivity).
  pose proof (parse_loop_inv rb user_writable (filled rb - copied rb) (to_uint user_size)
                Hwf eq_refl Hcap (parse_fuel (filled rb - copied rb))
                (parse_init user_size)
                (parse_init_inv rb (filled rb - copied rb) user_size ltac:(lia)))
    as Hloop.
  unfold parse_fuel in *. cbn [rb_index parse_init] in Hloop.
  specialize (Hloop ltac:(lia)).
  destruct (parse_loop _ rb user_writable _ _) as [st|st| |]; try contradiction.
  - destruct Hloop as (k & Hidx & Hle & Hret & Hrem & Hsum & Hout & Hreads).
    exists (retval st), (set_copied rb (to_size_t (copied rb + rb_index st))),
           (user_out st), (reads st).
    split; [reflexivity|]. split; [assumption|]. right. exists k.
    destruct Hwf as (Hcf & Hfs & Hsz & Hmax). rewrite INT_MAX_eq in Hmax.
    rewrite to_size_t_small by (moduli; lia).
    rewrite Hidx. repeat split; try lia.
  - destruct Hloop as (k & Hidx & Hle & Hret & Hrem & Hsum & Hout & Hreads).
    exists (- EFAULT), rb, (user_out st), (reads st).
    split; [reflexivity|]. split; [assumption|]. left. split; reflexivity.
Qed.

(** ** Framing faults *)




(** Why the amended C4 speaks of [copied = 0]: after a delivery the
    decoder takes its status bytes from the start of the buffer, not from
    the packets it is decoding (the slip of C8).  In the buffer
    [04 61 62 63 | 04 64 65 66 | 00 67 68 69] with [copied = 4] the packet
    at offset 8 has the unknown status [00]; with capacity 6 the decoder
    reads the status bytes at offsets 0 and 4, delivers the six payload
    bytes of the packets at offsets 4 and 8 and returns 6. *)
Lemma unknown_status_missed_after_delivery :
  let rb := {| data := [Byte.x04; Byte.x61; Byte.x62; Byte.x63;
                        Byte.x04; Byte.x64; Byte.x65; Byte.x66;
                        Byte.x00; Byte.x67; Byte.x68; Byte.x69];
               size := 12; filled := 12; copied := 4 |} in
  read_buffer_wf rb
  /\ load (data rb) 8 = Some Byte.x00
  /\ batch_size_of Byte.x00 = None
  /\ parse_buffered_data rb 6 6
     = Returned 6 (set_copied rb 12)
                [Byte.x64; Byte.x65; Byte.x66; Byte.x67; Byte.x68; Byte.x69]
                [0; 5; 6; 7; 4; 9; 10; 11].
Proof.
  split; [|split; [|split]]; try reflexivity.
  unfold read_buffer_wf. cbn. rewrite INT_MAX_eq. lia.
Qed.

(** ** Destuffing a frame produced by [stuff_buffer] *)

Lemma load_at (pre : list byte) (x : byte) (post : list byte) :
  load (pre ++ x :: post) (Z.of_nat (length pre)) = Some x.
Proof.
  unfold load. rewrite decide_True by lia. rewrite Nat2Z.id.
  now apply list_lookup_middle.
Qed.

Lemma load_range_at (bs : list byte) :
  forall (pre post : list byte) (off : Z) (n : nat),
    off = Z.of_nat (length pre) ->
    n = length bs ->
    load_range (pre ++ bs ++ post) off n = Some bs.
Proof.
  induction bs as [|b bs IH]; intros pre post off n -> ->.
  - reflexivity.
  - cbn [length load_range app]. rewrite load_at. cbn [mbind option_bind].
    replace (pre ++ b :: bs ++ post) with ((pre ++ [b]) ++ bs ++ post)
      by (rewrite <- app_assoc; reflexivity).
    rewrite (IH (pre ++ [b]) post) by (rewrite ?length_app; simpl; lia).
    reflexivity.
Qed.

(** One iteration over a packet [status, b0, b1, b2] of width [w] that
    fits: the first [w] payload bytes reach the caller and the loop moves
    to the next packet.  The buffer has [copied = 0]. *)
Lemma parse_step_packet (rb : mk2_read_buffer) (user_writable leftover : Z)
    (st : parse_state) (pre post : list byte) (status b0 b1 b2 : byte) (w : Z) :
  data rb = pre ++ status :: b0 :: b1 :: b2 :: post ->
  copied rb = 0 ->
  rb_index st = Z.of_nat (length pre) ->
  batch_size_of status = Some w ->
  w <= rem_size st < uint_modulus ->
  rb_index st + 4 <= leftover ->
  leftover < uint_modulus ->
  0 <= retval st -> retval st + w < 2 ^ 31 ->
  Z.of_nat (length (user_out st)) + w <= user_writable ->
  exists rd : list Z,
    parse_step rb user_writable leftover st
    = Continue {| retval := retval st + w;
                  rb_index := rb_index st + 4;
                  rem_size := rem_size st - w;
                  user_out := user_out st ++ take (Z.to_nat w) [b0; b1; b2];
                  reads := rd |}.
Proof.
  intros Hdata Hcopied Hidx Hw Hrem Hbound Hleft Hret Hret' Huser.
  pose proof (batch_size_of_range _ _ Hw) as Hw03.
  unfold parse_step. rewrite Hdata, Hidx, load_at, Hw.
  cbn [retval rb_index rem_size user_out reads].
  destruct (rem_size st <? w) eqn:E; [apply Z.ltb_lt in E; lia|]. clear E.
  unfold MK2_STUFFED_PACKET_SIZE.
  rewrite to_uint_small by lia.
  destruct (leftover <? Z.of_nat (length pre) + 4) eqn:E; [apply Z.ltb_lt in E; lia|].
  clear E. rewrite Hcopied.
  assert (Hrange : load_range (pre ++ status :: b0 :: b1 :: b2 :: post)
                     (0 + Z.of_nat (length pre) + 1) (Z.to_nat w)
                   = Some (take (Z.to_nat w) [b0; b1; b2])).
  { replace (pre ++ status :: b0 :: b1 :: b2 :: post)
      with ((pre ++ [status]) ++ take (Z.to_nat w) [b0; b1; b2]
                              ++ (drop (Z.to_nat w) [b0; b1; b2] ++ post)).
    - apply load_range_at.
      + rewrite length_app. simpl. lia.
      + rewrite length_take. simpl. lia.
    - rewrite (app_assoc (take _ _)), take_drop, <- app_assoc. reflexivity. }
  rewrite Hrange.
  unfold copy_to_user_ok. cbn [user_out].
  replace (Z.of_nat (length (user_out st)) + w <=? user_writable) with true
    by (symmetry; apply Z.leb_le; lia).
  rewrite orb_true_r.
  rewrite to_int_small by lia. rewrite to_uint_small by lia.
  eexists. reflexivity.
Qed.

(** The loop over [n] [MOREDATA] packets in a row. *)
Lemma parse_loop_more_data (rb : mk2_read_buffer) (user_writable leftover : Z) (n : nat) :
  forall (blocks pre post : list byte) (st : parse_state) (fuel : nat),
    length blocks = (3 * n)%nat ->
    data rb = pre ++ more_data blocks ++ post ->
    copied rb = 0 ->
    rb_index st = Z.of_nat (length pre) ->
    3 * Z.of_nat n <= rem_size st < uint_modulus ->
    rb_index st + 4 * Z.of_nat n <= leftover ->
    leftover < uint_modulus ->
    0 <= retval st -> retval st + 3 * Z.of_nat n < 2 ^ 31 ->
    Z.of_nat (length (user_out st)) + 3 * Z.of_nat n <= user_writable ->
    exists rd : list Z,
      parse_loop (n + fuel) rb user_writable leftover st
      = parse_loop fuel rb user_writable leftover
          {| retval := retval st + 3 * Z.of_nat n;
             rb_index := rb_index st + 4 * Z.of_nat n;
             rem_size := rem_size st - 3 * Z.of_nat n;
             user_out := user_out st ++ blocks;
             reads := rd |}.
Proof.
  induction n as [|n IH];
    intros blocks pre post st fuel Hb Hdata Hcopied Hidx Hrem Hbound Hleft Hret Hret' Huser.
  - destruct blocks; [|discriminate]. exists (reads st).
    cbn [Nat.add]. rewrite app_nil_r, !Z.add_0_r, Z.sub_0_r.
    destruct st; reflexivity.
  - destruct blocks as [|b0 [|b1 [|b2 blocks]]]; simpl in Hb; try lia.
    cbn [more_data app] in Hdata.
    destruct (parse_step_packet rb user_writable leftover st pre
                (more_data blocks ++ post) MK2_SYSEX_MOREDATA b0 b1 b2 3)
      as (rd1 & Hstep); try assumption; try reflexivity; try lia.
    cbn [Nat.add parse_loop].
    replace (rb_index st <? leftover) with true by (symmetry; apply Z.ltb_lt; lia).
    rewrite Hstep.
    match goal with
    | |- context [parse_loop (n + fuel) rb user_writable leftover ?s] =>
        destruct (IH blocks (pre ++ [MK2_SYSEX_MOREDATA; b0; b1; b2]) post s fuel)
          as (rd & Hrun)
    end; cbn [retval rb_index rem_size user_out reads]; try assumption; try lia.
    + rewrite Hdata, <- app_assoc. reflexivity.
    + rewrite length_app. simpl. lia.
    + rewrite length_app. simpl. lia.
    + exists rd. rewrite Hrun. cbn [retval rb_index rem_size user_out reads].
      do 2 f_equal; try lia.
      rewrite <- app_assoc. reflexivity.
Qed.

(** Decoding, from the start of a buffer, [n] [MOREDATA] packets followed
    by a last packet of width [w], with room for all of it. *)
Lemma decode_groups (n : nat) (blocks : list byte) (status x0 x1 x2 : byte)
    (w user_writable user_size : Z) :
  length blocks = (3 * n)%nat ->
  batch_size_of status = Some w ->
  0 < user_size < uint_modulus ->
  3 * Z.of_nat n + w <= user_size ->
  user_size <= user_writable ->
  4 * Z.of_nat n + 4 <= INT_MAX ->
  let frame := more_data blocks ++ [status; x0; x1; x2] in
  let rb := {| data := frame; size := Z.of_nat (length frame);
               filled := Z.of_nat (length frame); copied := 0 |} in
  exists touched : list Z,
    parse_buffered_data rb user_writable user_size
    = Returned (3 * Z.of_nat n + w) (set_copied rb (filled rb))
               (blocks ++ take (Z.to_nat w) [x0; x1; x2]) touched.
Proof.
  intros Hb Hw Hus Hroom Huw Hmax frame rb.
  pose proof (batch_size_of_range _ _ Hw) as Hw03.
  rewrite INT_MAX_eq in Hmax.
  assert (Hlen : Z.of_nat (length frame) = 4 * Z.of_nat n + 4).
  { unfold frame. rewrite length_app, (length_more_data n) by assumption. simpl. lia. }
  unfold parse_buffered_data. cbn [filled copied rb].
  rewrite Z.sub_0_r, Hlen, to_size_t_small by (moduli; lia).
  destruct (user_size =? 0) eqn:E; [apply Z.eqb_eq in E; lia|]. clear E.
  destruct (4 * Z.of_nat n + 4 =? 0) eqn:E; [apply Z.eqb_eq in E; lia|]. clear E.
  unfold parse_fuel.
  replace (Z.to_nat (4 * Z.of_nat n + 4)) with (n + S (S (3 * n + 2)))%nat by lia.
  assert (Hcap : to_uint user_size = user_size) by (apply to_uint_small; lia).
  destruct (parse_loop_more_data rb user_writable (4 * Z.of_nat n + 4) n blocks []
              [status; x0; x1; x2] (parse_init user_size) (S (S (3 * n + 2))))
    as (rd & Hrun);
    [cbn [parse_init retval rb_index rem_size user_out reads length];
     rewrite ?Hcap;
     first [reflexivity | assumption | moduli; lia] .. |].
  rewrite Hrun. clear Hrun. cbn [parse_init retval rb_index rem_size user_out reads].
  rewrite Hcap.
  cbn [parse_loop rb_index].
  replace (0 + 4 * Z.of_nat n <? 4 * Z.of_nat n + 4) with true
    by (symmetry; apply Z.ltb_lt; lia).
  match goal with
  | |- context [parse_step rb user_writable ?l ?s] =>
      destruct (parse_step_packet rb user_writable l s (more_data blocks) []
                  status x0 x1 x2 w) as (rd' & Hstep)
  end;
    [cbn [retval rb_index rem_size user_out reads];
     rewrite ?length_app, ?(length_more_data n) by assumption;
     first [reflexivity | assumption | moduli; simpl; lia] .. |].
  rewrite Hstep. cbn [rb_index].
  replace (0 + 4 * Z.of_nat n + 4 <? 4 * Z.of_nat n + 4) with false
    by (symmetry; apply Z.ltb_ge; lia).
  cbn [retval rb_index user_out reads].
  exists rd'. f_equal.
  rewrite to_size_t_small by (moduli; lia). f_equal; lia.
Qed.

Lemma last_group (n : nat) (blocks : list byte) :
  length blocks = (3 * S n)%nat ->
  exists (pre : list byte) (b0 b1 b2 : byte),
    blocks = pre ++ [b0; b1; b2] /\ length pre = (3 * n)%nat.
Proof.
  intros Hb. exists (take (3 * n) blocks).
  assert (Hl3 : length (drop (3 * n) blocks) = 3%nat) by (rewrite length_drop; lia).
  pose proof (take_drop (3 * n) blocks) as Htd.
  destruct (drop (3 * n) blocks) as [|b0 [|b1 [|b2 [|]]]]; try discriminate.
  exists b0, b1, b2. split; [now symmetry|]. rewrite length_take. lia.
Qed.

(** Encoding a payload of at most 407 bytes and decoding the frame from a
    fresh read buffer with capacity [L]: a payload whose length is not a
    multiple of three comes back whole; when the length is a multiple of
    three the last packet is labelled [DATAEND3], for which the decoder
    takes the width to be 0, and the last three bytes are not delivered. *)
Lemma decode_frame (payload buf : list byte) :
  let L := Z.of_nat (length payload) in
  payload <> [] ->
  L <= USB_MK2_MAX_OUT_LEN ->
  Z.of_nat (length buf) = compute_stuffed_size L ->
  stuff_buffer buf (compute_stuffed_size L) payload L = Some (encode payload)
  /\ Z.of_nat (length (encode payload)) = compute_stuffed_size L
  /\ exists touched : list Z,
       let rb := {| data := encode payload; size := compute_stuffed_size L;
                    filled := compute_stuffed_size L; copied := 0 |} in
       parse_buffered_data rb L L
       = Returned (if decide (L mod 3 = 0) then L - 3 else L)
                  (set_copied rb (compute_stuffed_size L))
                  (if decide (L mod 3 = 0) then take (length payload - 3) payload
                   else payload)
                  touched.
Proof.
  intros L Hne Hmax Hbuf. unfold USB_MK2_MAX_OUT_LEN in Hmax.
  assert (Hc : compute_stuffed_size L = Z.of_nat (length (encode payload))).
  { rewrite length_encode. apply compute_stuffed_size_exact; [lia|].
    moduli. fold L. Z.div_mod_to_equations. lia. }
  split.
  { apply stuff_buffer_encode; try assumption. rewrite PTRDIFF_MAX_eq. fold L. lia. }
  split; [now symmetry|].
  rewrite Hc. clear Hc Hbuf. subst L.
  destruct (payload_groups payload) as (n & blocks & tail & -> & Hb & Ht).
  destruct tail as [|t0 [|t1 [|t2 tail]]]; simpl in Ht; try lia;
    rewrite ?app_nil_r in *.
  - destruct n as [|n]; [destruct blocks; [contradiction | discriminate]|].
    destruct (last_group n blocks Hb) as (pre & b0 & b1 & b2 & -> & Hpre).
    assert (HL : Z.of_nat (length (pre ++ [b0; b1; b2])) = 3 * Z.of_nat n + 3)
      by (rewrite Hb; lia).
    rewrite (encode_more_data n) by (assumption || discriminate).
    cbn [encode].
    destruct (decode_groups n pre MK2_SYSEX_DATAEND3 b0 b1 b2 0
                (Z.of_nat (length (pre ++ [b0; b1; b2])))
                (Z.of_nat (length (pre ++ [b0; b1; b2]))))
      as (touched & Hdec);
      [rewrite ?INT_MAX_eq in *;
       first [reflexivity | assumption | moduli; lia] .. |].
    exists touched. cbn zeta in Hdec |- *. rewrite Hdec.
    destruct (decide (Z.of_nat (length (pre ++ [b0; b1; b2])) mod 3 = 0)) as [_|Hn];
      [|exfalso; apply Hn; rewrite HL; Z.div_mod_to_equations; lia].
    f_equal.
    + lia.
    + rewrite app_nil_r. rewrite length_app. simpl.
      rewrite take_app_length'; [reflexivity | lia].
  - assert (HL : Z.of_nat (length (blocks ++ [t0])) = 3 * Z.of_nat n + 1)
      by (rewrite length_app, Hb; simpl; lia).
    destruct (decode_groups n blocks MK2_SYSEX_DATAEND1 t0 Byte.x00 Byte.x00 1
                (Z.of_nat (length (blocks ++ [t0]))) (Z.of_nat (length (blocks ++ [t0]))))
      as (touched & Hdec);
      [rewrite ?INT_MAX_eq in *;
       first [reflexivity | assumption | moduli; lia] .. |].
    rewrite (encode_more_data n) by (assumption || discriminate).
    cbn [encode].
    exists touched. cbn zeta in Hdec |- *. rewrite Hdec.
    destruct (decide (Z.of_nat (length (blocks ++ [t0])) mod 3 = 0)) as [Hn|_];
      [exfalso; rewrite HL in Hn; Z.div_mod_to_equations; lia|].
    f_equal. lia.
  - assert (HL : Z.of_nat (length (blocks ++ [t0; t1])) = 3 * Z.of_nat n + 2)
      by (rewrite length_app, Hb; simpl; lia).
    destruct (decode_groups n blocks MK2_SYSEX_DATAEND2 t0 t1 Byte.x00 2
                (Z.of_nat (length (blocks ++ [t0; t1])))
                (Z.of_nat (length (blocks ++ [t0; t1]))))
      as (touched & Hdec);
      [rewrite ?INT_MAX_eq in *;
       first [reflexivity | assumption | moduli; lia] .. |].
    rewrite (encode_more_data n) by (assumption || discriminate).
    cbn [encode].
    exists touched. cbn zeta in Hdec |- *. rewrite Hdec.
    destruct (decide (Z.of_nat (length (blocks ++ [t0; t1])) mod 3 = 0)) as [Hn|_];
      [exfalso; rewrite HL in Hn; Z.div_mod_to_equations; lia|].
    f_equal. lia.
Qed.

(** The round trip holds for every payload whose length is not a multiple
    of three. *)
Lemma roundtrip_with_remainder (payload buf : list byte) :
  let L := Z.of_nat (length payload) in
  0 < L <= USB_MK2_MAX_OUT_LEN ->
  L mod 3 <> 0 ->
  Z.of_nat (length buf) = compute_stuffed_size L ->
  exists (frame : list byte) (touched : list Z),
    stuff_buffer buf (compute_stuffed_size L) payload L = Some frame
    /\ Z.of_nat (length frame) = compute_stuffed_size L
    /\ let rb := {| data := frame; size := compute_stuffed_size L;
                    filled := compute_stuffed_size L; copied := 0 |} in
       parse_buffered_data rb L L
       = Returned L (set_copied rb (compute_stuffed_size L)) payload touched.
Proof.
  intros L HL Hmod Hbuf.
  assert (Hne : payload <> []) by (intros ->; simpl in L; lia).
  destruct (decode_frame payload buf Hne (proj2 HL) Hbuf) as (Hs & Hlen & touched & Hdec).
  exists (encode payload), touched. split; [assumption|]. split; [assumption|].
  cbn zeta in Hdec |- *. fold L in Hdec. rewrite Hdec.
  destruct (decide (L mod 3 = 0)); [contradiction | reflexivity].
Qed.

(** C1 fails on the code for every length that is a multiple of three:
    [stuff_buffer] labels the last packet, which carries three payload
    bytes, [DATAEND3]; [parse_buffered_data] takes the width of a
    [DATAEND3] packet to be 0.  Decoding the frame with capacity [L]
    returns [L - 3] and delivers the payload without its last three
    bytes. *)
Theorem roundtrip_drops_final_group (payload buf : list byte) :
  let L := Z.of_nat (length payload) in
  0 < L <= USB_MK2_MAX_OUT_LEN ->
  L mod 3 = 0 ->
  Z.of_nat (length buf) = compute_stuffed_size L ->
  exists (frame : list byte) (touched : list Z),
    stuff_buffer buf (compute_stuffed_size L) payload L = Some frame
    /\ Z.of_nat (length frame) = compute_stuffed_size L
    /\ let rb := {| data := frame; size := compute_stuffed_size L;
                    filled := compute_stuffed_size L; copied := 0 |} in
       parse_buffered_data rb L L
       = Returned (L - 3) (set_copied rb (compute_stuffed_size L))
                  (take (length payload - 3) payload) touched.
Proof.
  intros L HL Hmod Hbuf.
  assert (Hne : payload <> []) by (intros ->; simpl in L; lia).
  destruct (decode_frame payload buf Hne (proj2 HL) Hbuf) as (Hs & Hlen & touched & Hdec).
  exists (encode payload), touched. split; [assumption|]. split; [assumption|].
  cbn zeta in Hdec |- *. fold L in Hdec. rewrite Hdec.
  destruct (decide (L mod 3 = 0)); [reflexivity | contradiction].
Qed.

(** The payload [61 62 63]: the frame is [07 61 62 63] and decoding it
    with capacity 3 returns 0 bytes. *)
Lemma roundtrip_drops_final_group_witness :
  exists (frame : list byte) (touched : list Z),
    stuff_buffer (repeat Byte.x00 4) (compute_stuffed_size 3)
                 [Byte.x61; Byte.x62; Byte.x63] 3 = Some frame
    /\ Z.of_nat (length frame) = compute_stuffed_size 3
    /\ let rb := {| data := frame; size := compute_stuffed_size 3;
                    filled := compute_stuffed_size 3; copied := 0 |} in
       parse_buffered_data rb 3 3
       = Returned 0 (set_copied rb (compute_stuffed_size 3)) [] touched.
Proof.
  apply (roundtrip_drops_final_group [Byte.x61; Byte.x62; Byte.x63] (repeat Byte.x00 4)).
  - cbn. unfold USB_MK2_MAX_OUT_LEN. lia.
  - reflexivity.
  - reflexivity.
Defined.

(** ** Draining a buffer in several read calls *)

(** C8 fails on the code: the payload of a packet is copied from
    [data + copied + rb_index + 1], but its status byte is taken from
    [data[rb_index]], without [copied].  One read of capacity 4 delivers
    [61 62 63 64].  Two reads of capacity 3 deliver [61 62 63] and then,
    decoding the second packet with the status byte of the first,
    [64 00 00]: the second call reads index 0 and then indices 5, 6, 7. *)
Theorem two_reads_differ_from_one :
  let after_first :=
    set_read_endp frame4_dev
      (set_buffer (read_endp frame4_dev) (set_copied (buffer (read_endp frame4_dev)) 4)) in
  let drained :=
    set_read_endp frame4_dev
      (set_buffer (read_endp frame4_dev) (set_copied (buffer (read_endp frame4_dev)) 8)) in
  mk2_read frame4_dev false quiet_read_env 4 4
  = (Ret 4, drained, [Byte.x61; Byte.x62; Byte.x63; Byte.x64], [])
  /\ mk2_read frame4_dev false quiet_read_env 3 3
     = (Ret 3, after_first, [Byte.x61; Byte.x62; Byte.x63], [])
  /\ mk2_read after_first false quiet_read_env 3 3
     = (Ret 3, drained, [Byte.x64; Byte.x00; Byte.x00], [])
  /\ parse_buffered_data (buffer (read_endp after_first)) 3 3
     = Returned 3 (buffer (read_endp drained)) [Byte.x64; Byte.x00; Byte.x00] [0; 5; 6; 7]
  /\ [Byte.x61; Byte.x62; Byte.x63] ++ [Byte.x64; Byte.x00; Byte.x00]
     <> [Byte.x61; Byte.x62; Byte.x63; Byte.x64].
Proof. repeat split; try reflexivity. discriminate. Qed.

(** What does hold for every decode step on a well-formed buffer with
    leftover data: a step that does not fault advances [copied] by four
    times the number of packets it consumed and never past [filled]. *)
Lemma parse_buffered_data_advance (rb rb' : mk2_read_buffer)
    (user_writable user_size ret : Z) (out : list byte) (touched : list Z) :
  read_buffer_wf rb ->
  copied rb < filled rb ->
  3 <= user_size ->
  parse_buffered_data rb user_writable user_size = Returned ret rb' out touched ->
  ret <> - EFAULT ->
  exists k : nat,
    copied rb' = copied rb + 4 * Z.of_nat k
    /\ copied rb' <= filled rb'
    /\ filled rb' = filled rb /\ data rb' = data rb /\ size rb' = size rb
    /\ Z.of_nat (length out) = ret /\ 0 <= ret <= 3 * Z.of_nat k.
Proof.
  intros Hwf Hlt Hus Hres Hret.
  destruct (parse_buffered_data_inv rb user_writable user_size Hwf Hlt ltac:(lia))
    as (ret0 & rb0 & out0 & touched0 & Hres0 & _ & Hcases).
  rewrite Hres in Hres0. injection Hres0 as <- <- <- <-.
  destruct Hcases as [[Hf _] | (k & Hr & _ & Hout & -> & Hle)]; [contradiction|].
  exists k. cbn. repeat split; try assumption; lia.
Qed.

(** ** Write channel *)

Lemma write_error_trace (dev : mk2dev) (endpoint : mk2_write_endp)
    (have_user_buffer have_urb : bool) (stuffed_size retval : Z) (trace : list event)
    (frame : list byte) :
  ~ In (Usb_submit_write_urb frame) trace ->
  ~ In (Usb_submit_write_urb frame)
       (snd (write_error dev endpoint have_user_buffer have_urb stuffed_size retval trace)).
Proof.
  intros Hno. unfold write_error. cbn [snd].
  rewrite !in_app_iff. intros [H | [H | [H | H]]]; [contradiction | | |].
  - destruct have_user_buffer; simpl in H; intuition discriminate.
  - destruct have_urb; simpl in H; intuition discriminate.
  - simpl in H; intuition discriminate.
Qed.

Lemma compute_stuffed_size_nonneg (n : Z) : 0 <= compute_stuffed_size n.
Proof.
  unfold compute_stuffed_size, to_size_t at 1.
  apply Z.mod_pos_bound. reflexivity.
Qed.

(** The buffer [mk2_write] hands to [stuff_buffer]. *)
Lemma stuff_buffer_fresh (payload : list byte) :
  0 < Z.of_nat (length payload) <= USB_MK2_MAX_OUT_LEN ->
  stuff_buffer (repeat Byte.x00 (Z.to_nat (compute_stuffed_size (Z.of_nat (length payload)))))
               (compute_stuffed_size (Z.of_nat (length payload))) payload
               (Z.of_nat (length payload))
  = Some (encode payload).
Proof.
  intros HL. unfold USB_MK2_MAX_OUT_LEN in HL. apply stuff_buffer_encode.
  - intros ->. simpl in HL. lia.
  - rewrite PTRDIFF_MAX_eq. lia.
  - rewrite repeat_length, Z2Nat.id; [reflexivity | apply compute_stuffed_size_nonneg].
Qed.

(** A write call that gets as far as [usb_submit_urb], and whose
    submission succeeds, returns the truncated count; the frame it hands
    over is the encoding of the first [min(count, 407)] bytes of the
    caller's buffer; the slot it holds stays taken and the frame is
    anchored. *)
Lemma mk2_write_submitted (dev dev' : mk2dev) (nonblock : bool) (env : write_env)
    (user : list byte) (count : Z) (res : call_result) (trace : list event)
    (frame : list byte) :
  0 <= count ->
  mk2_write dev nonblock env user count = (res, dev', trace) ->
  In (Usb_submit_write_urb frame) trace ->
  submit_write_result env = 0 ->
  res = Ret (Z.min count USB_MK2_MAX_OUT_LEN)
  /\ frame = encode (take (Z.to_nat (Z.min count USB_MK2_MAX_OUT_LEN)) user)
  /\ limit_sem (write_endp dev') = limit_sem (write_endp dev) - 1
  /\ submitted (write_endp dev') = frame :: submitted (write_endp dev).
Proof.
  intros Hcount Hcall Hin Hok. unfold mk2_write in Hcall.
  destruct (count =? 0) eqn:E0.
  { injection Hcall as <- <- <-. destruct Hin. }
  apply Z.eqb_neq in E0.
  set (c := Z.min count USB_MK2_MAX_OUT_LEN) in *.
  assert (Hc : 0 < c <= USB_MK2_MAX_OUT_LEN) by (unfold USB_MK2_MAX_OUT_LEN in *; lia).
  destruct (limit_sem (write_endp dev) <=? 0).
  { destruct nonblock; [|destruct (signal_pending env)];
      injection Hcall as <- <- <-; destruct Hin. }
  cbn [write_errors set_limit_sem] in Hcall.
  assert (Hnil : forall evs : list event,
             Forall (fun e => forall f, e <> Usb_submit_write_urb f) evs ->
             ~ In (Usb_submit_write_urb frame) evs).
  { intros evs Hall Hi. rewrite Forall_forall in Hall.
    apply list_elem_of_In in Hi. exact (Hall _ Hi frame eq_refl). }
  assert (Herr : forall ep ub ur ss rv tr,
             write_error dev ep ub ur ss rv tr = (res, dev', trace) ->
             ~ In (Usb_submit_write_urb frame) tr -> False).
  { intros ep ub ur ss rv tr Heq Hno.
    apply (write_error_trace dev ep ub ur ss rv tr frame Hno).
    rewrite Heq. exact Hin. }
  destruct (write_errors (write_endp dev) <? 0).
  { exfalso. eapply Herr; [exact Hcall|]. apply Hnil. repeat constructor; discriminate. }
  destruct (alloc_urb_ok env); cbn [negb] in Hcall.
  2:{ exfalso. eapply Herr; [exact Hcall|]. apply Hnil. repeat constructor; discriminate. }
  destruct (alloc_coherent_ok env); cbn [negb] in Hcall.
  2:{ exfalso. eapply Herr; [exact Hcall|]. apply Hnil. repeat constructor; discriminate. }
  destruct (access_ok env); cbn [negb] in Hcall.
  2:{ exfalso. eapply Herr; [exact Hcall|]. apply Hnil. repeat constructor; discriminate. }
  unfold memdup_user in Hcall.
  destruct (memdup_alloc_ok env); cbn [negb] in Hcall.
  2:{ exfalso. injection Hcall as _ _ <-. cbn in Hin. intuition discriminate. }
  destruct (c <=? Z.of_nat (length user)) eqn:Elen.
  2:{ exfalso. injection Hcall as _ _ <-. cbn in Hin. intuition discriminate. }
  apply Z.leb_le in Elen.
  assert (Htake : Z.of_nat (length (take (Z.to_nat c) user)) = c)
    by (rewrite length_take; lia).
  pose proof (stuff_buffer_fresh (take (Z.to_nat c) user)) as Henc.
  rewrite Htake in Henc. rewrite Henc in Hcall by lia. clear Henc.
  destruct (disconnected dev).
  { exfalso. eapply Herr; [exact Hcall|]. apply Hnil. repeat constructor; discriminate. }
  rewrite Hok in Hcall. cbn [Z.eqb negb] in Hcall.
  injection Hcall as <- <- <-.
  assert (Hframe : frame = encode (take (Z.to_nat c) user)).
  { simpl in Hin.
    repeat (destruct Hin as [Hin|Hin]; [try discriminate|]);
      [now injection Hin | destruct Hin]. }
  subst frame. cbn. repeat split; reflexivity.
Qed.

(** A write call that nothing hinders: a count that is not 0, a free
    slot, no pending error, working allocations, readable caller memory, a
    connected device and a transport that accepts the urb.  The call
    returns the truncated count and hands over the frame of the first
    [min(count, 407)] bytes. *)
Lemma mk2_write_accepts (dev : mk2dev) (nonblock : bool) (env : write_env)
    (user : list byte) (count : Z) :
  0 < count ->
  disconnected dev = false ->
  0 < limit_sem (write_endp dev) ->
  0 <= write_errors (write_endp dev) ->
  alloc_urb_ok env = true -> alloc_coherent_ok env = true ->
  access_ok env = true -> memdup_alloc_ok env = true ->
  Z.min count USB_MK2_MAX_OUT_LEN <= Z.of_nat (length user) ->
  submit_write_result env = 0 ->
  let c := Z.min count USB_MK2_MAX_OUT_LEN in
  let frame := encode (take (Z.to_nat c) user) in
  mk2_write dev nonblock env user count
  = (Ret c,
     set_write_endp dev
       {| submitted := frame :: submitted (write_endp dev);
          limit_sem := limit_sem (write_endp dev) - 1;
          write_errors := write_errors (write_endp dev) |},
     [Down; Usb_alloc_urb; Usb_alloc_coherent (compute_stuffed_size c);
      Memdup_user c; Usb_anchor_urb; Usb_submit_write_urb frame; Usb_free_urb]).
Proof.
  intros Hcount Hdis Hsem Herrs Hurb Hcoh Hacc Hdup Hlen Hsub c frame.
  unfold mk2_write.
  destruct (count =? 0) eqn:E0; [apply Z.eqb_eq in E0; lia|].
  fold c.
  assert (Hc : 0 < c <= USB_MK2_MAX_OUT_LEN)
    by (unfold c, USB_MK2_MAX_OUT_LEN in *; lia).
  destruct (limit_sem (write_endp dev) <=? 0) eqn:Es; [apply Z.leb_le in Es; lia|].
  cbn [write_errors set_limit_sem].
  destruct (write_errors (write_endp dev) <? 0) eqn:Ee; [apply Z.ltb_lt in Ee; lia|].
  rewrite Hurb, Hcoh, Hacc. cbn [negb].
  unfold memdup_user. rewrite Hdup. cbn [negb].
  destruct (c <=? Z.of_nat (length user)) eqn:Elen; [|apply Z.leb_gt in Elen; lia].
  assert (Htake : Z.of_nat (length (take (Z.to_nat c) user)) = c)
    by (rewrite length_take; lia).
  pose proof (stuff_buffer_fresh (take (Z.to_nat c) user)) as Henc.
  rewrite Htake in Henc. rewrite Henc by lia. clear Henc.
  rewrite Hdis, Hsub. reflexivity.
Qed.

(** C5 (as amended): a write of length 0 returns 0 without taking a slot
    or submitting anything (the device is unchanged and no kernel call is
    made); a write of more than 407 bytes is truncated, not refused: it
    behaves exactly as the write of the first 407 bytes, and a call that
    nothing hinders (a count that is not 0, a free slot, no pending error,
    working allocations, readable caller memory, a connected device, a
    transport that accepts the urb) returns [min(count, 407)] and submits
    the frame of the first [min(count, 407)] bytes; whenever a submission
    succeeds the call returns the number of bytes it accepted,
    [min(count, 407)], and the frame handed over encodes exactly those
    bytes. *)
Theorem mk2_write_length_handling (dev : mk2dev) (nonblock : bool) (env : write_env)
    (user : list byte) (count : Z) :
  0 <= count ->
  (count = 0 -> mk2_write dev nonblock env user count = (Ret 0, dev, []))
  /\ (USB_MK2_MAX_OUT_LEN <= count ->
      mk2_write dev nonblock env user count
      = mk2_write dev nonblock env user USB_MK2_MAX_OUT_LEN)
  /\ (0 < count ->
      disconnected dev = false ->
      0 < limit_sem (write_endp dev) ->
      0 <= write_errors (write_endp dev) ->
      alloc_urb_ok env = true -> alloc_coherent_ok env = true ->
      access_ok env = true -> memdup_alloc_ok env = true ->
      Z.min count USB_MK2_MAX_OUT_LEN <= Z.of_nat (length user) ->
      submit_write_result env = 0 ->
      exists (dev' : mk2dev) (trace : list event),
        mk2_write dev nonblock env user count
        = (Ret (Z.min count USB_MK2_MAX_OUT_LEN), dev', trace)
        /\ In (Usb_submit_write_urb
                 (encode (take (Z.to_nat (Z.min count USB_MK2_MAX_OUT_LEN)) user)))
              trace
        /\ limit_sem (write_endp dev') = limit_sem (write_endp dev) - 1)
  /\ (forall (res : call_result) (dev' : mk2dev) (trace : list event) (frame : list byte),
        mk2_write dev nonblock env user count = (res, dev', trace) ->
        In (Usb_submit_write_urb frame) trace ->
        submit_write_result env = 0 ->
        res = Ret (Z.min count USB_MK2_MAX_OUT_LEN)
        /\ frame = encode (take (Z.to_nat (Z.min count USB_MK2_MAX_OUT_LEN)) user)).
Proof.
  intros Hcount. split; [|split; [|split]].
  - intros ->. reflexivity.
  - intros Hbig. unfold mk2_write, USB_MK2_MAX_OUT_LEN in *.
    destruct (count =? 0) eqn:E; [apply Z.eqb_eq in E; lia|].
    rewrite Z.min_r by lia. reflexivity.
  - intros Hpos Hdis Hsem Herrs Hurb Hcoh Hacc Hdup Hlen Hsub.
    rewrite (mk2_write_accepts dev nonblock env user count) by assumption.
    eexists _, _. split; [reflexivity|]. split; [cbn; tauto | reflexivity].
  - intros res dev' trace frame Hcall Hin Hok.
    destruct (mk2_write_submitted dev dev' nonblock env user count res trace frame
                Hcount Hcall Hin Hok) as (Hres & Hframe & _).
    split; assumption.
Qed.

Lemma mk2_write_length_handling_witness :
  let dev := idle_dev in
  let env := willing_env in
  let user := repeat Byte.x01 500 in
  let count := 500 in
  (count = 0 -> mk2_write dev false env user count = (Ret 0, dev, []))
  /\ (USB_MK2_MAX_OUT_LEN <= count ->
      mk2_write dev false env user count = mk2_write dev false env user USB_MK2_MAX_OUT_LEN)
  /\ (0 < count ->
      disconnected dev = false ->
      0 < limit_sem (write_endp dev) ->
      0 <= write_errors (write_endp dev) ->
      alloc_urb_ok env = true -> alloc_coherent_ok env = true ->
      access_ok env = true -> memdup_alloc_ok env = true ->
      Z.min count USB_MK2_MAX_OUT_LEN <= Z.of_nat (length user) ->
      submit_write_result env = 0 ->
      exists (dev' : mk2dev) (trace : list event),
        mk2_write dev false env user count
        = (Ret (Z.min count USB_MK2_MAX_OUT_LEN), dev', trace)
        /\ In (Usb_submit_write_urb
                 (encode (take (Z.to_nat (Z.min count USB_MK2_MAX_OUT_LEN)) user)))
              trace
        /\ limit_sem (write_endp dev') = limit_sem (write_endp dev) - 1)
  /\ (forall (res : call_result) (dev' : mk2dev) (trace : list event) (frame : list byte),
        mk2_write dev false env user count = (res, dev', trace) ->
        In (Usb_submit_write_urb frame) trace ->
        submit_write_result env = 0 ->
        res = Ret (Z.min count USB_MK2_MAX_OUT_LEN)
        /\ frame = encode (take (Z.to_nat (Z.min count USB_MK2_MAX_OUT_LEN)) user)).
Proof.
  apply (mk2_write_length_handling idle_dev false willing_env (repeat Byte.x01 500) 500).
  lia.
Defined.

(** C5 as stated fails for an overlong payload: a write of 408 bytes whose
    submission succeeds returns 407, not the caller's count. *)
Lemma mk2_write_returns_truncated_count :
  exists (dev' : mk2dev) (trace : list event) (frame : list byte),
    mk2_write idle_dev false willing_env (repeat Byte.x01 408) 408 = (Ret 407, dev', trace)
    /\ In (Usb_submit_write_urb frame) trace
    /\ submit_write_result willing_env = 0
    /\ Ret 407 <> Ret 408.
Proof.
  eexists _, _, (encode (repeat Byte.x01 407)).
  split; [vm_compute; reflexivity|].
  split; [vm_compute; tauto|].
  split; [reflexivity | discriminate].
Qed.

(** C6: a write call that takes an admission slot ([limit_sem > 0]) while
    the error slot holds a negative value returns [-EPIPE] for [-EPIPE] and
    [-EIO] for every other value, after clearing the error slot and giving
    the slot back; it makes no other kernel call.  The device it leaves
    differs from the one it found only in the cleared error slot, so a
    following write that takes a slot goes past the error check and on to
    the allocation of its urb. *)
Theorem mk2_write_sticky_error (dev : mk2dev) (nonblock : bool) (env : write_env)
    (user : list byte) (count : Z) :
  0 < count ->
  0 < limit_sem (write_endp dev) ->
  write_errors (write_endp dev) < 0 ->
  let e := write_errors (write_endp dev) in
  let dev' := set_write_endp dev (set_write_errors (write_endp dev) 0) in
  mk2_write dev nonblock env user count
  = (Ret (if e =? - EPIPE then - EPIPE else - EIO), dev', [Down; Up])
  /\ write_errors (write_endp dev') = 0
  /\ limit_sem (write_endp dev') = limit_sem (write_endp dev)
  /\ (forall (nonblock2 : bool) (env2 : write_env) (user2 : list byte) (count2 : Z),
        0 < count2 ->
        exists (res2 : call_result) (dev2 : mk2dev) (rest : list event),
          mk2_write dev' nonblock2 env2 user2 count2
          = (res2, dev2, Down :: Usb_alloc_urb :: rest)).
Proof.
  intros Hcount Hsem Herr e dev'. split; [|split; [|split]]; try reflexivity.
  - unfold mk2_write.
    destruct (count =? 0) eqn:E; [apply Z.eqb_eq in E; lia|]. clear E.
    destruct (limit_sem (write_endp dev) <=? 0) eqn:E; [apply Z.leb_le in E; lia|]. clear E.
    cbn [write_errors set_limit_sem]. fold e.
    destruct (e <? 0) eqn:E; [|apply Z.ltb_ge in E; unfold e in E; lia]. clear E.
    unfold write_error, dev', set_write_endp, set_write_errors, set_limit_sem. cbn.
    replace (limit_sem (write_endp dev) - 1 + 1) with (limit_sem (write_endp dev)) by lia.
    destruct (e =? - EPIPE) eqn:E; [apply Z.eqb_eq in E; rewrite E|]; reflexivity.
  - intros nonblock2 env2 user2 count2 Hc2. unfold mk2_write.
    destruct (count2 =? 0) eqn:E; [apply Z.eqb_eq in E; lia|]. clear E.
    cbn [dev' write_endp set_write_endp set_write_errors limit_sem write_errors
         set_limit_sem].
    destruct (limit_sem (write_endp dev) <=? 0) eqn:E; [apply Z.leb_le in E; lia|]. clear E.
    cbn [Z.ltb Z.compare].
    unfold write_error.
    destruct (alloc_urb_ok env2); cbn [negb]; [|eexists _, _, _; reflexivity].
    destruct (alloc_coherent_ok env2); cbn [negb]; [|eexists _, _, _; reflexivity].
    destruct (access_ok env2); cbn [negb]; [|eexists _, _, _; reflexivity].
    destruct (memdup_user env2 user2 _); [|eexists _, _, _; reflexivity].
    destruct (stuff_buffer _ _ _ _); [|eexists _, _, _; reflexivity].
    destruct (disconnected _); [eexists _, _, _; reflexivity|].
    destruct (negb _); eexists _, _, _; reflexivity.
Qed.

Lemma mk2_write_sticky_error_witness :
  let dev := set_write_endp idle_dev (set_write_errors (write_endp idle_dev) (- EPIPE)) in
  let e := write_errors (write_endp dev) in
  let dev' := set_write_endp dev (set_write_errors (write_endp dev) 0) in
  mk2_write dev true willing_env [Byte.x90; Byte.x3c; Byte.x7f] 3
  = (Ret (if e =? - EPIPE then - EPIPE else - EIO), dev', [Down; Up])
  /\ write_errors (write_endp dev') = 0
  /\ limit_sem (write_endp dev') = limit_sem (write_endp dev)
  /\ (forall (nonblock2 : bool) (env2 : write_env) (user2 : list byte) (count2 : Z),
        0 < count2 ->
        exists (res2 : call_result) (dev2 : mk2dev) (rest : list event),
          mk2_write dev' nonblock2 env2 user2 count2
          = (res2, dev2, Down :: Usb_alloc_urb :: rest)).
Proof.
  apply (mk2_write_sticky_error
           (set_write_endp idle_dev (set_write_errors (write_endp idle_dev) (- EPIPE)))
           true willing_env [Byte.x90; Byte.x3c; Byte.x7f] 3);
    vm_compute; reflexivity.
Defined.

(** C7 (as amended): the completion callback of a write transfer stores
    the status of the transfer in the error slot whenever that status is
    nonzero, the unlink statuses [-ENOENT], [-ECONNRESET] and [-ESHUTDOWN]
    included (those are only kept out of the log); in every case, success
    or failure, it frees the transfer buffer once and releases exactly one
    admission slot, and it touches nothing else. *)
Theorem mk2_write_bulk_callback_effect (dev : mk2dev) (u : urb) :
  let dev' := fst (mk2_write_bulk_callback dev u) in
  let trace := snd (mk2_write_bulk_callback dev u) in
  write_errors (write_endp dev')
  = (if urb_status u =? 0 then write_errors (write_endp dev) else urb_status u)
  /\ limit_sem (write_endp dev') = limit_sem (write_endp dev) + 1
  /\ submitted (write_endp dev') = submitted (write_endp dev)
  /\ read_endp dev' = read_endp dev
  /\ disconnected dev' = disconnected dev
  /\ trace = (if negb (urb_status u =? 0) && negb (unlink_status (urb_status u))
              then [Dev_err] else [])
             ++ [Usb_free_coherent (urb_transfer_buffer_length u); Up].
Proof.
  unfold mk2_write_bulk_callback.
  destruct (urb_status u =? 0); cbn; [repeat split; reflexivity|].
  destruct (unlink_status (urb_status u)); cbn; repeat split; reflexivity.
Qed.

(** C7 as stated fails for a cancelled transfer: its status, [-ENOENT], is
    one of the expected ones and is recorded in the error slot all the
    same; likewise [-ECONNRESET] and [-ESHUTDOWN]. *)
Lemma write_callback_records_unlink_status :
  let cancelled (status : Z) :=
    {| urb_status := status; urb_actual_length := 0;
       urb_transfer_buffer_length := 4; urb_in_data := [] |} in
  unlink_status (- ENOENT) = true
  /\ write_errors (write_endp idle_dev) = 0
  /\ write_errors (write_endp (fst (mk2_write_bulk_callback idle_dev (cancelled (- ENOENT)))))
     = - ENOENT
  /\ write_errors (write_endp (fst (mk2_write_bulk_callback idle_dev (cancelled (- ECONNRESET)))))
     = - ECONNRESET
  /\ write_errors (write_endp (fst (mk2_write_bulk_callback idle_dev (cancelled (- ESHUTDOWN)))))
     = - ESHUTDOWN.
Proof. repeat split; reflexivity. Qed.

(** ** Disconnection *)

Lemma mk2_write_disconnected (dev : mk2dev) (nonblock : bool) (env : write_env)
    (user : list byte) (count : Z) (frame : list byte) :
  disconnected dev = true ->
  ~ In (Usb_submit_write_urb frame) (snd (mk2_write dev nonblock env user count))
  /\ submitted (write_endp (snd (fst (mk2_write dev nonblock env user count))))
     = submitted (write_endp dev).
Proof.
  intros Hdis. unfold mk2_write.
  assert (Hplain : forall evs : list event,
             Forall (fun e => forall f, e <> Usb_submit_write_urb f) evs ->
             ~ In (Usb_submit_write_urb frame) evs).
  { intros evs Hall Hi. rewrite Forall_forall in Hall.
    apply list_elem_of_In in Hi. exact (Hall _ Hi frame eq_refl). }
  assert (Herr : forall ep ub ur ss rv tr,
             ~ In (Usb_submit_write_urb frame) tr ->
             submitted ep = submitted (write_endp dev) ->
             ~ In (Usb_submit_write_urb frame) (snd (write_error dev ep ub ur ss rv tr))
             /\ submitted (write_endp (snd (fst (write_error dev ep ub ur ss rv tr))))
                = submitted (write_endp dev)).
  { intros ep ub ur ss rv tr Hno Hsub.
    split; [now apply write_error_trace | exact Hsub]. }
  destruct (count =? 0); [split; [intros [] | reflexivity]|].
  destruct (limit_sem (write_endp dev) <=? 0).
  { destruct nonblock; [|destruct (signal_pending env)]; (split; [intros [] | reflexivity]). }
  cbn [write_errors set_limit_sem].
  destruct (write_errors (write_endp dev) <? 0).
  { apply Herr; [|reflexivity]. apply Hplain. repeat constructor; discriminate. }
  destruct (alloc_urb_ok env); cbn [negb].
  2:{ apply Herr; [|reflexivity]. apply Hplain. repeat constructor; discriminate. }
  destruct (alloc_coherent_ok env); cbn [negb].
  2:{ apply Herr; [|reflexivity]. apply Hplain. repeat constructor; discriminate. }
  destruct (access_ok env); cbn [negb].
  2:{ apply Herr; [|reflexivity]. apply Hplain. repeat constructor; discriminate. }
  destruct (memdup_user env user _).
  2:{ split; [|reflexivity]. apply Hplain. repeat constructor; discriminate. }
  destruct (stuff_buffer _ _ _ _).
  2:{ split; [|reflexivity]. apply Hplain. repeat constructor; discriminate. }
  rewrite Hdis.
  apply Herr; [|reflexivity]. apply Hplain. repeat constructor; discriminate.
Qed.




(** ** Bytes outside the filled part of the read buffer are never seen *)

Lemma load_range_agree (m1 m2 : list byte) (f : Z) (n : nat) :
  (forall i : Z, 0 <= i < f -> load m1 i = load m2 i) ->
  forall off : Z,
    0 <= off -> off + Z.of_nat n <= f ->
    load_range m1 off n = load_range m2 off n.
Proof.
  intros Hagree. induction n as [|n IH]; intros off Hoff Hend; [reflexivity|].
  cbn [load_range]. rewrite (Hagree off) by lia.
  rewrite (IH (off + 1)) by lia. reflexivity.
Qed.

Section Agreement.

Variables rb1 rb2 : mk2_read_buffer.
Variables user_writable leftover cap : Z.
Hypothesis Hwf : read_buffer_wf rb1.
Hypothesis Hsame : same_filled rb1 rb2.
Hypothesis Hleft : leftover = filled rb1 - copied rb1.
Hypothesis Hcap : 0 <= cap < uint_modulus.

Lemma parse_step_agree (st : parse_state) :
  parse_inv rb1 leftover cap st ->
  rb_index st < leftover ->
  parse_step rb1 user_writable leftover st = parse_step rb2 user_writable leftover st.
Proof.
  intros (k & Hidx & Hle & Hret & Hrem & Hsum & Hout & Hreads) Hlt.
  destruct Hsame as (Hsz & Hfil & Hcop & Hlen & Hload).
  destruct Hwf as (Hcf & Hfs & Hsize & Hmax). rewrite INT_MAX_eq in Hmax.
  unfold parse_step. rewrite <- Hcop, <- (Hload (rb_index st)) by lia.
  destruct (load (data rb1) (rb_index st)) as [status|]; [|reflexivity].
  cbn [retval rb_index rem_size user_out reads].
  destruct (batch_size_of status) as [b|] eqn:Hb; [|reflexivity].
  apply batch_size_of_range in Hb.
  destruct (rem_size st <? b); [reflexivity|].
  unfold MK2_STUFFED_PACKET_SIZE.
  rewrite (to_uint_small (rb_index st + 4)) by (moduli; lia).
  destruct (leftover <? rb_index st + 4) eqn:Hbound; [reflexivity|].
  apply Z.ltb_ge in Hbound.
  rewrite (load_range_agree (data rb1) (data rb2) (filled rb1) (Z.to_nat b) Hload)
    by lia.
  reflexivity.
Qed.

Lemma parse_loop_agree (fuel : nat) :
  forall st : parse_state,
    parse_inv rb1 leftover cap st ->
    parse_loop fuel rb1 user_writable leftover st
    = parse_loop fuel rb2 user_writable leftover st.
Proof.
  induction fuel as [|fuel IH]; intros st Hinv; [reflexivity|].
  cbn [parse_loop]. destruct (rb_index st <? leftover) eqn:Hlt; [|reflexivity].
  apply Z.ltb_lt in Hlt.
  rewrite <- (parse_step_agree st Hinv Hlt).
  pose proof (parse_step_inv rb1 user_writable leftover cap Hwf Hleft Hcap st Hinv Hlt)
    as Hstep.
  destruct (parse_step rb1 user_writable leftover st); try reflexivity.
  apply IH. tauto.
Qed.

End Agreement.

Lemma same_filled_set_copied (rb1 rb2 : mk2_read_buffer) (c : Z) :
  same_filled rb1 rb2 -> same_filled (set_copied rb1 c) (set_copied rb2 c).
Proof.
  intros (Hsz & Hfil & Hcop & Hlen & Hload).
  unfold same_filled. cbn. repeat split; assumption.
Qed.

(** A decode step gives the same result on buffers that agree on their
    filled part, and leaves buffers that still agree. *)
Lemma parse_buffered_data_agree (rb1 rb2 : mk2_read_buffer) (user_writable user_size : Z) :
  read_buffer_wf rb1 ->
  same_filled rb1 rb2 ->
  copied rb1 < filled rb1 ->
  user_size <> 0 ->
  exists (ret : Z) (rb1' rb2' : mk2_read_buffer) (out : list byte) (touched : list Z),
    parse_buffered_data rb1 user_writable user_size = Returned ret rb1' out touched
    /\ parse_buffered_data rb2 user_writable user_size = Returned ret rb2' out touched
    /\ same_filled rb1' rb2'
    /\ read_buffer_wf rb1'
    /\ size rb1' = size rb1.
Proof.
  intros Hwf Hsame Hlt Hus.
  destruct (parse_buffered_data_inv rb1 user_writable user_size Hwf Hlt Hus)
    as (ret & rb1' & out & touched & Hres & _ & Hcases).
  assert (Hcap : 0 <= to_uint user_size < uint_modulus)
    by (apply Z.mod_pos_bound; reflexivity).
  pose proof (parse_loop_agree rb1 rb2 user_writable (filled rb1 - copied rb1)
                (to_uint user_size) Hwf Hsame eq_refl Hcap
                (parse_fuel (filled rb1 - copied rb1)) (parse_init user_size)
                (parse_init_inv rb1 (filled rb1 - copied rb1) user_size ltac:(lia)))
    as Hloop.
  pose proof Hsame as (Hsz & Hfil & Hcop & Hlen & Hload).
  unfold parse_buffered_data in Hres |- *.
  rewrite <- Hfil, <- Hcop.
  destruct (user_size =? 0); [discriminate|].
  destruct (to_size_t (filled rb1 - copied rb1) =? 0); [discriminate|].
  rewrite (leftover_wf rb1 Hwf) in *. rewrite <- Hloop.
  destruct (parse_loop _ rb1 user_writable _ _) as [st|st| |]; try discriminate.
  - injection Hres as <- <- <- <-.
    exists (retval st), (set_copied rb1 (to_size_t (copied rb1 + rb_index st))),
           (set_copied rb2 (to_size_t (copied rb1 + rb_index st))), (user_out st), (reads st).
    split; [reflexivity|]. split; [reflexivity|].
    split; [now apply same_filled_set_copied|].
    destruct Hcases as [[Hf Heq] | (k & Hr & _ & Hout & Heq & Hle)].
    + rewrite Heq. split; [assumption | reflexivity].
    + rewrite Heq. split; [|reflexivity].
      destruct Hwf as (Hcf & Hfs & Hsize & Hmax).
      unfold read_buffer_wf. cbn. repeat split; try assumption; lia.
  - injection Hres as <- <- <- <-.
    exists (- EFAULT), rb1, rb2, (user_out st), (reads st).
    split; [reflexivity|]. split; [reflexivity|].
    split; [assumption|]. split; [assumption | reflexivity].
Qed.

Lemma length_dma_store (d received : list byte) :
  (length received <= length d)%nat ->
  length (take (length d) (received ++ drop (length received) d)) = length d.
Proof. intros H. rewrite length_take, length_app, length_drop. lia. Qed.

Lemma load_dma_store (d received : list byte) (i : Z) :
  0 <= i < Z.of_nat (length received) ->
  (length received <= length d)%nat ->
  load (take (length d) (received ++ drop (length received) d)) i = load received i.
Proof.
  intros Hi Hlen. unfold load. rewrite !decide_True by lia.
  rewrite lookup_take_lt by lia. apply lookup_app_l. lia.
Qed.

(** The completion of the outstanding read transfer. *)
Lemma complete_read_agree (d1 d2 : mk2dev) (u : urb) :
  same_visible d1 d2 ->
  read_endp_ok (read_endp d1) ->
  requested_read (read_endp d1) = true ->
  urb_ok (size (buffer (read_endp d1))) u ->
  snd (complete_read d1 u) = snd (complete_read d2 u)
  /\ same_visible (fst (complete_read d1 u)) (fst (complete_read d2 u))
  /\ read_endp_ok (read_endp (fst (complete_read d1 u)))
  /\ size (buffer (read_endp (fst (complete_read d1 u)))) = size (buffer (read_endp d1)).
Proof.
  intros (Hw & Hd & He & Hr & Hsz & Hfil & Hcop & Hlen & Hload)
         ((Hcf & Hfs & Hsize & Hmax) & Hreq) Hrq (Hact & Hfit).
  destruct (Hreq Hrq) as [Hf0 Hc0].
  unfold complete_read, mk2_read_bulk_callback.
  assert (Hrl : (length (urb_in_data u) <= length (data (buffer (read_endp d1))))%nat) by lia.
  assert (Hrl2 : (length (urb_in_data u) <= length (data (buffer (read_endp d2))))%nat) by lia.
  destruct (urb_status u =? 0); cbn.
  - split; [reflexivity|]. split; [|split; [|reflexivity]].
    + unfold same_visible, same_filled. cbn.
      rewrite !length_dma_store by assumption.
      repeat split; try assumption.
      intros i Hi. rewrite !load_dma_store by (assumption || lia). reflexivity.
    + unfold read_endp_ok, read_buffer_wf. cbn.
      rewrite length_dma_store by assumption.
      split; [|discriminate]. repeat split; try assumption; lia.
  - split; [reflexivity|]. split; [|split; [|reflexivity]].
    + unfold same_visible, same_filled. cbn.
      rewrite !length_dma_store by assumption.
      repeat split; try assumption.
      intros i Hi. lia.
    + unfold read_endp_ok, read_buffer_wf. cbn.
      rewrite length_dma_store by assumption.
      split; [|discriminate]. repeat split; try assumption; lia.
Qed.

(** [mk2_request_read] empties the buffer, whatever it held. *)
Lemma mk2_request_read_agree (d1 d2 : mk2dev) (submit_result count : Z) :
  same_visible d1 d2 ->
  read_endp_ok (read_endp d1) ->
  fst (fst (mk2_request_read d1 submit_result count))
  = fst (fst (mk2_request_read d2 submit_result count))
  /\ snd (mk2_request_read d1 submit_result count)
     = snd (mk2_request_read d2 submit_result count)
  /\ same_visible (snd (fst (mk2_request_read d1 submit_result count)))
                  (snd (fst (mk2_request_read d2 submit_result count)))
  /\ read_endp_ok (read_endp (snd (fst (mk2_request_read d1 submit_result count))))
  /\ size (buffer (read_endp (snd (fst (mk2_request_read d1 submit_result count)))))
     = size (buffer (read_endp d1)).
Proof.
  intros (Hw & Hd & He & Hr & Hsz & Hfil & Hcop & Hlen & Hload)
         ((Hcf & Hfs & Hsize & Hmax) & Hreq).
  unfold mk2_request_read.
  destruct (submit_result <? 0); cbn.
  - split; [reflexivity|]. split; [reflexivity|]. split; [|split; [|reflexivity]].
    + unfold same_visible, same_filled. cbn.
      repeat split; try assumption. intros i Hi. lia.
    + unfold read_endp_ok, read_buffer_wf. cbn.
      split; [|discriminate]. repeat split; try assumption; lia.
  - split; [reflexivity|]. split; [reflexivity|]. split; [|split; [|reflexivity]].
    + unfold same_visible, same_filled. cbn.
      repeat split; try assumption. intros i Hi. lia.
    + unfold read_endp_ok, read_buffer_wf. cbn.
      split; [|split; reflexivity]. repeat split; try assumption; lia.
Qed.

(** Close an [agree_outcome] goal whose two sides are syntactically alike. *)
Ltac agree_done :=
  unfold agree_outcome; cbn [fst snd];
  split; [reflexivity|]; split; [reflexivity|]; split; [reflexivity|];
  split; [assumption|]; split; assumption.

Lemma early_completion_agree (r : retry_env) (d1 d2 : mk2dev) (trace : list event)
    (sz : Z) :
  same_visible d1 d2 ->
  read_endp_ok (read_endp d1) ->
  size (buffer (read_endp d1)) = sz ->
  (forall u : urb, raced r = Some u -> urb_ok sz u) ->
  snd (early_completion r d1 trace) = snd (early_completion r d2 trace)
  /\ same_visible (fst (early_completion r d1 trace)) (fst (early_completion r d2 trace))
  /\ read_endp_ok (read_endp (fst (early_completion r d1 trace)))
  /\ size (buffer (read_endp (fst (early_completion r d1 trace)))) = sz.
Proof.
  intros Hvis Hok Hsz Hraced. unfold early_completion.
  destruct (raced r) as [u|]; [|cbn; tauto].
  assert (Hreq : requested_read (read_endp d1) = requested_read (read_endp d2))
    by apply Hvis.
  rewrite <- Hreq.
  destruct (requested_read (read_endp d1)) eqn:Hrq; [|cbn; tauto].
  destruct (complete_read_agree d1 d2 u Hvis Hok Hrq) as (Htr & Hvis' & Hok' & Hsz').
  { rewrite Hsz. now apply Hraced. }
  destruct (complete_read d1 u) as [d1' ev1], (complete_read d2 u) as [d2' ev2].
  cbn in *. subst ev2. rewrite Hsz' . tauto.
Qed.

Lemma wait_for_read_agree (r : retry_env) (d1 d2 : mk2dev) (nonblock : bool)
    (trace : list event) (sz : Z) :
  same_visible d1 d2 ->
  read_endp_ok (read_endp d1) ->
  size (buffer (read_endp d1)) = sz ->
  (forall u : urb, wait_result r = Wait_completed u -> urb_ok sz u) ->
  match wait_for_read r d1 nonblock trace, wait_for_read r d2 nonblock trace with
  | inr e1, inr e2 => e1 = e2
  | inl (d1', t1), inl (d2', t2) =>
      t1 = t2 /\ same_visible d1' d2' /\ read_endp_ok (read_endp d1')
      /\ size (buffer (read_endp d1')) = sz
  | _, _ => False
  end.
Proof.
  intros Hvis Hok Hsz Hwait. unfold wait_for_read.
  assert (Hreq : requested_read (read_endp d1) = requested_read (read_endp d2))
    by apply Hvis.
  rewrite <- Hreq.
  destruct (requested_read (read_endp d1)) eqn:Hrq; [|tauto].
  destruct nonblock; [reflexivity|].
  destruct (wait_result r) as [|u]; [reflexivity|].
  destruct (complete_read_agree d1 d2 u Hvis Hok Hrq) as (Htr & Hvis' & Hok' & Hsz').
  { rewrite Hsz. now apply Hwait. }
  destruct (complete_read d1 u) as [d1' ev1], (complete_read d2 u) as [d2' ev2].
  cbn in *. subst ev2. rewrite Hsz'. tauto.
Qed.

Lemma serve_read_agree (r : retry_env) (d1 d2 : mk2dev) (user_writable count : Z)
    (trace : list event) (sz : Z) :
  count <> 0 ->
  same_visible d1 d2 ->
  read_endp_ok (read_endp d1) ->
  size (buffer (read_endp d1)) = sz ->
  agree_pass sz (serve_read r d1 user_writable count trace)
                (serve_read r d2 user_writable count trace).
Proof.
  intros Hcount Hvis Hok Hsz.
  pose proof Hvis as (Hw & Hd & He & Hr & Hsame).
  pose proof Hsame as (Hsize & Hfil & Hcop & Hlen & Hload).
  pose proof Hok as (Hwf & Hreq).
  unfold serve_read. rewrite <- He, <- Hfil, <- Hcop.
  destruct (read_errors (read_endp d1) <? 0).
  { cbn [agree_pass]. unfold agree_outcome. cbn.
    repeat (split; [reflexivity|]).
    split; [|split; assumption].
    unfold same_visible. cbn. tauto. }
  rewrite (leftover_wf _ Hwf).
  destruct (filled (buffer (read_endp d1)) - copied (buffer (read_endp d1)) =? 0) eqn:El;
    cbn [negb].
  - (* nothing left: request a transfer *)
    destruct (mk2_request_read_agree d1 d2 (submit_read_result r) count Hvis Hok)
      as (Hrv & Htr & Hvis' & Hok' & Hsz').
    destruct (mk2_request_read d1 (submit_read_result r) count) as [[rv1 d1'] ev1].
    destruct (mk2_request_read d2 (submit_read_result r) count) as [[rv2 d2'] ev2].
    cbn in Hrv, Htr, Hvis', Hok', Hsz'. subst rv2 ev2.
    destruct (rv1 <? 0); cbn [agree_pass].
    + unfold agree_outcome. cbn. repeat (split; [reflexivity|]).
      split; [assumption|]. split; [assumption | congruence].
    + split; [reflexivity|]. split; [assumption|]. split; [assumption | congruence].
  - (* leftover data: decode it *)
    apply Z.eqb_neq in El.
    assert (Hlt : copied (buffer (read_endp d1)) < filled (buffer (read_endp d1))).
    { destruct Hwf as (Hcf & _). lia. }
    destruct (parse_buffered_data_agree _ _ user_writable count Hwf Hsame Hlt Hcount)
      as (ret & rb1' & rb2' & out & touched & Hp1 & Hp2 & Hsame' & Hwf' & Hsz').
    rewrite Hp1, Hp2.
    assert (Hvis' : same_visible (set_read_endp d1 (set_buffer (read_endp d1) rb1'))
                                 (set_read_endp d2 (set_buffer (read_endp d2) rb2'))).
    { unfold same_visible. cbn. tauto. }
    assert (Hok' : read_endp_ok (read_endp (set_read_endp d1
                                              (set_buffer (read_endp d1) rb1')))).
    { split; [exact Hwf'|]. cbn. intros Hrq. destruct (Hreq Hrq). lia. }
    destruct (to_size_t ret <? count).
    + destruct (mk2_request_read_agree _ _ (submit_read_result r)
                  (compute_stuffed_size (to_size_t (count - ret))) Hvis' Hok')
        as (Hrv & Htr & Hvis'' & Hok'' & Hsz'').
      destruct (mk2_request_read (set_read_endp d1 _) _ _) as [[rv1 d1'] ev1].
      destruct (mk2_request_read (set_read_endp d2 _) _ _) as [[rv2 d2'] ev2].
      cbn in Hrv, Htr, Hvis'', Hok'', Hsz''. subst rv2 ev2.
      cbn [agree_pass]. unfold agree_outcome. cbn.
      repeat (split; [reflexivity|]).
      split; [assumption|]. split; [assumption | congruence].
    + cbn [agree_pass]. unfold agree_outcome. cbn.
      repeat (split; [reflexivity|]).
      split; [assumption|]. split; [assumption | congruence].
Qed.

Lemma mk2_read_pass_agree (r : retry_env) (d1 d2 : mk2dev) (nonblock : bool)
    (user_writable count : Z) (trace : list event) (sz : Z) :
  count <> 0 ->
  same_visible d1 d2 ->
  read_endp_ok (read_endp d1) ->
  size (buffer (read_endp d1)) = sz ->
  round_ok sz r ->
  agree_pass sz (mk2_read_pass r d1 nonblock user_writable count trace)
                (mk2_read_pass r d2 nonblock user_writable count trace).
Proof.
  intros Hcount Hvis Hok Hsz [Hraced Hwait]. unfold mk2_read_pass.
  destruct (early_completion_agree r d1 d2 trace sz Hvis Hok Hsz Hraced)
    as (Htr & Hvis' & Hok' & Hsz').
  destruct (early_completion r d1 trace) as [d1' t1].
  destruct (early_completion r d2 trace) as [d2' t2].
  cbn in Htr, Hvis', Hok', Hsz'. subst t2.
  pose proof (wait_for_read_agree r d1' d2' nonblock t1 sz Hvis' Hok' Hsz' Hwait) as Hw.
  destruct (wait_for_read r d1' nonblock t1) as [[d1'' t1']|e1];
    destruct (wait_for_read r d2' nonblock t1) as [[d2'' t2']|e2]; try contradiction.
  - destruct Hw as (-> & Hvis'' & Hok'' & Hsz'').
    now apply serve_read_agree.
  - subst e2. cbn [agree_pass]. agree_done.
Qed.

Lemma mk2_read_retry_agree (nonblock : bool) (user_writable count sz : Z)
    (rounds : list retry_env) :
  count <> 0 ->
  forall (d1 d2 : mk2dev) (trace : list event),
    same_visible d1 d2 ->
    read_endp_ok (read_endp d1) ->
    size (buffer (read_endp d1)) = sz ->
    Forall (round_ok sz) rounds ->
    agree_outcome sz
      (mk2_read_retry rounds d1 nonblock user_writable count trace)
      (mk2_read_retry rounds d2 nonblock user_writable count trace).
Proof.
  intros Hcount. induction rounds as [|r rounds IH];
    intros d1 d2 trace Hvis Hok Hsz Hrounds.
  - agree_done.
  - apply Forall_cons in Hrounds as [Hr Hrounds].
    cbn [mk2_read_retry].
    pose proof (mk2_read_pass_agree r d1 d2 nonblock user_writable count trace sz
                  Hcount Hvis Hok Hsz Hr) as Hpass.
    destruct (mk2_read_pass r d1 nonblock user_writable count trace) as [o1|d1' t1];
      destruct (mk2_read_pass r d2 nonblock user_writable count trace) as [o2|d2' t2];
      try contradiction.
    + exact Hpass.
    + destruct Hpass as (-> & Hvis' & Hok' & Hsz'). now apply IH.
Qed.

Lemma mk2_read_agree (d1 d2 : mk2dev) (nonblock : bool) (env : read_env)
    (user_writable count : Z) (sz : Z) :
  same_visible d1 d2 ->
  read_endp_ok (read_endp d1) ->
  size (buffer (read_endp d1)) = sz ->
  Forall (round_ok sz) (rounds env) ->
  agree_outcome sz (mk2_read d1 nonblock env user_writable count)
                   (mk2_read d2 nonblock env user_writable count).
Proof.
  intros Hvis Hok Hsz Hrounds. unfold mk2_read.
  destruct (count <? MK2_SYSEX_PACKET_SIZE) eqn:E3; [agree_done|].
  destruct (lock_result env <? 0); [agree_done|].
  assert (Hd : disconnected d1 = disconnected d2) by apply Hvis.
  rewrite <- Hd. destruct (disconnected d1); [agree_done|].
  apply mk2_read_retry_agree; try assumption.
  apply Z.ltb_ge in E3. unfold MK2_SYSEX_PACKET_SIZE in E3. lia.
Qed.

Lemma same_visible_set_write_endp (d1 d2 : mk2dev) (ep : mk2_write_endp) :
  same_visible d1 d2 -> same_visible (set_write_endp d1 ep) (set_write_endp d2 ep).
Proof. unfold same_visible. cbn. tauto. Qed.

(** [mk2_write] looks at the write channel and the [disconnected] flag
    only. *)
Lemma mk2_write_agree (d1 d2 : mk2dev) (nonblock : bool) (env : write_env)
    (user : list byte) (count : Z) :
  same_visible d1 d2 ->
  fst (fst (mk2_write d1 nonblock env user count))
  = fst (fst (mk2_write d2 nonblock env user count))
  /\ snd (mk2_write d1 nonblock env user count) = snd (mk2_write d2 nonblock env user count)
  /\ same_visible (snd (fst (mk2_write d1 nonblock env user count)))
                  (snd (fst (mk2_write d2 nonblock env user count)))
  /\ read_endp (snd (fst (mk2_write d1 nonblock env user count))) = read_endp d1.
Proof.
  intros Hvis. pose proof Hvis as (Hw & Hd & _).
  unfold mk2_write, write_error. rewrite <- Hw, <- Hd.
  repeat match goal with
         | |- context [if ?c then _ else _] => destruct c
         | |- context [match ?c with inl _ => _ | inr _ => _ end] => destruct c
         | |- context [match ?c with Some _ => _ | None => _ end] => destruct c
         end;
    cbn [fst snd]; (split; [reflexivity|]); (split; [reflexivity|]);
    (split; [first [assumption | now apply same_visible_set_write_endp] | reflexivity]).
Qed.

Lemma step_agree (o : op) (d1 d2 : mk2dev) (sz : Z) :
  same_visible d1 d2 ->
  read_endp_ok (read_endp d1) ->
  size (buffer (read_endp d1)) = sz ->
  op_ok sz o ->
  snd (step o d1) = snd (step o d2)
  /\ same_visible (fst (step o d1)) (fst (step o d2))
  /\ read_endp_ok (read_endp (fst (step o d1)))
  /\ size (buffer (read_endp (fst (step o d1)))) = sz.
Proof.
  intros Hvis Hok Hsz Hop. destruct o as [nb env uw c | u | nb env user c | u |]; cbn [step].
  - pose proof (mk2_read_agree d1 d2 nb env uw c sz Hvis Hok Hsz Hop) as Hag.
    destruct (mk2_read d1 nb env uw c) as [[[res1 d1'] out1] tr1].
    destruct (mk2_read d2 nb env uw c) as [[[res2 d2'] out2] tr2].
    unfold agree_outcome in Hag. cbn in Hag |- *.
    destruct Hag as (-> & -> & -> & Hvis' & Hok' & Hsz'). tauto.
  - assert (Hreq : requested_read (read_endp d1) = requested_read (read_endp d2))
      by apply Hvis.
    rewrite <- Hreq.
    destruct (requested_read (read_endp d1)) eqn:Hrq; [|cbn; tauto].
    destruct (complete_read_agree d1 d2 u Hvis Hok Hrq) as (Htr & Hvis' & Hok' & Hsz').
    { rewrite Hsz. exact Hop. }
    destruct (complete_read d1 u) as [d1' ev1], (complete_read d2 u) as [d2' ev2].
    cbn in *. subst ev2. rewrite Hsz'. tauto.
  - destruct (mk2_write_agree d1 d2 nb env user c Hvis) as (Hres & Htr & Hvis' & Hre).
    destruct (mk2_write d1 nb env user c) as [[res1 d1'] tr1].
    destruct (mk2_write d2 nb env user c) as [[res2 d2'] tr2].
    cbn in *. subst res2 tr2. rewrite Hre. tauto.
  - unfold mk2_write_bulk_callback.
    assert (Hw : write_endp d1 = write_endp d2) by apply Hvis.
    rewrite <- Hw.
    destruct (urb_status u =? 0); cbn;
      (split; [reflexivity|]); (split; [now apply same_visible_set_write_endp | tauto]).
  - cbn. split; [reflexivity|]. split; [|tauto].
    unfold same_visible in *. cbn. tauto.
Qed.

(** Devices that differ only outside the filled part of the read buffer
    cannot be told apart, whatever is done with them. *)
Lemma run_agree (sz : Z) (ops : list op) :
  forall d1 d2 : mk2dev,
    same_visible d1 d2 ->
    read_endp_ok (read_endp d1) ->
    size (buffer (read_endp d1)) = sz ->
    Forall (op_ok sz) ops ->
    run ops d1 = run ops d2.
Proof.
  induction ops as [|o ops IH]; intros d1 d2 Hvis Hok Hsz Hops; [reflexivity|].
  apply Forall_cons in Hops as [Ho Hops].
  cbn [run].
  destruct (step_agree o d1 d2 sz Hvis Hok Hsz Ho) as (Hobs & Hvis' & Hok' & Hsz').
  destruct (step o d1) as [d1' obs1], (step o d2) as [d2' obs2].
  cbn in *. subst obs2. f_equal. now apply IH.
Qed.

(** ** The prefetch after a partial drain *)

Lemma mk2_request_read_effect (dev : mk2dev) (submit_result count : Z) :
  let dev' := snd (fst (mk2_request_read dev submit_result count)) in
  snd (mk2_request_read dev submit_result count)
  = Usb_submit_read_urb true 0 0 :: (if submit_result <? 0 then [Dev_err] else [])
  /\ filled (buffer (read_endp dev')) = 0
  /\ copied (buffer (read_endp dev')) = 0
  /\ requested_read (read_endp dev') = negb (submit_result <? 0)
  /\ data (buffer (read_endp dev')) = data (buffer (read_endp dev))
  /\ size (buffer (read_endp dev')) = size (buffer (read_endp dev)).
Proof.
  unfold mk2_request_read. destruct (submit_result <? 0); cbn; repeat split; reflexivity.
Qed.



(** * Further properties of the codec *)

(** [stuff_buffer] overwrites every byte of the buffer [mk2_write] gives
    it: for a payload that is not empty the call succeeds, the frame has
    [compute_stuffed_size] bytes and does not depend on what the buffer
    held before. *)
Theorem stuff_buffer_overwrites_buffer (payload buf1 buf2 : list byte) :
  payload <> [] ->
  Z.of_nat (length payload) <= PTRDIFF_MAX ->
  Z.of_nat (length buf1) = compute_stuffed_size (Z.of_nat (length payload)) ->
  Z.of_nat (length buf2) = compute_stuffed_size (Z.of_nat (length payload)) ->
  exists frame : list byte,
    stuff_buffer buf1 (compute_stuffed_size (Z.of_nat (length payload))) payload
                 (Z.of_nat (length payload)) = Some frame
    /\ stuff_buffer buf2 (compute_stuffed_size (Z.of_nat (length payload))) payload
                    (Z.of_nat (length payload)) = Some frame
    /\ Z.of_nat (length frame) = compute_stuffed_size (Z.of_nat (length payload)).
Proof.
  intros Hne Hmax Hb1 Hb2. exists (encode payload).
  split; [now apply stuff_buffer_encode|].
  split; [now apply stuff_buffer_encode|].
  rewrite length_encode. symmetry. apply compute_stuffed_size_exact; [lia|].
  rewrite PTRDIFF_MAX_eq in Hmax. moduli. Z.div_mod_to_equations. lia.
Qed.

Lemma stuff_buffer_overwrites_buffer_witness :
  exists frame : list byte,
    stuff_buffer (repeat Byte.x00 8) (compute_stuffed_size 4)
                 [Byte.x10; Byte.x20; Byte.x30; Byte.x40] 4 = Some frame
    /\ stuff_buffer (repeat Byte.xff 8) (compute_stuffed_size 4)
                    [Byte.x10; Byte.x20; Byte.x30; Byte.x40] 4 = Some frame
    /\ Z.of_nat (length frame) = compute_stuffed_size 4.
Proof.
  apply (stuff_buffer_overwrites_buffer [Byte.x10; Byte.x20; Byte.x30; Byte.x40]
           (repeat Byte.x00 8) (repeat Byte.xff 8)).
  - discriminate.
  - vm_compute. discriminate.
  - reflexivity.
  - reflexivity.
Defined.

(** The packets of the frame of a payload of [k] whole groups and [r]
    more bytes, [r] being 1 or 2. *)
Lemma encode_packets_tail (k : nat) :
  forall (payload : list byte) (i r : nat),
    length payload = (3 * k + r)%nat ->
    (1 <= r <= 2)%nat ->
    (i <= k)%nat ->
    take 4 (drop (4 * i) (encode payload))
    = if decide (i = k)
      then (if decide (r = 1%nat) then MK2_SYSEX_DATAEND1 else MK2_SYSEX_DATAEND2)
             :: drop (3 * k) payload ++ repeat Byte.x00 (3 - r)
      else MK2_SYSEX_MOREDATA :: take 3 (drop (3 * i) payload).
Proof.
  induction k as [|k IH]; intros payload i r Hlen Hr Hi.
  - assert (i = 0%nat) as -> by lia. rewrite decide_True by reflexivity.
    destruct payload as [|b0 [|b1 [|]]]; simpl in Hlen; try lia.
    + assert (r = 1%nat) as -> by lia. reflexivity.
    + assert (r = 2%nat) as -> by lia. reflexivity.
  - destruct payload as [|b0 [|b1 [|b2 [|b3 rest]]]]; simpl in Hlen; try lia.
    rewrite encode_cons3 by discriminate.
    destruct i as [|i].
    + rewrite decide_False by lia. reflexivity.
    + replace (4 * S i)%nat with (S (S (S (S (4 * i))))) by lia.
      replace (3 * S i)%nat with (S (S (S (3 * i)))) by lia.
      replace (3 * S k)%nat with (S (S (S (3 * k)))) by lia.
      cbn [drop]. rewrite (IH (b3 :: rest) i r) by (simpl; lia).
      destruct (decide (i = k)) as [Hik|Hik]; destruct (decide (S i = S k)) as [Hsik|Hsik];
        try lia; try reflexivity.
Qed.

(** For a payload of [3 k + r] bytes with [r] 1 or 2, the frame has
    [k + 1] packets: [k] [MOREDATA] packets with three payload bytes each
    and a last packet [DATAEND1] or [DATAEND2] with the remaining [r]
    bytes, padded with zero bytes to four. *)
Theorem stuff_buffer_partial_group (payload buf : list byte) (k r : nat) :
  length payload = (3 * k + r)%nat ->
  (1 <= r <= 2)%nat ->
  Z.of_nat (length payload) <= PTRDIFF_MAX ->
  Z.of_nat (length buf) = compute_stuffed_size (Z.of_nat (length payload)) ->
  exists frame : list byte,
    stuff_buffer buf (compute_stuffed_size (Z.of_nat (length payload))) payload
                 (Z.of_nat (length payload)) = Some frame
    /\ length frame = (4 * (k + 1))%nat
    /\ (forall i : nat, (i < k)%nat ->
          packet i frame = MK2_SYSEX_MOREDATA :: take 3 (drop (3 * i) payload))
    /\ packet k frame
       = (if decide (r = 1%nat) then MK2_SYSEX_DATAEND1 else MK2_SYSEX_DATAEND2)
           :: drop (3 * k) payload ++ repeat Byte.x00 (3 - r).
Proof.
  intros Hlen Hr Hmax Hbuf. exists (encode payload).
  assert (Hne : payload <> []) by (intros ->; simpl in Hlen; lia).
  split; [now apply stuff_buffer_encode|].
  split.
  { apply Nat2Z.inj. rewrite length_encode, Hlen. Z.div_mod_to_equations. lia. }
  split.
  - intros i Hi. unfold packet.
    rewrite (encode_packets_tail k payload i r) by (assumption || lia).
    now rewrite decide_False by lia.
  - unfold packet.
    rewrite (encode_packets_tail k payload k r) by (assumption || lia).
    now rewrite decide_True by reflexivity.
Qed.

Lemma stuff_buffer_partial_group_witness :
  let payload := [Byte.x01; Byte.x02; Byte.x03; Byte.x04; Byte.x05] in
  exists frame : list byte,
    stuff_buffer (repeat Byte.xff 8) (compute_stuffed_size 5) payload 5 = Some frame
    /\ length frame = (4 * (1 + 1))%nat
    /\ (forall i : nat, (i < 1)%nat ->
          packet i frame = MK2_SYSEX_MOREDATA :: take 3 (drop (3 * i) payload))
    /\ packet 1 frame
       = (if decide (2%nat = 1%nat) then MK2_SYSEX_DATAEND1 else MK2_SYSEX_DATAEND2)
           :: drop (3 * 1) payload ++ repeat Byte.x00 (3 - 2).
Proof.
  apply (stuff_buffer_partial_group
           [Byte.x01; Byte.x02; Byte.x03; Byte.x04; Byte.x05] (repeat Byte.xff 8) 1 2).
  - reflexivity.
  - lia.
  - vm_compute. discriminate.
  - reflexivity.
Defined.

(** Without a payload [stuff_buffer] has no packet to re-label: with
    [count = 0] its only store goes to [buf[oi - 4]] with [oi = 0], outside
    any buffer.  [mk2_write] never makes that call: with a count of 0 it
    returns at once, and whenever it gets as far as the copy of the
    caller's data, the step before [stuff_buffer], the count it passes on
    is between 1 and 407. *)
Theorem stuff_buffer_empty_payload_undefined (buf user_buffer : list byte)
    (stuffed_size : Z) (dev : mk2dev) (nonblock : bool) (env : write_env)
    (user : list byte) (count : Z) :
  Z.of_nat (length buf) <= PTRDIFF_MAX ->
  0 <= count ->
  stuff_buffer buf stuffed_size user_buffer 0 = None
  /\ mk2_write dev nonblock env user 0 = (Ret 0, dev, [])
  /\ forall n : Z,
       In (Memdup_user n) (snd (mk2_write dev nonblock env user count)) ->
       0 < n <= USB_MK2_MAX_OUT_LEN.
Proof.
  intros Hmax Hcount. rewrite PTRDIFF_MAX_eq in Hmax.
  split; [|split; [reflexivity|]].
  - unfold stuff_buffer.
    change (0 / 3) with 0. change (0 mod 3) with 0.
    change (Z.to_nat 0) with 0%nat. cbn [stuff_loop]. cbn.
    change (to_size_t (0 - 4)) with 18446744073709551612.
    unfold store. rewrite decide_False by lia. reflexivity.
  - intros n Hin. unfold mk2_write, write_error in Hin.
    destruct (count =? 0) eqn:E0; [destruct Hin|]. apply Z.eqb_neq in E0.
    assert (Hc : 0 < Z.min count USB_MK2_MAX_OUT_LEN <= USB_MK2_MAX_OUT_LEN)
      by (unfold USB_MK2_MAX_OUT_LEN; lia).
    set (c := Z.min count USB_MK2_MAX_OUT_LEN) in *.
    repeat match type of Hin with
           | context [if ?b then _ else _] => destruct b
           | context [match ?x with inl _ => _ | inr _ => _ end] => destruct x
           | context [match ?x with Some _ => _ | None => _ end] => destruct x
           end;
      cbn in Hin;
      repeat (destruct Hin as [Hin|Hin]; [try discriminate; injection Hin as <-; exact Hc|]);
      destruct Hin.
Qed.

Lemma stuff_buffer_empty_payload_undefined_witness :
  stuff_buffer (repeat Byte.x00 8) 8 [] 0 = None
  /\ mk2_write idle_dev true willing_env [Byte.x90; Byte.x3c; Byte.x7f] 0
     = (Ret 0, idle_dev, [])
  /\ forall n : Z,
       In (Memdup_user n)
          (snd (mk2_write idle_dev true willing_env [Byte.x90; Byte.x3c; Byte.x7f] 3)) ->
       0 < n <= USB_MK2_MAX_OUT_LEN.
Proof.
  apply (stuff_buffer_empty_payload_undefined (repeat Byte.x00 8) [] 8 idle_dev true
           willing_env [Byte.x90; Byte.x3c; Byte.x7f] 3).
  - vm_compute. discriminate.
  - lia.
Defined.

(** The size of the transfer buffer, for the lengths [mk2_write] passes:
    a whole number of packets, room for the payload with at most one
    packet to spare, never more than 544 bytes, and growing with the
    payload. *)
Theorem compute_stuffed_size_bounds (L L' : Z) :
  0 <= L <= L' ->
  L' <= USB_MK2_MAX_OUT_LEN ->
  compute_stuffed_size L mod MK2_STUFFED_PACKET_SIZE = 0
  /\ 4 * L <= 3 * compute_stuffed_size L <= 4 * L + 8
  /\ compute_stuffed_size L <= compute_stuffed_size L'
  /\ compute_stuffed_size L' <= 544.
Proof.
  intros HL HL'. unfold USB_MK2_MAX_OUT_LEN, MK2_STUFFED_PACKET_SIZE in *.
  rewrite (compute_stuffed_size_exact L)
    by (try lia; moduli; Z.div_mod_to_equations; lia).
  rewrite (compute_stuffed_size_exact L')
    by (try lia; moduli; Z.div_mod_to_equations; lia).
  repeat split; Z.div_mod_to_equations; lia.
Qed.

Lemma compute_stuffed_size_bounds_witness :
  compute_stuffed_size 7 mod MK2_STUFFED_PACKET_SIZE = 0
  /\ 4 * 7 <= 3 * compute_stuffed_size 7 <= 4 * 7 + 8
  /\ compute_stuffed_size 7 <= compute_stuffed_size 407
  /\ compute_stuffed_size 407 <= 544.
Proof.
  apply (compute_stuffed_size_bounds 7 407); unfold USB_MK2_MAX_OUT_LEN; lia.
Defined.

Lemma roundtrip_with_remainder_witness :
  exists (frame : list byte) (touched : list Z),
    stuff_buffer (repeat Byte.x00 8) (compute_stuffed_size 5)
                 [Byte.x01; Byte.x02; Byte.x03; Byte.x04; Byte.x05] 5 = Some frame
    /\ Z.of_nat (length frame) = compute_stuffed_size 5
    /\ let rb := {| data := frame; size := compute_stuffed_size 5;
                    filled := compute_stuffed_size 5; copied := 0 |} in
       parse_buffered_data rb 5 5
       = Returned 5 (set_copied rb (compute_stuffed_size 5))
                  [Byte.x01; Byte.x02; Byte.x03; Byte.x04; Byte.x05] touched.
Proof.
  apply (roundtrip_with_remainder [Byte.x01; Byte.x02; Byte.x03; Byte.x04; Byte.x05]
           (repeat Byte.x00 8)).
  - cbn. unfold USB_MK2_MAX_OUT_LEN. lia.
  - cbn. discriminate.
  - reflexivity.
Defined.

(** * Further properties of the decoder *)

Lemma parse_step_break (rb : mk2_read_buffer) (user_writable leftover : Z)
    (st st' : parse_state) :
  parse_step rb user_writable leftover st = Break st' ->
  exists (status : byte) (b : Z),
    load (data rb) (rb_index st) = Some status
    /\ batch_size_of status = Some b
    /\ rem_size st < b.
Proof.
  unfold parse_step.
  destruct (load (data rb) (rb_index st)) as [status|]; [|discriminate].
  destruct (batch_size_of status) as [b|] eqn:Hb; [|discriminate].
  cbn [rem_size rb_index].
  destruct (rem_size st <? b) eqn:E.
  - intros _. exists status, b. apply Z.ltb_lt in E.
    split; [reflexivity|]. split; assumption.
  - destruct (leftover <? _); [discriminate|].
    destruct (load_range _ _ _); [|discriminate].
    destruct (copy_to_user_ok _ _ _); discriminate.
Qed.

Lemma parse_step_fault (rb : mk2_read_buffer) (user_writable leftover : Z)
    (st st' : parse_state) :
  parse_step rb user_writable leftover st = Fault st' ->
  exists status : byte,
    load (data rb) (rb_index st) = Some status
    /\ (batch_size_of status = None
        \/ exists b : Z,
             batch_size_of status = Some b
             /\ b <= rem_size st
             /\ (leftover < to_uint (rb_index st + MK2_STUFFED_PACKET_SIZE)
                 \/ (b <> 0 /\ user_writable < Z.of_nat (length (user_out st)) + b))).
Proof.
  unfold parse_step.
  destruct (load (data rb) (rb_index st)) as [status|]; [|discriminate].
  intros H. exists status. split; [reflexivity|].
  destruct (batch_size_of status) as [b|] eqn:Hb; [|now left].
  right. exists b. split; [reflexivity|].
  cbn [rem_size rb_index user_out] in H.
  destruct (rem_size st <? b) eqn:E; [discriminate|]. apply Z.ltb_ge in E.
  split; [assumption|].
  destruct (leftover <? _) eqn:Eb; [left; now apply Z.ltb_lt in Eb|].
  destruct (load_range _ _ _); [|discriminate].
  unfold copy_to_user_ok in H. cbn [user_out] in H.
  destruct (b =? 0) eqn:E0; [discriminate|].
  destruct (_ <=? user_writable) eqn:Ew; [discriminate|].
  right. apply Z.eqb_neq in E0. apply Z.leb_gt in Ew. split; assumption.
Qed.

Section DecodingOutcome.

Variable rb : mk2_read_buffer.
Variables user_writable leftover cap : Z.
Hypothesis Hwf : read_buffer_wf rb.
Hypothesis Hleft : leftover = filled rb - copied rb.
Hypothesis Hcap : 0 <= cap < uint_modulus.

(** The loop never moves [rb_index] backwards. *)
Lemma parse_loop_done_mono (fuel : nat) :
  forall st st' : parse_state,
    parse_inv rb leftover cap st ->
    parse_loop fuel rb user_writable leftover st = Loop_done st' ->
    rb_index st <= rb_index st'.
Proof.
  induction fuel as [|fuel IH]; intros st st' Hinv Hrun; [discriminate|].
  cbn [parse_loop] in Hrun.
  destruct (rb_index st <? leftover) eqn:Hlt;
    [|injection Hrun as <-; lia].
  apply Z.ltb_lt in Hlt.
  pose proof (parse_step_inv rb user_writable leftover cap Hwf Hleft Hcap st Hinv Hlt)
    as Hstep.
  destruct (parse_step rb user_writable leftover st) as [st1|st1|st1|];
    try discriminate.
  - destruct Hstep as [Hinv1 Hidx]. specialize (IH st1 st' Hinv1 Hrun). lia.
  - destruct Hstep as [_ Hidx]. injection Hrun as <-. lia.
Qed.

(** With room for a whole packet the loop does not stop before it has
    consumed one. *)
Lemma parse_loop_progress (fuel : nat) (st st' : parse_state) :
  parse_inv rb leftover cap st ->
  3 <= rem_size st ->
  rb_index st < leftover ->
  parse_loop fuel rb user_writable leftover st = Loop_done st' ->
  rb_index st + 4 <= rb_index st'.
Proof.
  intros Hinv Hrem Hlt Hrun. destruct fuel as [|fuel]; [discriminate|].
  cbn [parse_loop] in Hrun.
  replace (rb_index st <? leftover) with true in Hrun by (symmetry; now apply Z.ltb_lt).
  pose proof (parse_step_inv rb user_writable leftover cap Hwf Hleft Hcap st Hinv Hlt)
    as Hstep.
  destruct (parse_step rb user_writable leftover st) as [st1|st1|st1|] eqn:Hs;
    try discriminate.
  - destruct Hstep as [Hinv1 Hidx].
    pose proof (parse_loop_done_mono fuel st1 st' Hinv1 Hrun). lia.
  - destruct (parse_step_break _ _ _ _ _ Hs) as (status & b & _ & Hb & Hsmall).
    apply batch_size_of_range in Hb. lia.
Qed.

(** With a caller's buffer that is writable for the whole capacity, a
    fault the loop reports is one of the packet it has come to. *)
Lemma parse_loop_fault_cause (st0 : parse_state) (fuel : nat) :
  cap <= user_writable ->
  forall st st' : parse_state,
    reaches rb user_writable leftover st0 st ->
    parse_inv rb leftover cap st ->
    parse_loop fuel rb user_writable leftover st = Loop_fault st' ->
    exists (stf : parse_state) (status : byte),
      reaches rb user_writable leftover st0 stf
      /\ rb_index stf < leftover
      /\ load (data rb) (rb_index stf) = Some status
      /\ (batch_size_of status = None
          \/ exists b : Z,
               batch_size_of status = Some b
               /\ b <= rem_size stf
               /\ leftover < rb_index stf + MK2_STUFFED_PACKET_SIZE).
Proof.
  intros Hroom. induction fuel as [|fuel IH]; intros st st' Hreach Hinv Hrun;
    [discriminate|].
  cbn [parse_loop] in Hrun.
  destruct (rb_index st <? leftover) eqn:Hlt; [|discriminate].
  apply Z.ltb_lt in Hlt.
  pose proof (parse_step_inv rb user_writable leftover cap Hwf Hleft Hcap st Hinv Hlt)
    as Hstep.
  destruct (parse_step rb user_writable leftover st) as [st1|st1|st1|] eqn:Hs;
    try discriminate.
  - destruct Hstep as [Hinv1 _].
    apply (IH st1 st'); try assumption.
    eapply reaches_next; eassumption.
  - destruct (parse_step_fault _ _ _ _ _ Hs) as (status & Hload & Hcause).
    exists st, status. split; [assumption|]. split; [assumption|].
    split; [assumption|].
    destruct Hcause as [Hnone | (b & Hb & Hfit & Hwhy)]; [now left|].
    right. exists b. split; [assumption|]. split; [assumption|].
    destruct Hinv as (k & Hidx & Hle & Hret & Hrem & Hsum & Hout & _).
    destruct Hwf as (Hcf & Hfs & Hsz & Hmax). rewrite INT_MAX_eq in Hmax.
    unfold MK2_STUFFED_PACKET_SIZE in *.
    rewrite to_uint_small in Hwhy by (moduli; lia).
    destruct Hwhy as [Hbound | [_ Hfull]]; [assumption | lia].
Qed.

End DecodingOutcome.

(** A decode step on a well-formed buffer with leftover data always
    returns; it reads the buffer only inside its filled part, stores at
    most [user_size] bytes for the caller, and either reports a fault and
    leaves the buffer alone, or returns the number of bytes it stored and
    has moved [copied] forward by whole packets, not past [filled]. *)
Theorem parse_buffered_data_safe (rb : mk2_read_buffer) (user_writable user_size : Z) :
  read_buffer_wf rb ->
  copied rb < filled rb ->
  0 < user_size ->
  exists (ret : Z) (rb' : mk2_read_buffer) (out : list byte) (touched : list Z),
    parse_buffered_data rb user_writable user_size = Returned ret rb' out touched
    /\ Forall (in_filled rb) touched
    /\ Z.of_nat (length out) <= user_size
    /\ ((ret = - EFAULT /\ rb' = rb)
        \/ (ret = Z.of_nat (length out)
            /\ exists k : nat,
                 rb' = set_copied rb (copied rb + 4 * Z.of_nat k)
                 /\ copied rb + 4 * Z.of_nat k <= filled rb)).
Proof.
  intros Hwf Hlt Hus.
  assert (Hcap : 0 <= to_uint user_size < uint_modulus)
    by (apply Z.mod_pos_bound; reflexivity).
  assert (Hle : to_uint user_size <= user_size)
    by (unfold to_uint; apply Z.mod_le; [lia | reflexivity]).
  pose proof (parse_loop_inv rb user_writable (filled rb - copied rb) (to_uint user_size)
                Hwf eq_refl Hcap (parse_fuel (filled rb - copied rb))
                (parse_init user_size)
                (parse_init_inv rb (filled rb - copied rb) user_size ltac:(lia)))
    as Hloop.
  unfold parse_fuel in Hloop. cbn [rb_index parse_init] in Hloop.
  specialize (Hloop ltac:(lia)).
  unfold parse_buffered_data. rewrite (leftover_wf rb Hwf).
  destruct (user_size =? 0) eqn:E0; [apply Z.eqb_eq in E0; lia|].
  destruct (filled rb - copied rb =? 0) eqn:E1; [apply Z.eqb_eq in E1; lia|].
  unfold parse_fuel.
  destruct (parse_loop _ rb user_writable _ _) as [st|st| |]; try contradiction;
    destruct Hloop as (k & Hidx & Hin & Hret & Hrem & Hsum & Hout & Hreads).
  - exists (retval st), (set_copied rb (to_size_t (copied rb + rb_index st))),
           (user_out st), (reads st).
    split; [reflexivity|]. split; [assumption|]. split; [lia|]. right.
    split; [now symmetry|]. exists k.
    destruct Hwf as (Hcf & Hfs & Hsz & Hmax). rewrite INT_MAX_eq in Hmax.
    rewrite to_size_t_small by (moduli; lia). rewrite Hidx. split; [reflexivity | lia].
  - exists (- EFAULT), rb, (user_out st), (reads st).
    split; [reflexivity|]. split; [assumption|]. split; [lia|]. now left.
Qed.

Lemma parse_buffered_data_safe_witness :
  let rb := buffer (read_endp frame7_dev) in
  exists (ret : Z) (rb' : mk2_read_buffer) (out : list byte) (touched : list Z),
    parse_buffered_data rb 5 5 = Returned ret rb' out touched
    /\ Forall (in_filled rb) touched
    /\ Z.of_nat (length out) <= 5
    /\ ((ret = - EFAULT /\ rb' = rb)
        \/ (ret = Z.of_nat (length out)
            /\ exists k : nat,
                 rb' = set_copied rb (copied rb + 4 * Z.of_nat k)
                 /\ copied rb + 4 * Z.of_nat k <= filled rb)).
Proof.
  apply (parse_buffered_data_safe (buffer (read_endp frame7_dev)) 5 5).
  - unfold read_buffer_wf. cbn. rewrite INT_MAX_eq. lia.
  - cbn. lia.
  - lia.
Defined.

(** Forward progress.  The decoder keeps the capacity in an [unsigned]
    counter, [user_size mod 2^32]; when that is at least 3 a decode step
    never returns without result -- it reports a fault or it has consumed
    at least one packet, so [copied] has grown by at least 4.  The check
    [count >= 3] of [mk2_read] ensures this for every count below
    [2^32]. *)
Theorem parse_buffered_data_progress (rb rb' : mk2_read_buffer)
    (user_writable user_size ret : Z) (out : list byte) (touched : list Z) :
  read_buffer_wf rb ->
  copied rb < filled rb ->
  3 <= to_uint user_size ->
  parse_buffered_data rb user_writable user_size = Returned ret rb' out touched ->
  ret = - EFAULT \/ copied rb + MK2_STUFFED_PACKET_SIZE <= copied rb'.
Proof.
  intros Hwf Hlt Hus Hres.
  assert (Hcap : 0 <= to_uint user_size < uint_modulus)
    by (apply Z.mod_pos_bound; reflexivity).
  unfold parse_buffered_data in Hres. rewrite (leftover_wf rb Hwf) in Hres.
  destruct (user_size =? 0); [discriminate|].
  destruct (filled rb - copied rb =? 0); [discriminate|].
  destruct (parse_loop _ rb user_writable _ _) as [st|st| |] eqn:Hrun; try discriminate.
  - right. injection Hres as <- <- <- <-. cbn [copied set_copied].
    pose proof (parse_loop_progress rb user_writable (filled rb - copied rb)
                  (to_uint user_size) Hwf eq_refl Hcap
                  (parse_fuel (filled rb - copied rb)) (parse_init user_size) st
                  (parse_init_inv rb (filled rb - copied rb) user_size ltac:(lia)))
      as Hprog.
    cbn [rem_size rb_index parse_init] in Hprog.
    specialize (Hprog Hus ltac:(lia) Hrun).
    pose proof (parse_loop_inv rb user_writable (filled rb - copied rb) (to_uint user_size)
                  Hwf eq_refl Hcap (parse_fuel (filled rb - copied rb))
                  (parse_init user_size)
                  (parse_init_inv rb (filled rb - copied rb) user_size ltac:(lia)))
      as Hloop.
    unfold parse_fuel in Hloop, Hrun. cbn [rb_index parse_init] in Hloop.
    specialize (Hloop ltac:(lia)). rewrite Hrun in Hloop.
    destruct Hloop as (k & Hidx & Hin & _).
    destruct Hwf as (Hcf & Hfs & Hsz & Hmax). rewrite INT_MAX_eq in Hmax.
    rewrite to_size_t_small by (moduli; lia).
    unfold MK2_STUFFED_PACKET_SIZE. cbn [parse_init rb_index] in Hprog. lia.
  - left. now injection Hres as <- _ _ _.
Qed.

Lemma parse_buffered_data_progress_witness :
  3 = - EFAULT
  \/ copied (buffer (read_endp frame7_dev)) + MK2_STUFFED_PACKET_SIZE
     <= copied (set_copied (buffer (read_endp frame7_dev)) 4).
Proof.
  apply (parse_buffered_data_progress (buffer (read_endp frame7_dev))
           (set_copied (buffer (read_endp frame7_dev)) 4) 4 4 3
           [Byte.x61; Byte.x62; Byte.x63] [0; 1; 2; 3; 4]).
  - unfold read_buffer_wf. cbn. rewrite INT_MAX_eq. lia.
  - cbn. lia.
  - vm_compute. discriminate.
  - reflexivity.
Defined.

(** Beyond [2^32] the check of [mk2_read] no longer bounds the counter: a
    capacity of [2^32] leaves it at 0, and the decode step stops at the
    first packet, returning 0 with nothing consumed. *)
Lemma capacity_counter_truncates :
  let rb := buffer (read_endp frame7_dev) in
  3 <= 4294967296
  /\ to_uint 4294967296 = 0
  /\ parse_buffered_data rb 4294967296 4294967296 = Returned 0 (set_copied rb 0) [] [0].
Proof. repeat split; try reflexivity. discriminate. Qed.

(** On a buffer from which nothing has been delivered yet ([copied = 0]),
    and with a caller's buffer that is writable for the whole capacity,
    [-EFAULT] means a framing fault: the decoding loop has come to a packet
    whose status nibble is not one of the six codes, or to one that fits the
    remaining capacity and is cut off by the end of the data. *)
Theorem parse_buffered_data_fault_cause (rb rb' : mk2_read_buffer)
    (user_writable user_size : Z) (out : list byte) (touched : list Z) :
  read_buffer_wf rb ->
  copied rb = 0 ->
  0 < filled rb ->
  0 < user_size ->
  user_size <= user_writable ->
  parse_buffered_data rb user_writable user_size = Returned (- EFAULT) rb' out touched ->
  exists (st : parse_state) (status : byte),
    reaches rb user_writable (filled rb - copied rb) (parse_init user_size) st
    /\ rb_index st < filled rb - copied rb
    /\ load (data rb) (copied rb + rb_index st) = Some status
    /\ (batch_size_of status = None
        \/ exists b : Z,
             batch_size_of status = Some b
             /\ b <= rem_size st
             /\ filled rb - copied rb < rb_index st + MK2_STUFFED_PACKET_SIZE).
Proof.
  intros Hwf Hfresh Hfilled Hus Hroom Hres.
  assert (Hlt : copied rb < filled rb) by lia.
  assert (Hcap : 0 <= to_uint user_size < uint_modulus)
    by (apply Z.mod_pos_bound; reflexivity).
  assert (Hsmall : to_uint user_size <= user_writable).
  { unfold to_uint. pose proof (Z.mod_le user_size uint_modulus ltac:(lia)
                                  ltac:(moduli; lia)). lia. }
  pose proof (parse_init_inv rb (filled rb - copied rb) user_size ltac:(lia)) as Hinit.
  pose proof (parse_loop_inv rb user_writable (filled rb - copied rb) (to_uint user_size)
                Hwf eq_refl Hcap (parse_fuel (filled rb - copied rb))
                (parse_init user_size) Hinit) as Hloop.
  unfold parse_fuel in Hloop. cbn [rb_index parse_init] in Hloop.
  specialize (Hloop ltac:(lia)).
  unfold parse_buffered_data in Hres. rewrite (leftover_wf rb Hwf) in Hres.
  destruct (user_size =? 0); [discriminate|].
  destruct (filled rb - copied rb =? 0); [discriminate|].
  unfold parse_fuel in Hres.
  destruct (parse_loop _ rb user_writable _ _) as [st|st| |] eqn:Hrun; try discriminate.
  - destruct Hloop as (k & _ & _ & Hret & _).
    injection Hres as Hneg _ _ _. unfold EFAULT in Hneg. lia.
  - destruct (parse_loop_fault_cause rb user_writable (filled rb - copied rb)
                (to_uint user_size) Hwf eq_refl Hcap (parse_init user_size)
                (Z.to_nat (filled rb - copied rb)) Hsmall (parse_init user_size) st
                (reaches_here _ _ _ _) Hinit Hrun)
      as (stf & status & Hreach & Hidx & Hload & Hcause).
    exists stf, status. rewrite Hfresh, Z.add_0_l.
    rewrite Hfresh in Hreach, Hidx, Hcause. tauto.
Qed.

Lemma parse_buffered_data_fault_cause_witness :
  let rb := {| data := [Byte.x04; Byte.x61; Byte.x62; Byte.x63;
                        Byte.x00; Byte.x64; Byte.x65; Byte.x66];
               size := 8; filled := 8; copied := 0 |} in
  exists (st : parse_state) (status : byte),
    reaches rb 6 (filled rb - copied rb) (parse_init 6) st
    /\ rb_index st < filled rb - copied rb
    /\ load (data rb) (copied rb + rb_index st) = Some status
    /\ (batch_size_of status = None
        \/ exists b : Z,
             batch_size_of status = Some b
             /\ b <= rem_size st
             /\ filled rb - copied rb < rb_index st + MK2_STUFFED_PACKET_SIZE).
Proof.
  apply (parse_buffered_data_fault_cause
           {| data := [Byte.x04; Byte.x61; Byte.x62; Byte.x63;
                       Byte.x00; Byte.x64; Byte.x65; Byte.x66];
              size := 8; filled := 8; copied := 0 |}
           {| data := [Byte.x04; Byte.x61; Byte.x62; Byte.x63;
                       Byte.x00; Byte.x64; Byte.x65; Byte.x66];
              size := 8; filled := 8; copied := 0 |}
           6 6 [Byte.x61; Byte.x62; Byte.x63] [0; 1; 2; 3; 4]).
  - unfold read_buffer_wf. cbn. rewrite INT_MAX_eq. lia.
  - reflexivity.
  - cbn. lia.
  - lia.
  - lia.
  - reflexivity.
Defined.

(** ** Buffers of three-byte packets: what a decode step delivers *)

Lemma load_range_take_drop (n : nat) :
  forall (m : list byte) (off : nat),
    (off + n <= length m)%nat ->
    load_range m (Z.of_nat off) n = Some (take n (drop off m)).
Proof.
  induction n as [|n IH]; intros m off Hlen; [reflexivity|].
  cbn [load_range]. unfold load at 1. rewrite decide_True by lia. rewrite Nat2Z.id.
  destruct (lookup_lt_is_Some_2 m off ltac:(lia)) as [b Hb].
  rewrite Hb. cbn [mbind option_bind].
  replace (Z.of_nat off + 1) with (Z.of_nat (S off)) by lia.
  rewrite (IH m (S off)) by lia. cbn [mbind option_bind].
  rewrite (drop_S m b off Hb). reflexivity.
Qed.

Lemma parse_step_width3 (rb : mk2_read_buffer) (user_writable leftover : Z)
    (st : parse_state) (j c : nat) (status : byte) :
  rb_index st = 4 * Z.of_nat j ->
  copied rb = 4 * Z.of_nat c ->
  data rb !! (4 * j)%nat = Some status ->
  batch_size_of status = Some 3 ->
  3 <= rem_size st < uint_modulus ->
  rb_index st + 4 <= leftover ->
  leftover < uint_modulus ->
  (4 * (c + j) + 4 <= length (data rb))%nat ->
  0 <= retval st -> retval st + 3 < 2 ^ 31 ->
  Z.of_nat (length (user_out st)) + 3 <= user_writable ->
  exists rd : list Z,
    parse_step rb user_writable leftover st
    = Continue {| retval := retval st + 3;
                  rb_index := rb_index st + 4;
                  rem_size := rem_size st - 3;
                  user_out := user_out st ++ take 3 (drop (4 * (c + j) + 1) (data rb));
                  reads := rd |}.
Proof.
  intros Hidx Hcop Hst Hw Hrem Hbound Hleft Hlen Hret Hret' Huser.
  unfold parse_step. unfold load at 1. rewrite decide_True by lia.
  replace (Z.to_nat (rb_index st)) with (4 * j)%nat by lia.
  rewrite Hst, Hw. cbn [retval rb_index rem_size user_out reads].
  destruct (rem_size st <? 3) eqn:E; [apply Z.ltb_lt in E; lia|]. clear E.
  unfold MK2_STUFFED_PACKET_SIZE.
  rewrite to_uint_small by lia.
  destruct (leftover <? rb_index st + 4) eqn:E; [apply Z.ltb_lt in E; lia|]. clear E.
  replace (copied rb + rb_index st + 1) with (Z.of_nat (4 * (c + j) + 1)) by lia.
  change (Z.to_nat 3) with 3%nat.
  rewrite load_range_take_drop by lia.
  unfold copy_to_user_ok. cbn [user_out].
  replace (Z.of_nat (length (user_out st)) + 3 <=? user_writable) with true
    by (symmetry; apply Z.leb_le; lia).
  rewrite orb_true_r.
  rewrite to_int_small by lia. rewrite to_uint_small by lia.
  eexists. reflexivity.
Qed.

Lemma parse_loop_width3 (rb : mk2_read_buffer) (user_writable leftover : Z)
    (n c : nat) (m : nat) :
  copied rb = 4 * Z.of_nat c ->
  width3_packets (data rb) n ->
  leftover < uint_modulus ->
  forall (st : parse_state) (j fuel : nat),
    rb_index st = 4 * Z.of_nat j ->
    (j + m <= n)%nat ->
    3 * Z.of_nat m <= rem_size st < uint_modulus ->
    rb_index st + 4 * Z.of_nat m <= leftover ->
    (4 * (c + j + m) <= length (data rb))%nat ->
    0 <= retval st -> retval st + 3 * Z.of_nat m < 2 ^ 31 ->
    Z.of_nat (length (user_out st)) + 3 * Z.of_nat m <= user_writable ->
    exists rd : list Z,
      parse_loop (m + fuel) rb user_writable leftover st
      = parse_loop fuel rb user_writable leftover
          {| retval := retval st + 3 * Z.of_nat m;
             rb_index := rb_index st + 4 * Z.of_nat m;
             rem_size := rem_size st - 3 * Z.of_nat m;
             user_out := user_out st ++ payloads (data rb) (c + j) m;
             reads := rd |}.
Proof.
  intros Hcop Hw3 Hleft. induction m as [|m IH];
    intros st j fuel Hidx Hjm Hrem Hbound Hlen Hret Hret' Huser.
  - exists (reads st). cbn [Nat.add payloads].
    rewrite app_nil_r, !Z.add_0_r, Z.sub_0_r. destruct st; reflexivity.
  - destruct (Hw3 j ltac:(lia)) as (status & Hst & Hw).
    destruct (parse_step_width3 rb user_writable leftover st j c status)
      as (rd1 & Hstep); try assumption; try lia.
    cbn [Nat.add parse_loop].
    replace (rb_index st <? leftover) with true by (symmetry; apply Z.ltb_lt; lia).
    rewrite Hstep.
    match goal with
    | |- context [parse_loop (m + fuel) rb user_writable leftover ?s] =>
        destruct (IH s (S j) fuel) as (rd & Hrun)
    end; cbn [retval rb_index rem_size user_out reads];
      rewrite ?length_app, ?length_take, ?length_drop; try lia.
    exists rd. rewrite Hrun. cbn [retval rb_index rem_size user_out reads payloads].
    replace (c + S j)%nat with (S (c + j)) by lia.
    rewrite <- app_assoc.
    do 2 f_equal; lia.
Qed.

(** What a decode step delivers from a buffer of three-byte packets. *)
Lemma parse_buffered_data_width3 (rb : mk2_read_buffer) (n c : nat) (user_writable cap : Z) :
  read_buffer_wf rb ->
  filled rb = 4 * Z.of_nat n ->
  copied rb = 4 * Z.of_nat c ->
  (c < n)%nat ->
  width3_packets (data rb) n ->
  3 <= cap < uint_modulus ->
  cap <= user_writable ->
  let m := Z.to_nat (Z.min (Z.of_nat (n - c)) (cap / 3)) in
  exists touched : list Z,
    parse_buffered_data rb user_writable cap
    = Returned (3 * Z.of_nat m) (set_copied rb (4 * Z.of_nat (c + m)))
               (payloads (data rb) c m) touched.
Proof.
  intros Hwf Hfil Hcop Hcn Hw3 Hcap Hroom m.
  pose proof Hwf as (Hcf & Hfs & Hsz & Hmax). rewrite INT_MAX_eq in Hmax.
  assert (Hm : (m <= n - c)%nat /\ 3 * Z.of_nat m <= cap
               /\ (Z.of_nat m = Z.of_nat (n - c) \/ cap - 3 * Z.of_nat m < 3)).
  { unfold m. Z.div_mod_to_equations. lia. }
  destruct Hm as (Hmn & Hmcap & Hmwhy).
  unfold parse_buffered_data. rewrite (leftover_wf rb Hwf).
  destruct (cap =? 0) eqn:E; [apply Z.eqb_eq in E; lia|]. clear E.
  destruct (filled rb - copied rb =? 0) eqn:E; [apply Z.eqb_eq in E; lia|]. clear E.
  unfold parse_fuel.
  replace (Z.to_nat (filled rb - copied rb))
    with (m + S (Z.to_nat (filled rb - copied rb) - m - 1))%nat by lia.
  set (fuel := (Z.to_nat (filled rb - copied rb) - m - 1)%nat).
  destruct (parse_loop_width3 rb user_writable (filled rb - copied rb) n c m Hcop Hw3
              ltac:(moduli; lia) (parse_init cap) 0%nat (S fuel))
    as (rd & Hrun);
    cbn [parse_init retval rb_index rem_size user_out reads length];
    rewrite ?to_uint_small by lia; try (moduli; lia).
  rewrite Hrun. clear Hrun.
  cbn [parse_init retval rb_index rem_size user_out reads parse_loop app].
  rewrite to_uint_small by lia. rewrite Nat.add_0_r.
  destruct (0 + 4 * Z.of_nat m <? filled rb - copied rb) eqn:Hlt.
  - (* a packet is left and does not fit *)
    apply Z.ltb_lt in Hlt.
    destruct (Hw3 m ltac:(lia)) as (status & Hst & Hw).
    unfold parse_step. unfold load at 1. cbn [rb_index].
    rewrite decide_True by lia.
    replace (Z.to_nat (0 + 4 * Z.of_nat m)) with (4 * m)%nat by lia.
    rewrite Hst, Hw. cbn [retval rb_index rem_size user_out reads].
    destruct (cap - 3 * Z.of_nat m <? 3) eqn:E; [|apply Z.ltb_ge in E; lia]. clear E.
    eexists. f_equal. cbn [rb_index]. f_equal.
    rewrite to_size_t_small by (moduli; lia). lia.
  - eexists. cbn [retval rb_index user_out reads]. f_equal. f_equal.
    rewrite to_size_t_small by (moduli; lia). lia.
Qed.

(** A buffer whose packets all have width 3 (button events, [MOREDATA]
    packets) is decoded packet by packet from [copied] on, whatever
    [copied] is: with capacity [cap] a decode step delivers the payloads of
    the next [min(packets left, cap / 3)] packets, returns three times
    that number and advances [copied] by four times that number.  That is
    at least one packet, and three bytes for each. *)
Theorem width3_decode (rb : mk2_read_buffer) (n c : nat) (user_writable cap : Z) :
  read_buffer_wf rb ->
  filled rb = 4 * Z.of_nat n ->
  copied rb = 4 * Z.of_nat c ->
  (c < n)%nat ->
  width3_packets (data rb) n ->
  3 <= cap < uint_modulus ->
  cap <= user_writable ->
  let m := Z.to_nat (Z.min (Z.of_nat (n - c)) (cap / 3)) in
  (1 <= m)%nat
  /\ length (payloads (data rb) c m) = (3 * m)%nat
  /\ exists touched : list Z,
       parse_buffered_data rb user_writable cap
       = Returned (3 * Z.of_nat m) (set_copied rb (4 * Z.of_nat (c + m)))
                  (payloads (data rb) c m) touched.
Proof.
  intros Hwf Hfil Hcop Hcn Hw3 Hcap Hroom m.
  assert (Hm : (1 <= m <= n - c)%nat) by (unfold m; Z.div_mod_to_equations; lia).
  split; [apply Hm|]. split.
  - destruct Hwf as (_ & Hfs & Hsz & _).
    assert (Hlen : (4 * (c + m) <= length (data rb))%nat) by lia.
    clearbody m. clear - Hlen. revert c Hlen.
    induction m as [|k IH]; intros c Hlen; [reflexivity|].
    cbn [payloads]. rewrite length_app, length_take, length_drop.
    rewrite (IH (S c)) by lia. lia.
  - exact (parse_buffered_data_width3 rb n c user_writable cap Hwf Hfil Hcop Hcn Hw3
             Hcap Hroom).
Qed.

Lemma width3_decode_witness :
  let rb := {| data := [Byte.x09; Byte.x10; Byte.x7f; Byte.x00;
                        Byte.x09; Byte.x11; Byte.x7f; Byte.x00;
                        Byte.x09; Byte.x12; Byte.x00; Byte.x00];
               size := 12; filled := 4 * Z.of_nat 3; copied := 4 * Z.of_nat 1 |} in
  let m := Z.to_nat (Z.min (Z.of_nat (3 - 1)) (3 / 3)) in
  (1 <= m)%nat
  /\ length (payloads (data rb) 1 m) = (3 * m)%nat
  /\ exists touched : list Z,
       parse_buffered_data rb 3 3
       = Returned (3 * Z.of_nat m) (set_copied rb (4 * Z.of_nat (1 + m)))
                  (payloads (data rb) 1 m) touched.
Proof.
  apply (width3_decode
           {| data := [Byte.x09; Byte.x10; Byte.x7f; Byte.x00;
                       Byte.x09; Byte.x11; Byte.x7f; Byte.x00;
                       Byte.x09; Byte.x12; Byte.x00; Byte.x00];
              size := 12; filled := 4 * Z.of_nat 3; copied := 4 * Z.of_nat 1 |}
           3 1 3 3).
  - unfold read_buffer_wf. cbn. rewrite INT_MAX_eq. lia.
  - reflexivity.
  - reflexivity.
  - lia.
  - intros i Hi. exists Byte.x09.
    destruct i as [|[|[|i]]]; [split; reflexivity .. | lia].
  - rewrite uint_modulus_eq. lia.
  - lia.
Defined.

Lemma payloads_app (data : list byte) (a b : nat) :
  forall first : nat,
    payloads data first (a + b) = payloads data first a ++ payloads data (first + a) b.
Proof.
  induction a as [|a IH]; intros first.
  - cbn. now rewrite Nat.add_0_r.
  - cbn [Nat.add payloads]. rewrite IH, <- app_assoc.
    replace (S first + a)%nat with (first + S a)%nat by lia. reflexivity.
Qed.

(** A read call that finds leftover data, no outstanding request and no
    error decodes it, and prefetches when it got less than it asked
    for. *)
Lemma mk2_read_leftover (dev : mk2dev) (nonblock : bool) (lock : Z) (r : retry_env)
    (more : list retry_env) (user_writable count ret : Z) (rb' : mk2_read_buffer)
    (out : list byte) (touched : list Z) :
  disconnected dev = false ->
  0 <= lock ->
  requested_read (read_endp dev) = false ->
  0 <= read_errors (read_endp dev) ->
  read_buffer_wf (buffer (read_endp dev)) ->
  copied (buffer (read_endp dev)) < filled (buffer (read_endp dev)) ->
  3 <= count ->
  parse_buffered_data (buffer (read_endp dev)) user_writable count
  = Returned ret rb' out touched ->
  0 <= ret < size_t_modulus ->
  mk2_read dev nonblock {| lock_result := lock; rounds := r :: more |} user_writable count
  = let dev1 := set_read_endp dev (set_buffer (read_endp dev) rb') in
    if ret <? count then
      (Ret ret, snd (fst (mk2_request_read dev1 (submit_read_result r) 0)), out,
       snd (mk2_request_read dev1 (submit_read_result r) 0))
    else (Ret ret, dev1, out, []).
Proof.
  intros Hdis Hlock Hreq Herr Hwf Hlt Hcount Hparse Hret.
  unfold mk2_read, MK2_SYSEX_PACKET_SIZE. cbn [lock_result rounds].
  destruct (count <? 3) eqn:E; [apply Z.ltb_lt in E; lia|]. clear E.
  destruct (lock <? 0) eqn:E; [apply Z.ltb_lt in E; lia|]. clear E.
  rewrite Hdis. cbn [mk2_read_retry]. unfold mk2_read_pass, early_completion.
  rewrite Hreq.
  assert (Hearly : match raced r with Some _ => (dev, @nil event) | None => (dev, []) end
                   = (dev, [])) by (destruct (raced r); reflexivity).
  rewrite Hearly. unfold wait_for_read. rewrite Hreq. unfold serve_read.
  destruct (read_errors (read_endp dev) <? 0) eqn:E; [apply Z.ltb_lt in E; lia|]. clear E.
  rewrite (leftover_wf _ Hwf).
  destruct (filled (buffer (read_endp dev)) - copied (buffer (read_endp dev)) =? 0) eqn:E;
    [apply Z.eqb_eq in E; lia|]. clear E.
  cbn [negb]. rewrite Hparse. rewrite to_size_t_small by lia. cbn zeta.
  destruct (ret <? count); [|reflexivity].
  unfold mk2_request_read. destruct (submit_read_result r <? 0); reflexivity.
Qed.

(** Leftover accumulation for buffers of three-byte packets: draining
    part of the buffer with a read of [3 a] bytes and going on with a
    second read gives the caller the same bytes, makes the same kernel
    calls and leaves the same device as one read of the combined
    capacity. *)
Theorem width3_reads_compose (dev : mk2dev) (nonblock : bool) (lock : Z) (r : retry_env)
    (n c a : nat) (count2 uw1 uw2 uw : Z) :
  disconnected dev = false ->
  0 <= lock ->
  requested_read (read_endp dev) = false ->
  0 <= read_errors (read_endp dev) ->
  read_buffer_wf (buffer (read_endp dev)) ->
  filled (buffer (read_endp dev)) = 4 * Z.of_nat n ->
  copied (buffer (read_endp dev)) = 4 * Z.of_nat c ->
  width3_packets (data (buffer (read_endp dev))) n ->
  (1 <= a)%nat ->
  (c + a < n)%nat ->
  3 <= count2 ->
  3 * Z.of_nat a + count2 < uint_modulus ->
  3 * Z.of_nat a <= uw1 -> count2 <= uw2 -> 3 * Z.of_nat a + count2 <= uw ->
  let env := {| lock_result := lock; rounds := [r] |} in
  let first := mk2_read dev nonblock env uw1 (3 * Z.of_nat a) in
  let second := mk2_read (snd (fst (fst first))) nonblock env uw2 count2 in
  let single := mk2_read dev nonblock env uw (3 * Z.of_nat a + count2) in
  fst (fst (fst first)) = Ret (3 * Z.of_nat a)
  /\ snd first = []
  /\ exists v2 : Z,
       fst (fst (fst second)) = Ret v2
       /\ fst (fst (fst single)) = Ret (3 * Z.of_nat a + v2)
       /\ snd (fst single) = snd (fst first) ++ snd (fst second)
       /\ snd (fst (fst single)) = snd (fst (fst second))
       /\ snd single = snd second.
Proof.
  intros Hdis Hlock Hreq Herr Hwf Hfil Hcop Hw3 Ha Hcan Hc2 Hfit Hu1 Hu2 Hu.
  cbn zeta.
  pose proof Hwf as (Hcf & Hfs & Hsz & Hmax). rewrite INT_MAX_eq in Hmax.
  set (rb := buffer (read_endp dev)) in *.
  (* the first read *)
  destruct (parse_buffered_data_width3 rb n c uw1 (3 * Z.of_nat a) Hwf Hfil Hcop ltac:(lia) Hw3
              ltac:(moduli; lia) Hu1) as (t1 & Hp1).
  cbn zeta in Hp1.
  replace (Z.to_nat (Z.min (Z.of_nat (n - c)) (3 * Z.of_nat a / 3))) with a in Hp1
    by (Z.div_mod_to_equations; lia).
  rewrite (mk2_read_leftover dev nonblock lock r [] uw1 (3 * Z.of_nat a) _ _ _ _
             Hdis Hlock Hreq Herr Hwf ltac:(fold rb; lia) ltac:(lia) Hp1
             ltac:(moduli; lia)).
  cbn zeta. rewrite Z.ltb_irrefl. cbn [fst snd].
  (* the second read *)
  set (rb1 := set_copied rb (4 * Z.of_nat (c + a))).
  set (dev1 := set_read_endp dev (set_buffer (read_endp dev) rb1)).
  assert (Hwf1 : read_buffer_wf rb1).
  { unfold read_buffer_wf, rb1. cbn. repeat split; try assumption; lia. }
  destruct (parse_buffered_data_width3 rb1 n (c + a) uw2 count2 Hwf1 Hfil eq_refl ltac:(lia) Hw3
              ltac:(moduli; lia) Hu2) as (t2 & Hp2).
  cbn zeta in Hp2.
  set (m2 := Z.to_nat (Z.min (Z.of_nat (n - (c + a))) (count2 / 3))) in *.
  rewrite (mk2_read_leftover dev1 nonblock lock r [] uw2 count2 _ _ _ _
             Hdis Hlock Hreq Herr Hwf1 ltac:(unfold rb1; cbn; lia) Hc2 Hp2
             ltac:(moduli; unfold m2; Z.div_mod_to_equations; lia)).
  (* the single read *)
  destruct (parse_buffered_data_width3 rb n c uw (3 * Z.of_nat a + count2) Hwf Hfil Hcop ltac:(lia) Hw3
              ltac:(moduli; lia) Hu) as (t & Hp).
  cbn zeta in Hp.
  replace (Z.to_nat (Z.min (Z.of_nat (n - c)) ((3 * Z.of_nat a + count2) / 3)))
    with (a + m2)%nat in Hp by (unfold m2; Z.div_mod_to_equations; lia).
  rewrite (mk2_read_leftover dev nonblock lock r [] uw (3 * Z.of_nat a + count2) _ _ _ _
             Hdis Hlock Hreq Herr Hwf ltac:(fold rb; lia) ltac:(lia) Hp
             ltac:(moduli; unfold m2; Z.div_mod_to_equations; lia)).
  split; [reflexivity|]. split; [reflexivity|].
  exists (3 * Z.of_nat m2).
  cbn zeta.
  replace (3 * Z.of_nat (a + m2)%nat <? 3 * Z.of_nat a + count2)
    with (3 * Z.of_nat m2 <? count2)
    by (destruct (3 * Z.of_nat m2 <? count2) eqn:E; symmetry;
        [apply Z.ltb_lt; apply Z.ltb_lt in E | apply Z.ltb_ge; apply Z.ltb_ge in E]; lia).
  replace (c + a + m2)%nat with (c + (a + m2))%nat by lia.
  destruct (3 * Z.of_nat m2 <? count2); cbn [fst snd];
    (split; [reflexivity|]); (split; [f_equal; lia|]);
    (split; [apply payloads_app|]); split; reflexivity.
Qed.

Lemma width3_reads_compose_witness :
  let env := {| lock_result := 0; rounds := [quiet_round] |} in
  let first := mk2_read buttons_dev false env 3 (3 * Z.of_nat 1) in
  let second := mk2_read (snd (fst (fst first))) false env 3 3 in
  let single := mk2_read buttons_dev false env 6 (3 * Z.of_nat 1 + 3) in
  fst (fst (fst first)) = Ret (3 * Z.of_nat 1)
  /\ snd first = []
  /\ exists v2 : Z,
       fst (fst (fst second)) = Ret v2
       /\ fst (fst (fst single)) = Ret (3 * Z.of_nat 1 + v2)
       /\ snd (fst single) = snd (fst first) ++ snd (fst second)
       /\ snd (fst (fst single)) = snd (fst (fst second))
       /\ snd single = snd second.
Proof.
  apply (width3_reads_compose buttons_dev false 0 quiet_round 3 0 1 3 3 3 6).
  - reflexivity.
  - lia.
  - reflexivity.
  - cbn. lia.
  - unfold read_buffer_wf. cbn. rewrite INT_MAX_eq. lia.
  - reflexivity.
  - reflexivity.
  - intros i Hi. exists Byte.x09.
    destruct i as [|[|[|i]]]; [split; reflexivity .. | lia].
  - lia.
  - lia.
  - lia.
  - rewrite uint_modulus_eq. lia.
  - lia.
  - lia.
  - lia.
Defined.

(** * Further properties of the write channel *)

(** Every write call ends in one of three ways.  It hands a transfer to
    the transport: then it holds one slot more than before, the frame is
    anchored and the call returns the accepted count.  Or it leaves the
    semaphore and the anchor as it found them.  Or [memdup_user] has
    failed: then the error path passes the error pointer to [kfree], the
    call leaves defined behaviour, and it does so holding its slot and
    with nothing submitted.  The last case arises exactly when the call
    gets as far as [memdup_user] and that fails.  No call touches the
    read channel or the [disconnected] flag, and only a blocking call can
    be left sleeping. *)
Theorem mk2_write_slot_accounting (dev dev' : mk2dev) (nonblock : bool) (env : write_env)
    (user : list byte) (count : Z) (res : call_result) (trace : list event) :
  0 <= count ->
  mk2_write dev nonblock env user count = (res, dev', trace) ->
  let c := Z.min count USB_MK2_MAX_OUT_LEN in
  let copy_failed :=
    In (Memdup_user c) trace /\ exists err : Z, memdup_user env user c = inr err in
  read_endp dev' = read_endp dev
  /\ disconnected dev' = disconnected dev
  /\ (res = Crash <-> copy_failed)
  /\ (res = Pending -> nonblock = false /\ dev' = dev /\ trace = [])
  /\ ((exists frame : list byte,
          In (Usb_submit_write_urb frame) trace
          /\ submit_write_result env = 0
          /\ res = Ret c
          /\ limit_sem (write_endp dev') = limit_sem (write_endp dev) - 1
          /\ submitted (write_endp dev') = frame :: submitted (write_endp dev))
      \/ (res <> Crash
          /\ limit_sem (write_endp dev') = limit_sem (write_endp dev)
          /\ submitted (write_endp dev') = submitted (write_endp dev))
      \/ (res = Crash
          /\ limit_sem (write_endp dev') = limit_sem (write_endp dev) - 1
          /\ submitted (write_endp dev') = submitted (write_endp dev)
          /\ forall frame : list byte, ~ In (Usb_submit_write_urb frame) trace)).
Proof.
  intros Hcount Hcall c copy_failed. unfold mk2_write in Hcall.
  destruct (count =? 0) eqn:E0.
  { injection Hcall as <- <- <-.
    split; [reflexivity|]. split; [reflexivity|].
    split; [split; [discriminate | intros [[] _]]|].
    split; [discriminate|]. right. left. repeat split. discriminate. }
  apply Z.eqb_neq in E0. fold c in Hcall.
  assert (Hc : 0 < c <= USB_MK2_MAX_OUT_LEN)
    by (unfold c, USB_MK2_MAX_OUT_LEN in *; lia).
  destruct (limit_sem (write_endp dev) <=? 0).
  { destruct nonblock; [|destruct (signal_pending env)];
      injection Hcall as <- <- <-;
      (split; [reflexivity|]); (split; [reflexivity|]);
      (split; [split; [discriminate | intros [[] _]]|]);
      (split; [first [discriminate | tauto]|]);
      right; left; repeat split; discriminate. }
  cbn [write_errors set_limit_sem] in Hcall.
  assert (Herr : forall ep ub ur ss rv tr,
             write_error dev ep ub ur ss rv tr = (res, dev', trace) ->
             limit_sem ep = limit_sem (write_endp dev) - 1 ->
             submitted ep = submitted (write_endp dev) ->
             (In (Memdup_user c) tr ->
              exists payload : list byte, memdup_user env user c = inl payload) ->
             read_endp dev' = read_endp dev
             /\ disconnected dev' = disconnected dev
             /\ (res = Crash <-> copy_failed)
             /\ (res = Pending -> nonblock = false /\ dev' = dev /\ trace = [])
             /\ ((exists frame : list byte,
                     In (Usb_submit_write_urb frame) trace
                     /\ submit_write_result env = 0
                     /\ res = Ret c
                     /\ limit_sem (write_endp dev') = limit_sem (write_endp dev) - 1
                     /\ submitted (write_endp dev') = frame :: submitted (write_endp dev))
                 \/ (res <> Crash
                     /\ limit_sem (write_endp dev') = limit_sem (write_endp dev)
                     /\ submitted (write_endp dev') = submitted (write_endp dev))
                 \/ (res = Crash
                     /\ limit_sem (write_endp dev') = limit_sem (write_endp dev) - 1
                     /\ submitted (write_endp dev') = submitted (write_endp dev)
                     /\ forall frame : list byte,
                          ~ In (Usb_submit_write_urb frame) trace))).
  { intros ep ub ur ss rv tr Heq Hsem Hsub Hcopied. unfold write_error in Heq.
    injection Heq as <- <- <-. cbn [read_endp disconnected set_write_endp].
    split; [reflexivity|]. split; [reflexivity|].
    split.
    { split; [discriminate|]. intros [Hin [err Hfail]]. exfalso.
      rewrite !in_app_iff in Hin.
      destruct Hin as [Hin | [Hin | [Hin | Hin]]].
      - destruct (Hcopied Hin) as [payload Hgood]. congruence.
      - destruct ub; cbn in Hin; intuition discriminate.
      - destruct ur; cbn in Hin; intuition discriminate.
      - cbn in Hin; intuition discriminate. }
    split; [discriminate|].
    right. left. cbn. split; [discriminate|]. split; [lia | assumption]. }
  assert (Hnocopy : forall tr : list event,
             Forall (fun e => forall n, e <> Memdup_user n) tr ->
             In (Memdup_user c) tr ->
             exists payload : list byte, memdup_user env user c = inl payload).
  { intros tr Hall Hin. exfalso. rewrite Forall_forall in Hall.
    apply list_elem_of_In in Hin. exact (Hall _ Hin c eq_refl). }
  destruct (write_errors (write_endp dev) <? 0).
  { eapply Herr; [exact Hcall | reflexivity | reflexivity |].
    apply Hnocopy. repeat constructor; discriminate. }
  destruct (alloc_urb_ok env); cbn [negb] in Hcall.
  2:{ eapply Herr; [exact Hcall | reflexivity | reflexivity |].
      apply Hnocopy. repeat constructor; discriminate. }
  destruct (alloc_coherent_ok env); cbn [negb] in Hcall.
  2:{ eapply Herr; [exact Hcall | reflexivity | reflexivity |].
      apply Hnocopy. repeat constructor; discriminate. }
  destruct (access_ok env); cbn [negb] in Hcall.
  2:{ eapply Herr; [exact Hcall | reflexivity | reflexivity |].
      apply Hnocopy. repeat constructor; discriminate. }
  destruct (memdup_user env user c) as [payload|err] eqn:Hdup.
  2:{ injection Hcall as <- <- <-. cbn [read_endp disconnected set_write_endp].
      split; [reflexivity|]. split; [reflexivity|].
      split.
      { split; [|reflexivity]. intros _. split; [|eauto].
        cbn. tauto. }
      split; [discriminate|].
      right. right. cbn.
      split; [reflexivity|]. split; [reflexivity|]. split; [reflexivity|].
      intros frame Hin. intuition discriminate. }
  assert (Hpayload : payload = take (Z.to_nat c) user
                     /\ c <= Z.of_nat (length user)).
  { unfold memdup_user in Hdup.
    destruct (memdup_alloc_ok env); cbn [negb] in Hdup; [|discriminate].
    destruct (c <=? Z.of_nat (length user)) eqn:Elen; [|discriminate].
    apply Z.leb_le in Elen. injection Hdup as <-. now split. }
  destruct Hpayload as [-> Elen].
  assert (Htake : Z.of_nat (length (take (Z.to_nat c) user)) = c)
    by (rewrite length_take; lia).
  pose proof (stuff_buffer_fresh (take (Z.to_nat c) user)) as Henc.
  rewrite Htake in Henc. rewrite Henc in Hcall by lia. clear Henc.
  destruct (disconnected dev) eqn:Hdis.
  { eapply Herr; [exact Hcall | reflexivity | reflexivity | eauto]. }
  destruct (submit_write_result env =? 0) eqn:Hsub; cbn [negb] in Hcall.
  2:{ eapply Herr; [exact Hcall | reflexivity | reflexivity | eauto]. }
  injection Hcall as <- <- <-. cbn [read_endp disconnected set_write_endp].
  split; [reflexivity|]. split; [assumption|].
  split; [split; [discriminate | intros [_ [err Hfail]]; discriminate]|].
  split; [discriminate|]. left.
  exists (encode (take (Z.to_nat c) user)).
  split; [cbn; tauto|]. split; [now apply Z.eqb_eq|]. cbn. repeat split.
Qed.

Lemma mk2_write_slot_accounting_witness :
  let outcome := mk2_write idle_dev true willing_env [Byte.x90; Byte.x3c; Byte.x7f] 3 in
  let res := fst (fst outcome) in
  let dev' := snd (fst outcome) in
  let trace := snd outcome in
  let c := Z.min 3 USB_MK2_MAX_OUT_LEN in
  let copy_failed :=
    In (Memdup_user c) trace
    /\ exists err : Z, memdup_user willing_env [Byte.x90; Byte.x3c; Byte.x7f] c = inr err in
  read_endp dev' = read_endp idle_dev
  /\ disconnected dev' = disconnected idle_dev
  /\ (res = Crash <-> copy_failed)
  /\ (res = Pending -> true = false /\ dev' = idle_dev /\ trace = [])
  /\ ((exists frame : list byte,
          In (Usb_submit_write_urb frame) trace
          /\ submit_write_result willing_env = 0
          /\ res = Ret c
          /\ limit_sem (write_endp dev') = limit_sem (write_endp idle_dev) - 1
          /\ submitted (write_endp dev') = frame :: submitted (write_endp idle_dev))
      \/ (res <> Crash
          /\ limit_sem (write_endp dev') = limit_sem (write_endp idle_dev)
          /\ submitted (write_endp dev') = submitted (write_endp idle_dev))
      \/ (res = Crash
          /\ limit_sem (write_endp dev') = limit_sem (write_endp idle_dev) - 1
          /\ submitted (write_endp dev') = submitted (write_endp idle_dev)
          /\ forall frame : list byte, ~ In (Usb_submit_write_urb frame) trace)).
Proof.
  apply (mk2_write_slot_accounting idle_dev _ true willing_env
           [Byte.x90; Byte.x3c; Byte.x7f] 3).
  - lia.
  - reflexivity.
Defined.

(** What a write call does when nothing stands in its way. *)
Lemma mk2_write_success (dev : mk2dev) (nonblock : bool) (env : write_env)
    (user : list byte) :
  disconnected dev = false ->
  0 < limit_sem (write_endp dev) ->
  0 <= write_errors (write_endp dev) ->
  alloc_urb_ok env = true -> alloc_coherent_ok env = true ->
  access_ok env = true -> memdup_alloc_ok env = true ->
  submit_write_result env = 0 ->
  user <> [] ->
  let count := Z.min (Z.of_nat (length user)) USB_MK2_MAX_OUT_LEN in
  mk2_write dev nonblock env user (Z.of_nat (length user))
  = (Ret count,
     set_write_endp dev
       {| submitted := frame_of user :: submitted (write_endp dev);
          limit_sem := limit_sem (write_endp dev) - 1;
          write_errors := write_errors (write_endp dev) |},
     [Down; Usb_alloc_urb; Usb_alloc_coherent (compute_stuffed_size count);
      Memdup_user count; Usb_anchor_urb; Usb_submit_write_urb (frame_of user);
      Usb_free_urb]).
Proof.
  intros Hdis Hsem Herrs Hurb Hcoh Hacc Hdup Hsub Hne. cbn zeta.
  assert (Hlen : 0 < Z.of_nat (length user)) by (destruct user; [congruence | cbn; lia]).
  unfold mk2_write.
  destruct (Z.of_nat (length user) =? 0) eqn:E0; [apply Z.eqb_eq in E0; lia|].
  set (c := Z.min (Z.of_nat (length user)) USB_MK2_MAX_OUT_LEN).
  assert (Hc : 0 < c <= USB_MK2_MAX_OUT_LEN) by (unfold USB_MK2_MAX_OUT_LEN in *; lia).
  destruct (limit_sem (write_endp dev) <=? 0) eqn:Es; [apply Z.leb_le in Es; lia|].
  cbn [write_errors set_limit_sem].
  destruct (write_errors (write_endp dev) <? 0) eqn:Ee; [apply Z.ltb_lt in Ee; lia|].
  rewrite Hurb, Hcoh, Hacc. cbn [negb].
  unfold memdup_user. rewrite Hdup. cbn [negb].
  destruct (c <=? Z.of_nat (length user)) eqn:Elen; [|apply Z.leb_gt in Elen; lia].
  assert (Htake : Z.of_nat (length (take (Z.to_nat c) user)) = c)
    by (rewrite length_take; lia).
  pose proof (stuff_buffer_fresh (take (Z.to_nat c) user)) as Henc.
  rewrite Htake in Henc. rewrite Henc by lia. clear Henc.
  rewrite Hdis, Hsub. cbn [Z.eqb negb].
  assert (Hframe : encode (take (Z.to_nat c) user) = frame_of user).
  { unfold frame_of, c.
    destruct (Z.le_ge_cases (Z.of_nat (length user)) USB_MK2_MAX_OUT_LEN) as [Hle|Hge].
    - rewrite Z.min_l by assumption. rewrite Nat2Z.id.
      rewrite (take_ge user (length user)) by lia.
      rewrite (take_ge user (Z.to_nat USB_MK2_MAX_OUT_LEN)) by lia. reflexivity.
    - rewrite Z.min_r by assumption. reflexivity. }
  rewrite Hframe. reflexivity.
Qed.



Lemma write_completions_app (dev : mk2dev) (us vs : list urb) :
  write_completions dev (us ++ vs) = write_completions (write_completions dev us) vs.
Proof. unfold write_completions. apply fold_left_app. Qed.

Lemma write_completions_slots (us : list urb) :
  forall dev : mk2dev,
    limit_sem (write_endp (write_completions dev us))
    = limit_sem (write_endp dev) + Z.of_nat (length us)
    /\ submitted (write_endp (write_completions dev us)) = submitted (write_endp dev)
    /\ read_endp (write_completions dev us) = read_endp dev
    /\ disconnected (write_completions dev us) = disconnected dev.
Proof.
  induction us as [|u us IH]; intros dev.
  - cbn. repeat split. lia.
  - unfold write_completions in *. cbn [fold_left].
    destruct (IH (fst (mk2_write_bulk_callback dev u))) as (H1 & H2 & H3 & H4).
    rewrite H1, H2, H3, H4. unfold mk2_write_bulk_callback.
    destruct (urb_status u =? 0); cbn; repeat split; lia.
Qed.

Lemma write_completions_success (us : list urb) :
  forall dev : mk2dev,
    Forall (fun u => urb_status u = 0) us ->
    write_errors (write_endp (write_completions dev us)) = write_errors (write_endp dev).
Proof.
  induction us as [|u us IH]; intros dev Hall; [reflexivity|].
  inversion Hall as [|? ? Hu Hus]; subst.
  unfold write_completions in *. cbn [fold_left]. rewrite IH by assumption.
  unfold mk2_write_bulk_callback. rewrite Hu. reflexivity.
Qed.

(** Of the completions that arrive between two write calls, the last
    failed one decides what the next call reports, whatever came before
    it and however many successful ones follow: that call returns
    [-EPIPE] for a stall and [-EIO] for anything else (a cancelled urb
    included), submits nothing, clears the error and gives its slot back,
    so every completion has released one slot. *)
Theorem write_failure_reported_once (dev : mk2dev) (before after : list urb) (u : urb)
    (nonblock : bool) (env : write_env) (user : list byte) (count : Z) :
  0 <= limit_sem (write_endp dev) ->
  urb_status u < 0 ->
  Forall (fun v => urb_status v = 0) after ->
  count <> 0 ->
  let dev1 := write_completions dev (before ++ u :: after) in
  let outcome := mk2_write dev1 nonblock env user count in
  fst (fst outcome) = Ret (if urb_status u =? - EPIPE then - EPIPE else - EIO)
  /\ snd outcome = [Down; Up]
  /\ write_errors (write_endp (snd (fst outcome))) = 0
  /\ limit_sem (write_endp (snd (fst outcome)))
     = limit_sem (write_endp dev) + Z.of_nat (length before) + 1 + Z.of_nat (length after)
  /\ submitted (write_endp (snd (fst outcome))) = submitted (write_endp dev).
Proof.
  intros Hsem Hu Hafter Hcount. cbn zeta.
  rewrite write_completions_app.
  set (dev0 := write_completions dev before).
  destruct (write_completions_slots before dev) as (Hs0 & Ha0 & _ & _).
  fold dev0 in Hs0, Ha0.
  change (u :: after) with ([u] ++ after). rewrite write_completions_app.
  set (devu := write_completions dev0 [u]).
  assert (Hdevu : write_errors (write_endp devu) = urb_status u
                  /\ limit_sem (write_endp devu) = limit_sem (write_endp dev0) + 1
                  /\ submitted (write_endp devu) = submitted (write_endp dev0)).
  { unfold devu, write_completions. cbn [fold_left]. unfold mk2_write_bulk_callback.
    destruct (urb_status u =? 0) eqn:E; [apply Z.eqb_eq in E; lia|].
    cbn. repeat split. }
  destruct Hdevu as (He & Hs & Ha).
  set (dev1 := write_completions devu after).
  destruct (write_completions_slots after devu) as (Hs1 & Ha1 & _ & _).
  pose proof (write_completions_success after devu Hafter) as He1.
  fold dev1 in Hs1, Ha1, He1.
  unfold mk2_write.
  destruct (count =? 0) eqn:E0; [apply Z.eqb_eq in E0; contradiction|].
  destruct (limit_sem (write_endp dev1) <=? 0) eqn:Es; [apply Z.leb_le in Es; lia|].
  cbn [write_errors set_limit_sem]. rewrite He1, He.
  destruct (urb_status u <? 0) eqn:El; [|apply Z.ltb_ge in El; lia].
  unfold write_error. cbn.
  repeat split; [|lia|congruence].
  destruct (urb_status u =? - EPIPE) eqn:Ep; [apply Z.eqb_eq in Ep; rewrite Ep|]; reflexivity.
Qed.

Lemma write_failure_reported_once_witness :
  let cancelled := {| urb_status := - ENOENT; urb_actual_length := 0;
                      urb_transfer_buffer_length := 4; urb_in_data := [] |} in
  let done := {| urb_status := 0; urb_actual_length := 4;
                 urb_transfer_buffer_length := 4; urb_in_data := [] |} in
  let dev1 := write_completions idle_dev ([done] ++ cancelled :: [done]) in
  let outcome := mk2_write dev1 true willing_env [Byte.x90] 1 in
  fst (fst outcome) = Ret (if urb_status cancelled =? - EPIPE then - EPIPE else - EIO)
  /\ snd outcome = [Down; Up]
  /\ write_errors (write_endp (snd (fst outcome))) = 0
  /\ limit_sem (write_endp (snd (fst outcome)))
     = limit_sem (write_endp idle_dev) + Z.of_nat (length [done]) + 1
       + Z.of_nat (length [done])
  /\ submitted (write_endp (snd (fst outcome))) = submitted (write_endp idle_dev).
Proof.
  apply (write_failure_reported_once idle_dev
           [{| urb_status := 0; urb_actual_length := 4;
               urb_transfer_buffer_length := 4; urb_in_data := [] |}]
           [{| urb_status := 0; urb_actual_length := 4;
               urb_transfer_buffer_length := 4; urb_in_data := [] |}]
           {| urb_status := - ENOENT; urb_actual_length := 0;
              urb_transfer_buffer_length := 4; urb_in_data := [] |}
           true willing_env [Byte.x90] 1).
  - cbn. unfold WRITES_IN_FLIGHT. lia.
  - cbn. unfold ENOENT. lia.
  - repeat constructor.
  - lia.
Defined.

(** * Further properties of the read channel *)

Lemma read_urb_in_flight_app (t1 t2 : list event) :
  forall b : bool,
    read_urb_in_flight b (t1 ++ t2)
    = read_urb_in_flight b t1 ≫= fun b' => read_urb_in_flight b' t2.
Proof.
  induction t1 as [|e t1 IH]; intros b; [reflexivity|].
  destruct e; cbn [app read_urb_in_flight]; try apply IH.
  destruct b; [reflexivity | apply IH].
Qed.

Lemma complete_read_in_flight (dev : mk2dev) (u : urb) (b : bool) :
  requested_read (read_endp (fst (complete_read dev u))) = false
  /\ read_urb_in_flight b (snd (complete_read dev u)) = Some false
  /\ Forall submits_into_empty_buffer (snd (complete_read dev u)).
Proof.
  unfold complete_read, mk2_read_bulk_callback. cbn [read_endp set_read_endp].
  destruct (urb_status u =? 0); [|destruct (unlink_status (urb_status u))];
    cbn; repeat split; repeat constructor.
Qed.

Lemma mk2_request_read_in_flight (dev : mk2dev) (submit_result count : Z) :
  read_urb_in_flight false (snd (mk2_request_read dev submit_result count))
  = Some (requested_read (read_endp (snd (fst (mk2_request_read dev submit_result count)))))
  /\ Forall submits_into_empty_buffer (snd (mk2_request_read dev submit_result count)).
Proof.
  unfold mk2_request_read. destruct (submit_result <? 0); cbn; repeat split;
    repeat constructor.
Qed.

Lemma mk2_read_pass_in_flight (r : retry_env) (dev : mk2dev) (nonblock : bool)
    (user_writable count : Z) (trace : list event) (b0 : bool) :
  read_urb_in_flight b0 trace = Some (requested_read (read_endp dev)) ->
  Forall submits_into_empty_buffer trace ->
  match mk2_read_pass r dev nonblock user_writable count trace with
  | Pass_done outcome =>
      read_urb_in_flight b0 (snd outcome)
      = Some (requested_read (read_endp (snd (fst (fst outcome)))))
      /\ Forall submits_into_empty_buffer (snd outcome)
  | Pass_retry dev' trace' =>
      read_urb_in_flight b0 trace' = Some (requested_read (read_endp dev'))
      /\ Forall submits_into_empty_buffer trace'
  end.
Proof.
  intros Hfl Hall. unfold mk2_read_pass.
  (* the completion that arrives before the flag is sampled *)
  assert (Hearly : read_urb_in_flight b0 (snd (early_completion r dev trace))
                   = Some (requested_read (read_endp (fst (early_completion r dev trace))))
                   /\ Forall submits_into_empty_buffer (snd (early_completion r dev trace))).
  { unfold early_completion. destruct (raced r) as [u|]; [|now split].
    destruct (requested_read (read_endp dev)) eqn:Hrq; [|cbn; rewrite Hrq; now split].
    destruct (complete_read_in_flight dev u true) as (Hreq & Htr & Hsub).
    destruct (complete_read dev u) as [dev' evs]. cbn [fst snd] in *.
    rewrite read_urb_in_flight_app, Hfl. cbn. rewrite Htr, Hreq.
    split; [reflexivity | now apply Forall_app]. }
  destruct (early_completion r dev trace) as [dev1 trace1]. cbn [fst snd] in Hearly.
  destruct Hearly as [Hfl1 Hall1]. clear Hfl Hall.
  (* the wait *)
  unfold wait_for_read.
  assert (Hserve : forall dev2 trace2,
             requested_read (read_endp dev2) = false ->
             read_urb_in_flight b0 trace2 = Some false ->
             Forall submits_into_empty_buffer trace2 ->
             match serve_read r dev2 user_writable count trace2 with
             | Pass_done outcome =>
                 read_urb_in_flight b0 (snd outcome)
                 = Some (requested_read (read_endp (snd (fst (fst outcome)))))
                 /\ Forall submits_into_empty_buffer (snd outcome)
             | Pass_retry dev' trace' =>
                 read_urb_in_flight b0 trace' = Some (requested_read (read_endp dev'))
                 /\ Forall submits_into_empty_buffer trace'
             end).
  { intros dev2 trace2 Hrq Hfl2 Hall2. unfold serve_read.
    destruct (read_errors (read_endp dev2) <? 0).
    { cbn. rewrite Hrq. now split. }
    destruct (negb (to_size_t (filled (buffer (read_endp dev2))
                               - copied (buffer (read_endp dev2))) =? 0)).
    - destruct (parse_buffered_data (buffer (read_endp dev2)) user_writable count)
        as [ret rb out rd| | |]; try (cbn; rewrite Hrq; now split).
      destruct (to_size_t ret <? count).
      + match goal with |- context [mk2_request_read ?d ?s ?c] =>
          destruct (mk2_request_read_in_flight d s c) as [Hq Hs];
          destruct (mk2_request_read d s c) as [[rv dev3] evs] end.
        cbn [fst snd] in *. rewrite read_urb_in_flight_app, Hfl2. cbn.
        split; [exact Hq | now apply Forall_app].
      + cbn. rewrite Hrq. now split.
    - match goal with |- context [mk2_request_read ?d ?s ?c] =>
        destruct (mk2_request_read_in_flight d s c) as [Hq Hs];
        destruct (mk2_request_read d s c) as [[rv dev3] evs] end.
      cbn [fst snd] in *.
      destruct (rv <? 0); cbn [fst snd]; rewrite read_urb_in_flight_app, Hfl2; cbn;
        (split; [exact Hq | now apply Forall_app]). }
  destruct (requested_read (read_endp dev1)) eqn:Hrq1.
  - destruct nonblock; [cbn; rewrite Hrq1; now split|].
    destruct (wait_result r) as [|u]; [cbn; rewrite Hrq1; now split|].
    destruct (complete_read_in_flight dev1 u true) as (Hreq & Htr & Hsub).
    destruct (complete_read dev1 u) as [dev2 evs]. cbn [fst snd] in *.
    apply Hserve; [assumption | | now apply Forall_app].
    rewrite read_urb_in_flight_app, Hfl1. cbn. exact Htr.
  - apply Hserve; assumption.
Qed.

(** A read call never hands the read urb to the transport while it is in
    flight, however many passes of its retry loop it makes and whichever
    way they go: a submission happens only after the completion callback
    of the previous one has run or its submission was refused.  At the end
    of the call [requested_read] tells whether the urb is in flight, and
    every submission is made with the flag set and the buffer emptied. *)
Theorem mk2_read_single_request (dev : mk2dev) (nonblock : bool) (env : read_env)
    (user_writable count : Z) :
  read_urb_in_flight (requested_read (read_endp dev))
                     (snd (mk2_read dev nonblock env user_writable count))
  = Some (requested_read
            (read_endp (snd (fst (fst (mk2_read dev nonblock env user_writable count))))))
  /\ Forall submits_into_empty_buffer (snd (mk2_read dev nonblock env user_writable count)).
Proof.
  unfold mk2_read.
  destruct (count <? MK2_SYSEX_PACKET_SIZE); [now split|].
  destruct (lock_result env <? 0); [now split|].
  destruct (disconnected dev); [now split|].
  assert (Hretry : forall rs dev1 trace,
             read_urb_in_flight (requested_read (read_endp dev)) trace
             = Some (requested_read (read_endp dev1)) ->
             Forall submits_into_empty_buffer trace ->
             read_urb_in_flight (requested_read (read_endp dev))
               (snd (mk2_read_retry rs dev1 nonblock user_writable count trace))
             = Some (requested_read
                       (read_endp (snd (fst (fst (mk2_read_retry rs dev1 nonblock
                                                    user_writable count trace))))))
             /\ Forall submits_into_empty_buffer
                  (snd (mk2_read_retry rs dev1 nonblock user_writable count trace))).
  { induction rs as [|r rs IH]; intros dev1 trace Hfl Hall.
    - cbn. now split.
    - cbn [mk2_read_retry].
      pose proof (mk2_read_pass_in_flight r dev1 nonblock user_writable count trace
                    _ Hfl Hall) as Hpass.
      destruct (mk2_read_pass r dev1 nonblock user_writable count trace)
        as [outcome | dev2 trace2].
      + exact Hpass.
      + apply IH; apply Hpass. }
  apply Hretry; [reflexivity | constructor].
Qed.

(** A failed inbound transfer is reported once, by the read call that
    waited for it: that call returns [-EPIPE] for a stall and [-EIO] for
    anything else, stores nothing and submits nothing, and clears the
    error.  The next call starts afresh: it requests a new transfer and,
    being non-blocking, returns [-EAGAIN]. *)
Theorem read_failure_reported_once (dev : mk2dev) (u : urb) (r r2 r3 : retry_env)
    (user_writable count : Z) :
  disconnected dev = false ->
  requested_read (read_endp dev) = true ->
  read_endp_ok (read_endp dev) ->
  3 <= count ->
  urb_status u < 0 ->
  raced r = None -> wait_result r = Wait_completed u ->
  0 <= submit_read_result r2 -> raced r3 = None ->
  let first := mk2_read dev false {| lock_result := 0; rounds := [r] |}
                        user_writable count in
  let dev1 := snd (fst (fst first)) in
  let second := mk2_read dev1 true {| lock_result := 0; rounds := [r2; r3] |}
                         user_writable count in
  fst (fst (fst first)) = Ret (if urb_status u =? - EPIPE then - EPIPE else - EIO)
  /\ snd (fst first) = []
  /\ (forall requested filled_now copied_now,
         ~ In (Usb_submit_read_urb requested filled_now copied_now) (snd first))
  /\ read_errors (read_endp dev1) = 0
  /\ requested_read (read_endp dev1) = false
  /\ fst (fst (fst second)) = Ret (- EAGAIN)
  /\ snd (fst second) = []
  /\ snd second = [Usb_submit_read_urb true 0 0]
  /\ requested_read (read_endp (snd (fst (fst second)))) = true.
Proof.
  intros Hdis Hreq [_ Hempty] Hcount Hu Hr Hw Hs2 Hr3.
  destruct (Hempty Hreq) as [Hfil Hcop]. cbn zeta.
  assert (Hc3 : (count <? MK2_SYSEX_PACKET_SIZE) = false)
    by (apply Z.ltb_ge; unfold MK2_SYSEX_PACKET_SIZE; lia).
  assert (Hfirst : mk2_read dev false {| lock_result := 0; rounds := [r] |}
                            user_writable count
                   = (Ret (if urb_status u =? - EPIPE then - EPIPE else - EIO),
                      set_read_endp dev
                        {| buffer := dma_store (buffer (read_endp dev)) (urb_in_data u);
                           read_errors := 0;
                           requested_read := false |},
                      [],
                      (if negb (unlink_status (urb_status u)) then [Dev_err] else [])
                      ++ [Wake_up])).
  { unfold mk2_read. rewrite Hc3. cbn [lock_result rounds Z.ltb Z.compare].
    rewrite Hdis. cbn [mk2_read_retry]. unfold mk2_read_pass, early_completion.
    rewrite Hr. unfold wait_for_read. rewrite Hreq, Hw.
    unfold complete_read, mk2_read_bulk_callback.
    destruct (urb_status u =? 0) eqn:E0; [apply Z.eqb_eq in E0; lia|].
    unfold serve_read. cbn [read_endp set_read_endp read_errors set_requested_read
                            set_read_errors].
    destruct (urb_status u <? 0) eqn:El; [|apply Z.ltb_ge in El; lia].
    destruct (urb_status u =? - EPIPE) eqn:Ep;
      [apply Z.eqb_eq in Ep; rewrite Ep|]; reflexivity. }
  rewrite Hfirst. cbn [fst snd].
  split; [reflexivity|]. split; [reflexivity|].
  split.
  { intros rq f c Hin. destruct (unlink_status (urb_status u)); cbn in Hin;
      intuition discriminate. }
  split; [reflexivity|]. split; [reflexivity|].
  set (dev1 := set_read_endp dev _).
  assert (Hd1 : disconnected dev1 = false) by exact Hdis.
  assert (Hq1 : requested_read (read_endp dev1) = false) by reflexivity.
  assert (He1 : read_errors (read_endp dev1) = 0) by reflexivity.
  assert (Hf1 : filled (buffer (read_endp dev1)) = 0) by exact Hfil.
  assert (Hp1 : copied (buffer (read_endp dev1)) = 0) by exact Hcop.
  clearbody dev1.
  unfold mk2_read. rewrite Hc3. cbn [lock_result rounds Z.ltb Z.compare].
  rewrite Hd1. cbn [mk2_read_retry].
  assert (Hpass : mk2_read_pass r2 dev1 true user_writable count []
                  = Pass_retry
                      (set_read_endp dev1
                         {| buffer := set_copied (set_filled (buffer (read_endp dev1)) 0) 0;
                            read_errors := 0;
                            requested_read := true |})
                      [Usb_submit_read_urb true 0 0]).
  { unfold mk2_read_pass.
    assert (Hearly : early_completion r2 dev1 [] = (dev1, [])).
    { unfold early_completion. rewrite Hq1. now destruct (raced r2). }
    rewrite Hearly. unfold wait_for_read. rewrite Hq1.
    unfold serve_read. rewrite He1, Hf1, Hp1.
    change (to_size_t (0 - 0)) with 0. cbn [Z.ltb Z.compare Z.eqb negb].
    unfold mk2_request_read.
    destruct (submit_read_result r2 <? 0) eqn:Es; [apply Z.ltb_lt in Es; lia|].
    cbn. rewrite ?Es. cbn. unfold set_buffer, set_requested_read. cbn.
    rewrite He1. reflexivity. }
  rewrite Hpass.
  unfold mk2_read_pass, early_completion. rewrite Hr3.
  unfold wait_for_read. cbn. repeat split.
Qed.

Lemma read_failure_reported_once_witness :
  let dev := set_read_endp idle_dev
               {| buffer := buffer (read_endp idle_dev); read_errors := 0;
                  requested_read := true |} in
  let stalled := {| urb_status := - EPIPE; urb_actual_length := 0;
                    urb_transfer_buffer_length := 64; urb_in_data := [] |} in
  let r := {| raced := None; wait_result := Wait_completed stalled;
              submit_read_result := 0 |} in
  let first := mk2_read dev false {| lock_result := 0; rounds := [r] |} 64 64 in
  let dev1 := snd (fst (fst first)) in
  let second := mk2_read dev1 true {| lock_result := 0;
                                      rounds := [quiet_round; quiet_round] |} 64 64 in
  fst (fst (fst first)) = Ret (if urb_status stalled =? - EPIPE then - EPIPE else - EIO)
  /\ snd (fst first) = []
  /\ (forall requested filled_now copied_now,
         ~ In (Usb_submit_read_urb requested filled_now copied_now) (snd first))
  /\ read_errors (read_endp dev1) = 0
  /\ requested_read (read_endp dev1) = false
  /\ fst (fst (fst second)) = Ret (- EAGAIN)
  /\ snd (fst second) = []
  /\ snd second = [Usb_submit_read_urb true 0 0]
  /\ requested_read (read_endp (snd (fst (fst second)))) = true.
Proof.
  apply (read_failure_reported_once
           (set_read_endp idle_dev
              {| buffer := buffer (read_endp idle_dev); read_errors := 0;
                 requested_read := true |})
           {| urb_status := - EPIPE; urb_actual_length := 0;
              urb_transfer_buffer_length := 64; urb_in_data := [] |}
           {| raced := None;
              wait_result := Wait_completed
                               {| urb_status := - EPIPE; urb_actual_length := 0;
                                  urb_transfer_buffer_length := 64; urb_in_data := [] |};
              submit_read_result := 0 |}
           quiet_round quiet_round 64 64).
  - reflexivity.
  - reflexivity.
  - split.
    + unfold read_buffer_wf. cbn. rewrite INT_MAX_eq. lia.
    + intros _. split; reflexivity.
  - lia.
  - cbn. unfold EPIPE. lia.
  - reflexivity.
  - reflexivity.
  - cbn. lia.
  - reflexivity.
Defined.

Lemma same_filled_refl (rb : mk2_read_buffer) : same_filled rb rb.
Proof. unfold same_filled. auto. Qed.

Lemma same_visible_refl (dev : mk2dev) : same_visible dev dev.
Proof. unfold same_visible. auto using same_filled_refl. Qed.



(** * From a write call to a read call *)

Section FilledOnly.

Variables rb1 rb2 : mk2_read_buffer.
Variables user_writable leftover cap : Z.
Hypothesis Hwf : read_buffer_wf rb1.
Hypothesis Hcop : copied rb1 = copied rb2.
Hypothesis Hload : forall i : Z, 0 <= i < filled rb1 -> load (data rb1) i = load (data rb2) i.
Hypothesis Hleft : leftover = filled rb1 - copied rb1.
Hypothesis Hcap : 0 <= cap < uint_modulus.

Lemma parse_step_filled_only (st : parse_state) :
  parse_inv rb1 leftover cap st ->
  rb_index st < leftover ->
  parse_step rb1 user_writable leftover st = parse_step rb2 user_writable leftover st.
Proof.
  intros (k & Hidx & Hle & Hret & Hrem & Hsum & Hout & Hreads) Hlt.
  destruct Hwf as (Hcf & Hfs & Hsize & Hmax). rewrite INT_MAX_eq in Hmax.
  unfold parse_step. rewrite <- Hcop, <- (Hload (rb_index st)) by lia.
  destruct (load (data rb1) (rb_index st)) as [status|]; [|reflexivity].
  cbn [retval rb_index rem_size user_out reads].
  destruct (batch_size_of status) as [b|] eqn:Hb; [|reflexivity].
  apply batch_size_of_range in Hb.
  destruct (rem_size st <? b); [reflexivity|].
  unfold MK2_STUFFED_PACKET_SIZE.
  rewrite (to_uint_small (rb_index st + 4)) by (moduli; lia).
  destruct (leftover <? rb_index st + 4) eqn:Hbound; [reflexivity|].
  apply Z.ltb_ge in Hbound.
  rewrite (load_range_agree (data rb1) (data rb2) (filled rb1) (Z.to_nat b) Hload)
    by lia.
  reflexivity.
Qed.

Lemma parse_loop_filled_only (fuel : nat) :
  forall st : parse_state,
    parse_inv rb1 leftover cap st ->
    parse_loop fuel rb1 user_writable leftover st
    = parse_loop fuel rb2 user_writable leftover st.
Proof.
  induction fuel as [|fuel IH]; intros st Hinv; [reflexivity|].
  cbn [parse_loop]. destruct (rb_index st <? leftover) eqn:Hlt; [|reflexivity].
  apply Z.ltb_lt in Hlt.
  rewrite <- (parse_step_filled_only st Hinv Hlt).
  pose proof (parse_step_inv rb1 user_writable leftover cap Hwf Hleft Hcap st Hinv Hlt)
    as Hstep.
  destruct (parse_step rb1 user_writable leftover st); try reflexivity.
  apply IH. tauto.
Qed.

End FilledOnly.

(** The decoder looks at [filled], [copied] and the filled bytes of
    [data] only: on a buffer with other storage behind them it returns the
    same value, delivers the same bytes and advances [copied] alike. *)
Lemma parse_buffered_data_filled_only (rb1 rb2 : mk2_read_buffer)
    (user_writable user_size : Z) (ret c : Z) (out : list byte) (touched : list Z) :
  read_buffer_wf rb1 ->
  filled rb1 = filled rb2 ->
  copied rb1 = copied rb2 ->
  (forall i : Z, 0 <= i < filled rb1 -> load (data rb1) i = load (data rb2) i) ->
  copied rb1 < filled rb1 ->
  user_size <> 0 ->
  parse_buffered_data rb1 user_writable user_size
  = Returned ret (set_copied rb1 c) out touched ->
  parse_buffered_data rb2 user_writable user_size
  = Returned ret (set_copied rb2 c) out touched.
Proof.
  intros Hwf Hfil Hcop Hload Hlt Hus Hres.
  assert (Hcap : 0 <= to_uint user_size < uint_modulus)
    by (apply Z.mod_pos_bound; reflexivity).
  pose proof (parse_loop_filled_only rb1 rb2 user_writable (filled rb1 - copied rb1)
                (to_uint user_size) Hwf Hcop Hload eq_refl Hcap
                (parse_fuel (filled rb1 - copied rb1)) (parse_init user_size)
                (parse_init_inv rb1 (filled rb1 - copied rb1) user_size ltac:(lia)))
    as Hloop.
  unfold parse_buffered_data in Hres |- *.
  rewrite <- Hfil, <- Hcop.
  destruct (user_size =? 0); [discriminate|].
  destruct (to_size_t (filled rb1 - copied rb1) =? 0); [discriminate|].
  rewrite (leftover_wf rb1 Hwf) in *. rewrite <- Hloop.
  destruct (parse_loop _ rb1 user_writable _ _) as [st|st| |]; try discriminate.
  - injection Hres as <- <- <- <-. reflexivity.
  - injection Hres as <- Hrb <- <-. f_equal.
    destruct rb1, rb2. unfold set_copied in *. cbn in *. injection Hrb as <-.
    subst. reflexivity.
Qed.

(** What happens to a payload that is written and comes back, when the
    frame fits the read buffer ([compute_stuffed_size L <= size]): a write
    of [L] bytes, with [L >= 3] not a multiple of 3, that nothing hinders
    submits a frame; if the device sends that frame back, a blocking read
    of capacity [L] on an empty read channel without pending error
    requests one transfer, sleeps until it completes and returns the [L]
    bytes that were written, leaving the read buffer drained and no
    transfer outstanding. *)
Theorem loopback_roundtrip (dev : mk2dev) (nonblock : bool) (env : write_env)
    (payload : list byte) (r1 r2 : retry_env) (u : urb) :
  let L := Z.of_nat (length payload) in
  disconnected dev = false ->
  0 < limit_sem (write_endp dev) ->
  0 <= write_errors (write_endp dev) ->
  alloc_urb_ok env = true -> alloc_coherent_ok env = true ->
  access_ok env = true -> memdup_alloc_ok env = true ->
  submit_write_result env = 0 ->
  3 <= L <= USB_MK2_MAX_OUT_LEN ->
  L mod 3 <> 0 ->
  requested_read (read_endp dev) = false ->
  0 <= read_errors (read_endp dev) ->
  read_buffer_wf (buffer (read_endp dev)) ->
  filled (buffer (read_endp dev)) = copied (buffer (read_endp dev)) ->
  compute_stuffed_size L <= size (buffer (read_endp dev)) ->
  0 <= submit_read_result r1 ->
  raced r2 = None ->
  wait_result r2 = Wait_completed u ->
  urb_status u = 0 ->
  exists (frame : list byte) (dev1 : mk2dev) (sent : list event),
    mk2_write dev nonblock env payload L = (Ret L, dev1, sent)
    /\ In (Usb_submit_write_urb frame) sent
    /\ (urb_in_data u = frame ->
        urb_actual_length u = Z.of_nat (length frame) ->
        exists dev2 : mk2dev,
          mk2_read dev1 false {| lock_result := 0; rounds := [r1; r2] |} L L
          = (Ret L, dev2, payload, [Usb_submit_read_urb true 0 0; Wake_up])
          /\ requested_read (read_endp dev2) = false
          /\ copied (buffer (read_endp dev2)) = filled (buffer (read_endp dev2))
          /\ write_endp dev2 = write_endp dev1).
Proof.
  intros L Hdis Hsem Hwerr Hurb Hcoh Hacc Hdup Hsub HL Hmod Hreq Hrerr Hwf Hempty
         Hroom Hs1 Hr2 Hw2 Hu0.
  assert (Hne : payload <> []) by (intros ->; cbn in L; lia).
  assert (Hmin : Z.min L USB_MK2_MAX_OUT_LEN = L) by lia.
  (* the write call *)
  pose proof (mk2_write_success dev nonblock env payload Hdis Hsem Hwerr Hurb Hcoh Hacc
                Hdup Hsub Hne) as Hw.
  cbn zeta in Hw. fold L in Hw. rewrite Hmin in Hw.
  assert (Hframe : frame_of payload = encode payload).
  { unfold frame_of. rewrite take_ge; [reflexivity|]. unfold USB_MK2_MAX_OUT_LEN in *. lia. }
  rewrite Hframe in Hw.
  set (dev1 := set_write_endp dev _) in Hw.
  eexists (encode payload), dev1, _.
  split; [exact Hw|].
  split; [cbn; tauto|].
  intros Hdata Hactual.
  (* the frame and its decoding *)
  destruct (decode_frame payload (repeat Byte.x00 (Z.to_nat (compute_stuffed_size L)))
              Hne (proj2 HL)) as (_ & Hlen & touched & Hdec).
  { rewrite repeat_length, Z2Nat.id; [reflexivity | apply compute_stuffed_size_nonneg]. }
  fold L in Hlen, Hdec. cbn zeta in Hdec.
  destruct (decide (L mod 3 = 0)) as [Hz|_]; [contradiction|].
  pose proof Hwf as (Hcf & Hfs & Hsize & Hmax).
  assert (Hcss : 0 < compute_stuffed_size L).
  { rewrite compute_stuffed_size_exact;
      [| lia | moduli; unfold USB_MK2_MAX_OUT_LEN in *; Z.div_mod_to_equations; lia].
    Z.div_mod_to_equations; lia. }
  (* the read call *)
  assert (Hd1 : disconnected dev1 = false) by exact Hdis.
  assert (Hread1 : read_endp dev1 = read_endp dev) by reflexivity.
  clearbody dev1.
  assert (Hc3 : (L <? MK2_SYSEX_PACKET_SIZE) = false)
    by (apply Z.ltb_ge; unfold MK2_SYSEX_PACKET_SIZE; lia).
  unfold mk2_read. rewrite Hc3. cbn [lock_result rounds Z.ltb Z.compare].
  rewrite Hd1. cbn [mk2_read_retry].
  set (devA := set_read_endp dev1
                 {| buffer := set_copied (set_filled (buffer (read_endp dev)) 0) 0;
                    read_errors := read_errors (read_endp dev);
                    requested_read := true |}).
  assert (Hpass1 : mk2_read_pass r1 dev1 false L L []
                   = Pass_retry devA [Usb_submit_read_urb true 0 0]).
  { unfold mk2_read_pass.
    assert (Hearly : early_completion r1 dev1 [] = (dev1, [])).
    { unfold early_completion. rewrite Hread1, Hreq. now destruct (raced r1). }
    rewrite Hearly. unfold wait_for_read. rewrite Hread1, Hreq.
    unfold serve_read. rewrite Hread1.
    destruct (read_errors (read_endp dev) <? 0) eqn:Ee; [apply Z.ltb_lt in Ee; lia|].
    rewrite Hempty, Z.sub_diag. change (to_size_t 0) with 0. cbn [Z.eqb negb].
    unfold mk2_request_read. rewrite Hread1.
    destruct (submit_read_result r1 <? 0) eqn:Es; [apply Z.ltb_lt in Es; lia|].
    cbn. rewrite ?Es. reflexivity. }
  rewrite Hpass1.
  set (rbP := {| data := take (length (data (buffer (read_endp dev))))
                           (encode payload
                            ++ drop (length (encode payload))
                                 (data (buffer (read_endp dev))));
                 size := size (buffer (read_endp dev));
                 filled := compute_stuffed_size L;
                 copied := 0 |}).
  set (rbE := {| data := encode payload; size := compute_stuffed_size L;
                 filled := compute_stuffed_size L; copied := 0 |}) in Hdec.
  assert (HwfE : read_buffer_wf rbE).
  { unfold read_buffer_wf, rbE. cbn. rewrite INT_MAX_eq in *. lia. }
  assert (HdecP : parse_buffered_data rbP L L
                  = Returned L (set_copied rbP (compute_stuffed_size L)) payload touched).
  { apply (parse_buffered_data_filled_only rbE rbP L L L (compute_stuffed_size L)
             payload touched HwfE); try reflexivity.
    - intros i Hi. cbn in Hi |- *. symmetry. apply load_dma_store; lia.
    - cbn. lia.
    - lia.
    - exact Hdec. }
  assert (Hpass2 : mk2_read_pass r2 devA false L L [Usb_submit_read_urb true 0 0]
                   = Pass_done
                       (Ret L,
                        set_read_endp dev1
                          {| buffer := set_copied rbP (compute_stuffed_size L);
                             read_errors := read_errors (read_endp dev);
                             requested_read := false |},
                        payload, [Usb_submit_read_urb true 0 0; Wake_up])).
  { set (devB := set_read_endp dev1
                   {| buffer := rbP; read_errors := read_errors (read_endp dev);
                      requested_read := false |}).
    assert (Hdone : complete_read devA u = (devB, [Wake_up])).
    { unfold complete_read, mk2_read_bulk_callback, devA, devB, rbP. rewrite Hu0.
      cbn. rewrite Hdata, Hactual, Hlen. reflexivity. }
    unfold mk2_read_pass, early_completion. rewrite Hr2.
    unfold wait_for_read.
    change (requested_read (read_endp devA)) with true. cbn match.
    rewrite Hw2, Hdone. unfold serve_read.
    change (read_endp devB)
      with {| buffer := rbP; read_errors := read_errors (read_endp dev);
              requested_read := false |}.
    cbn [read_errors buffer].
    destruct (read_errors (read_endp dev) <? 0) eqn:Ee; [apply Z.ltb_lt in Ee; lia|].
    change (filled rbP - copied rbP) with (compute_stuffed_size L - 0).
    rewrite Z.sub_0_r.
    rewrite (to_size_t_small (compute_stuffed_size L))
      by (moduli; rewrite INT_MAX_eq in *; lia).
    destruct (compute_stuffed_size L =? 0) eqn:Ez; [apply Z.eqb_eq in Ez; lia|].
    cbn [negb]. rewrite HdecP.
    rewrite (to_size_t_small L) by (moduli; unfold USB_MK2_MAX_OUT_LEN in *; lia).
    rewrite Z.ltb_irrefl. reflexivity. }
  rewrite Hpass2.
  eexists. split; [reflexivity|]. cbn. repeat split.
Qed.

Lemma loopback_roundtrip_witness :
  let payload := [Byte.x61; Byte.x62; Byte.x63; Byte.x64] in
  let L := Z.of_nat (length payload) in
  exists (frame : list byte) (dev1 : mk2dev) (sent : list event),
    mk2_write idle_dev true willing_env payload L = (Ret L, dev1, sent)
    /\ In (Usb_submit_write_urb frame) sent
    /\ (urb_in_data frame4_urb = frame ->
        urb_actual_length frame4_urb = Z.of_nat (length frame) ->
        exists dev2 : mk2dev,
          mk2_read dev1 false {| lock_result := 0; rounds := [quiet_round; frame4_round] |}
                   L L
          = (Ret L, dev2, payload, [Usb_submit_read_urb true 0 0; Wake_up])
          /\ requested_read (read_endp dev2) = false
          /\ copied (buffer (read_endp dev2)) = filled (buffer (read_endp dev2))
          /\ write_endp dev2 = write_endp dev1).
Proof.
  apply (loopback_roundtrip idle_dev true willing_env
           [Byte.x61; Byte.x62; Byte.x63; Byte.x64] quiet_round frame4_round frame4_urb);
    try reflexivity.
  - cbn. unfold USB_MK2_MAX_OUT_LEN. lia.
  - vm_compute. discriminate.
  - unfold read_buffer_wf. cbn. rewrite INT_MAX_eq. lia.
  - vm_compute. discriminate.
Defined.

(** * Binding, open files and release of the device structure *)

Lemma complete_read_disconnected (dev : mk2dev) (u : urb) :
  disconnected (fst (complete_read dev u)) = disconnected dev.
Proof.
  unfold complete_read, mk2_read_bulk_callback.
  destruct (urb_status u =? 0); reflexivity.
Qed.

Lemma mk2_request_read_disconnected (dev : mk2dev) (submit_result count : Z) :
  disconnected (snd (fst (mk2_request_read dev submit_result count))) = disconnected dev.
Proof. unfold mk2_request_read. destruct (submit_result <? 0); reflexivity. Qed.

Lemma mk2_read_pass_disconnected (r : retry_env) (dev : mk2dev) (nonblock : bool)
    (user_writable count : Z) (trace : list event) :
  match mk2_read_pass r dev nonblock user_writable count trace with
  | Pass_done outcome => disconnected (snd (fst (fst outcome))) = disconnected dev
  | Pass_retry dev' _ => disconnected dev' = disconnected dev
  end.
Proof.
  unfold mk2_read_pass.
  assert (Hearly : disconnected (fst (early_completion r dev trace)) = disconnected dev).
  { unfold early_completion. destruct (raced r) as [u|]; [|reflexivity].
    destruct (requested_read (read_endp dev)); [|reflexivity].
    pose proof (complete_read_disconnected dev u) as H.
    destruct (complete_read dev u). exact H. }
  destruct (early_completion r dev trace) as [dev1 trace1]. cbn [fst] in Hearly.
  rewrite <- Hearly. clear Hearly.
  assert (Hserve : forall dev2 trace2,
             match serve_read r dev2 user_writable count trace2 with
             | Pass_done outcome => disconnected (snd (fst (fst outcome))) = disconnected dev2
             | Pass_retry dev' _ => disconnected dev' = disconnected dev2
             end).
  { intros dev2 trace2. unfold serve_read.
    destruct (read_errors (read_endp dev2) <? 0); [reflexivity|].
    destruct (negb (to_size_t (filled (buffer (read_endp dev2))
                               - copied (buffer (read_endp dev2))) =? 0)).
    - destruct (parse_buffered_data (buffer (read_endp dev2)) user_writable count)
        as [ret rb out rd| | |]; try reflexivity.
      destruct (to_size_t ret <? count); [|reflexivity].
      match goal with |- context [mk2_request_read ?d ?s ?c] =>
        pose proof (mk2_request_read_disconnected d s c) as H;
        destruct (mk2_request_read d s c) as [[rv dev3] evs] end.
      exact H.
    - match goal with |- context [mk2_request_read ?d ?s ?c] =>
        pose proof (mk2_request_read_disconnected d s c) as H;
        destruct (mk2_request_read d s c) as [[rv dev3] evs] end.
      destruct (rv <? 0); exact H. }
  unfold wait_for_read.
  destruct (requested_read (read_endp dev1)); [|apply Hserve].
  destruct nonblock; [reflexivity|].
  destruct (wait_result r) as [|u]; [reflexivity|].
  pose proof (complete_read_disconnected dev1 u) as H.
  destruct (complete_read dev1 u) as [dev2 evs]. cbn [fst] in H. rewrite <- H.
  apply Hserve.
Qed.

Lemma mk2_read_retry_disconnected (nonblock : bool) (user_writable count : Z)
    (rs : list retry_env) :
  forall (dev : mk2dev) (trace : list event),
    disconnected (snd (fst (fst (mk2_read_retry rs dev nonblock user_writable count trace))))
    = disconnected dev.
Proof.
  induction rs as [|r rs IH]; intros dev trace; [reflexivity|].
  cbn [mk2_read_retry].
  pose proof (mk2_read_pass_disconnected r dev nonblock user_writable count trace) as Hp.
  destruct (mk2_read_pass r dev nonblock user_writable count trace) as [o|d' trace'].
  - exact Hp.
  - rewrite <- Hp. apply IH.
Qed.

Lemma mk2_read_disconnected (dev : mk2dev) (nonblock : bool) (env : read_env)
    (user_writable count : Z) :
  disconnected (snd (fst (fst (mk2_read dev nonblock env user_writable count))))
  = disconnected dev.
Proof.
  unfold mk2_read.
  destruct (count <? MK2_SYSEX_PACKET_SIZE); [reflexivity|].
  destruct (lock_result env <? 0); [reflexivity|].
  destruct (disconnected dev) eqn:Hd; [exact Hd|]. rewrite <- Hd.
  apply mk2_read_retry_disconnected.
Qed.

Lemma mk2_write_disconnected_flag (dev : mk2dev) (nonblock : bool) (env : write_env)
    (user : list byte) (count : Z) :
  disconnected (snd (fst (mk2_write dev nonblock env user count))) = disconnected dev.
Proof.
  unfold mk2_write, write_error.
  repeat match goal with
         | |- context [if ?c then _ else _] => destruct c eqn:?
         | |- context [match ?c with inl _ => _ | inr _ => _ end] => destruct c
         | |- context [match ?c with Some _ => _ | None => _ end] => destruct c
         end; cbn; congruence.
Qed.

(** Calls and completions leave the [disconnected] flag alone. *)
Lemma step_disconnected (o : op) (dev : mk2dev) :
  o <> Op_disconnect ->
  disconnected (fst (step o dev)) = disconnected dev.
Proof.
  intros Ho. destruct o as [nb env uw c | u | nb env user c | u |]; cbn [step].
  - pose proof (mk2_read_disconnected dev nb env uw c) as H.
    destruct (mk2_read dev nb env uw c) as [[[res d] out] tr]. exact H.
  - destruct (requested_read (read_endp dev)); [|reflexivity].
    pose proof (complete_read_disconnected dev u) as H.
    destruct (complete_read dev u). exact H.
  - pose proof (mk2_write_disconnected_flag dev nb env user c) as H.
    destruct (mk2_write dev nb env user c) as [[res d] tr]. exact H.
  - unfold mk2_write_bulk_callback. destruct (urb_status u =? 0); reflexivity.
  - contradiction.
Qed.

(** [mk2_probe] returns 0 exactly when it leaves a bound, registered
    device, which then holds one reference, all write slots, no error and
    an empty, well-formed read buffer of the endpoint's packet size.
    Every failure after the allocation of the structure drops the only
    reference: the structure is released together with its references on
    the usb device, and the interface is left unbound and unregistered. *)
Theorem mk2_probe_outcome (env : probe_env) :
  0 <= maxp env <= INT_MAX ->
  (forall d : list byte, kmalloc_data env = Some d -> Z.of_nat (length d) = maxp env) ->
  let retval := fst (mk2_probe env) in
  (retval = 0 <->
   kzalloc_ok env = true /\ endpoints_result env = 0 /\ is_Some (kmalloc_data env)
   /\ read_urb_ok env = true /\ register_result env = 0)
  /\ (snd (mk2_probe env) = None <-> kzalloc_ok env = false)
  /\ forall h : mk2_host,
       snd (mk2_probe env) = Some h ->
       if retval =? 0 then
         host_inv (h, 0%nat)
         /\ intfdata h = true
         /\ freed h = false
         /\ write_endp (host_dev h)
            = {| submitted := []; limit_sem := WRITES_IN_FLIGHT; write_errors := 0 |}
         /\ read_errors (read_endp (host_dev h)) = 0
         /\ read_endp_ok (read_endp (host_dev h))
         /\ filled (buffer (read_endp (host_dev h))) = 0
         /\ size (buffer (read_endp (host_dev h))) = maxp env
       else
         freed h = true /\ kref h = 0 /\ usb_refs h = 0
         /\ intfdata h = false /\ registered h = false.
Proof.
  intros Hmaxp Hmem. cbn zeta. unfold mk2_probe.
  destruct (kzalloc_ok env); cbn [negb].
  2:{ cbn. unfold ENOMEM. repeat split; try discriminate; try lia; intuition discriminate. }
  destruct (endpoints_result env =? 0) eqn:Eep; cbn [negb].
  2:{ apply Z.eqb_neq in Eep. cbn [fst snd].
      split; [tauto|]. split; [intuition discriminate|].
      intros h [= <-]. rewrite (proj2 (Z.eqb_neq _ _) Eep). cbn. repeat split. }
  apply Z.eqb_eq in Eep.
  unfold mk2_read_buffer_alloc.
  destruct (kmalloc_data env) as [d|] eqn:Hd; cbn [negb].
  2:{ cbn. unfold ENOMEM. split; [|split; [intuition discriminate|]].
      - split; [lia|]. intros (_ & _ & [x Hx] & _). discriminate.
      - intros h [= <-]. cbn. repeat split. }
  destruct (read_urb_ok env); cbn [negb].
  2:{ cbn. unfold ENOMEM. split; [|split; [intuition discriminate|]].
      - split; [lia|]. intros (_ & _ & _ & Hf & _). discriminate.
      - intros h [= <-]. cbn. repeat split. }
  destruct (register_result env =? 0) eqn:Erg; cbn [negb].
  2:{ apply Z.eqb_neq in Erg. cbn [fst snd].
      split; [tauto|]. split; [intuition discriminate|].
      intros h [= <-]. rewrite (proj2 (Z.eqb_neq _ _) Erg). cbn. repeat split. }
  apply Z.eqb_eq in Erg. cbn [fst snd].
  split; [split; [intros _; repeat split; eauto | reflexivity]|].
  split; [intuition discriminate|].
  intros h [= <-]. cbn.
  assert (Hsz : to_size_t (maxp env) = maxp env).
  { apply to_size_t_small. moduli. rewrite INT_MAX_eq in Hmaxp. lia. }
  rewrite Hsz. specialize (Hmem d eq_refl).
  repeat split; cbn; try reflexivity; try lia; try discriminate.
Qed.

Lemma mk2_probe_outcome_witness :
  let retval := fst (mk2_probe plugged_env) in
  (retval = 0 <->
   kzalloc_ok plugged_env = true /\ endpoints_result plugged_env = 0
   /\ is_Some (kmalloc_data plugged_env)
   /\ read_urb_ok plugged_env = true /\ register_result plugged_env = 0)
  /\ (snd (mk2_probe plugged_env) = None <-> kzalloc_ok plugged_env = false)
  /\ forall h : mk2_host,
       snd (mk2_probe plugged_env) = Some h ->
       if retval =? 0 then
         host_inv (h, 0%nat)
         /\ intfdata h = true
         /\ freed h = false
         /\ write_endp (host_dev h)
            = {| submitted := []; limit_sem := WRITES_IN_FLIGHT; write_errors := 0 |}
         /\ read_errors (read_endp (host_dev h)) = 0
         /\ read_endp_ok (read_endp (host_dev h))
         /\ filled (buffer (read_endp (host_dev h))) = 0
         /\ size (buffer (read_endp (host_dev h))) = maxp plugged_env
       else
         freed h = true /\ kref h = 0 /\ usb_refs h = 0
         /\ intfdata h = false /\ registered h = false.
Proof.
  apply (mk2_probe_outcome plugged_env).
  - cbn. rewrite INT_MAX_eq. lia.
  - intros d [= <-]. reflexivity.
Defined.

Lemma kref_put_spec (h : mk2_host) :
  freed h = false -> usb_refs h = 1 -> 1 <= kref h ->
  let h' := kref_put h in
  host_dev h' = host_dev h /\ intfdata h' = intfdata h /\ registered h' = registered h
  /\ pm_usage h' = pm_usage h /\ kref h' = kref h - 1
  /\ freed h' = (kref h' =? 0) /\ usb_refs h' = (if freed h' then 0 else 1).
Proof.
  intros Hf Hu Hk. cbn zeta. unfold kref_put.
  destruct (kref h - 1 =? 0) eqn:E; cbn; rewrite ?E, ?Hf, ?Hu; repeat split.
Qed.

Lemma life_step_inv (o : life_op) (st : life_state) :
  host_inv st -> life_ok o st ->
  exists st' : life_state, life_step o st = Some st' /\ host_inv st'.
Proof.
  destruct st as [h files]. intros (Hreg & Hintf & Hpm & Hk & Hf & Hu) Hok.
  assert (Halive : 1 <= kref h -> freed h = false /\ usb_refs h = 1).
  { intros H1. assert (Hz : (kref h =? 0) = false) by (apply Z.eqb_neq; lia).
    rewrite Hz in Hf. rewrite Hf in Hu. now split. }
  destruct o as [rv | | o |]; cbn [life_step].
  - (* open *)
    unfold mk2_open. rewrite Hreg.
    destruct (intfdata h) eqn:Hi; cbn [negb].
    2:{ eexists. split; [reflexivity|]. cbn. rewrite Hi. tauto. }
    destruct (rv =? 0); cbn [negb].
    2:{ eexists. split; [reflexivity|]. cbn. rewrite Hi. tauto. }
    destruct Halive as [Hnf Hur]; [lia|]. rewrite Hnf.
    eexists. split; [reflexivity|]. cbn. rewrite Hi, Hnf.
    assert (Hz : (kref h + 1 =? 0) = false) by (apply Z.eqb_neq; lia).
    rewrite Hz. repeat split; try assumption; lia.
  - (* release *)
    cbn in Hok. unfold mk2_release. cbn [negb].
    destruct Halive as [Hnf Hur]; [destruct (intfdata h); lia|]. rewrite Hnf.
    destruct (kref_put_spec (set_pm_usage h (pm_usage h - 1)))
      as (H1 & H2 & H3 & H4 & H5 & H6 & H7);
      [assumption | assumption | cbn; destruct (intfdata h); lia |].
    cbn [set_pm_usage host_dev intfdata registered pm_usage kref] in *.
    eexists. split; [reflexivity|]. cbn [host_inv].
    split; [congruence|]. split; [congruence|]. split; [rewrite H4; lia|].
    split; [rewrite H5, H2; destruct (intfdata h); lia|].
    split; [exact H6 | exact H7].
  - (* a call or a completion *)
    assert (Hone : 1 <= kref h /\ o <> Op_disconnect).
    { destruct o; cbn in Hok; try (split; [|discriminate]);
        try (rewrite Hok in Hk); try (destruct (intfdata h)); try lia; contradiction. }
    destruct Hone as [H1 Hno]. destruct (Halive H1) as [Hnf Hur]. rewrite Hnf.
    eexists. split; [reflexivity|]. cbn.
    rewrite (step_disconnected o (host_dev h) Hno). tauto.
  - (* removal *)
    cbn in Hok. unfold mk2_disconnect_interface. rewrite Hok in *. cbn [negb].
    destruct Halive as [Hnf Hur]; [lia|]. rewrite Hnf.
    match goal with |- context [kref_put ?x] =>
      destruct (kref_put_spec x) as (H1 & H2 & H3 & H4 & H5 & H6 & H7);
        [assumption | assumption | cbn; lia |]; set (h' := kref_put x) in *
    end.
    cbn [set_host_dev set_registered set_intfdata host_dev intfdata registered
         pm_usage kref] in *.
    exists (h', files). split; [reflexivity|]. cbn [host_inv].
    split; [congruence|]. split; [rewrite H1, H2; reflexivity|].
    split; [rewrite H4; assumption|].
    split; [rewrite H5, H2; lia|].
    split; [exact H6 | exact H7].
Qed.


